(** * Verification of the text-processing and analysis-client core of
    blog-analysis.

    Python strings are modelled as lists of Unicode code points ([list Z]);
    indices are [nat], as Python's [int] offsets into a string.  Character
    classes that depend on the Unicode database ([str.isalnum], [str.lower],
    NFKC normalisation) are section variables; the ASCII behaviour is fixed by
    hypotheses where a statement needs it. *)

From Stdlib Require Import ZArith String Ascii List Bool Lia.
Import ListNotations.
Set Warnings "-register-all".

(* ------------------------------------------------------------------ *)
(** ** Python string helpers *)

Module Py.

(** A character is its code point; a Python [str] is its list of code points. *)
Abbreviation char := Z (only parsing).
Abbreviation str := (list Z) (only parsing).

(** An ASCII Rocq string literal as a Python [str]. *)
Fixpoint s2l (s : string) : str :=
  match s with
  | EmptyString => []
  | String a r => Z.of_nat (nat_of_ascii a) :: s2l r
  end.

(** [str.isspace] on one character (also the class of [\s] in [re]). *)
Definition isspace (c : char) : bool :=
  (((9 <=? c) && (c <=? 13)) || ((28 <=? c) && (c <=? 32)) || (c =? 133) || (c =? 160)
  || (c =? 5760) || ((8192 <=? c) && (c <=? 8202)) || (c =? 8232) || (c =? 8233)
  || (c =? 8239) || (c =? 8287) || (c =? 12288))%Z.

Fixpoint lstrip (l : str) : str :=
  match l with
  | [] => []
  | c :: r => if isspace c then lstrip r else l
  end.

(** [str.strip()]. *)
Definition strip (l : str) : str := rev (lstrip (rev (lstrip l))).

Fixpoint find_aux (c : char) (l : str) (i : nat) : option nat :=
  match l with
  | [] => None
  | d :: r => if Z.eqb c d then Some i else find_aux c r (S i)
  end.

(** [s.find(c, start)] for a one-character [c]; [None] stands for [-1]. *)
Definition find (l : str) (c : char) (start : nat) : option nat :=
  find_aux c (skipn start l) start.

(** [s[a:b]] for [0 <= a, b]. *)
Definition slice (l : str) (a b : nat) : str := firstn (b - a) (skipn a l).

Definition str_eqb (a b : str) : bool :=
  if list_eq_dec Z.eq_dec a b then true else false.

Definition ascii_lower (c : char) : char :=
  if ((65 <=? c) && (c <=? 90))%Z then (c + 32)%Z else c.

(** [str.isalnum] restricted to ASCII; used to instantiate the Unicode
    character class on inputs that are plain ASCII. *)
Definition ascii_isalnum (c : char) : bool :=
  (((48 <=? c) && (c <=? 57)) || ((65 <=? c) && (c <=? 90)) || ((97 <=? c) && (c <=? 122)))%Z.

(** [s.startswith(lit)]. *)
Fixpoint is_prefix (lit l : str) : bool :=
  match lit, l with
  | [], _ => true
  | a :: lit', c :: l' => Z.eqb a c && is_prefix lit' l'
  | _ :: _, [] => false
  end.

(** Literal helper for concrete inputs: in [txt s] a backquote stands for a
    double quote and a tilde for a newline, the other ASCII characters for
    themselves. *)
Definition txt (s : string) : str :=
  map (fun c => if Z.eqb c 96 then 34%Z else if Z.eqb c 126 then 10%Z else c) (s2l s).

(** The Python exceptions the modelled code can raise. *)
Inductive exc :=
| JSONDecodeError (msg : string) (pos : nat)
| ValueError
| AttributeError
| TypeError
| UnboundLocalError
| APIError (code : nat).

End Py.

Import Py.

(* ------------------------------------------------------------------ *)
(** ** [count_personal_pronouns]
    (src/make_analysis.py and src/modular/article_processor.py) *)

Record pronoun_report := {
  count : nat;
  found_pronouns : list str;
  quoted_regions : list (nat * nat);
  sentences_with_pronouns : list str;
  flag : bool
}.

Section Pronouns.

(** Python's [str.isalnum] on one code point. *)
Variable is_alnum : Z -> bool.

(** Step 1: the inner [for open_quote in quote_pairs.keys()] loop: the
    earliest opener at or after [cur], with the closer it maps to. *)
Fixpoint next_opener (pairs : list (char * char)) (text : str) (cur : nat)
    (best : option (nat * char)) : option (nat * char) :=
  match pairs with
  | [] => best
  | (o, c) :: r =>
      let next_pos := match best with Some (p, _) => p | None => length text end in
      match find text o cur with
      | Some pos => if pos <? next_pos then next_opener r text cur (Some (pos, c))
                    else next_opener r text cur best
      | None => next_opener r text cur best
      end
  end.

(** The [while current_pos < text_length] loop; [fuel] bounds the
    iterations ([current_pos] grows by at least one each time). *)
Fixpoint scan_quotes (pairs : list (char * char)) (text : str) (fuel cur : nat)
    : list (nat * nat) :=
  match fuel with
  | O => []
  | S f =>
      if cur <? length text then
        match next_opener pairs text cur None with
        | None => []
        | Some (start, end_quote) =>
            let e := match find text end_quote (S start) with
                     | Some e => e
                     | None => length text - 1
                     end in
            (start, e) :: scan_quotes pairs text f (S e)
        end
      else []
  end.

Definition quoted_regions_of (pairs : list (char * char)) (text : str) : list (nat * nat) :=
  scan_quotes pairs text (S (length text)) 0.

Definition is_in_quotes (quotes : list (nat * nat)) (pos : nat) : bool :=
  existsb (fun '(s, e) => (s <=? pos) && (pos <=? e)) quotes.

(** Step 2: sentences, split after each [.], [!] or [?]. *)
Definition is_sentence_end (c : char) : bool := ((c =? 46) || (c =? 33) || (c =? 63))%Z.

Fixpoint split_sentences_aux (text rest : str) (i start : nat)
    : list (str * nat * nat) * nat :=
  match rest with
  | [] => ([], start)
  | c :: r =>
      if is_sentence_end c then
        let e := S i in
        let s := strip (slice text start e) in
        let '(l, st) := split_sentences_aux text r (S i) e in
        (match s with [] => l | _ => (s, start, e) :: l end, st)
      else split_sentences_aux text r (S i) start
  end.

Definition split_sentences (text : str) : list (str * nat * nat) :=
  let '(l, st) := split_sentences_aux text text 0 0 in
  if st <? length text then
    match strip (slice text st (length text)) with
    | [] => l
    | s => l ++ [(s, st, length text)]
    end
  else l.

(** Step 3: [re.finditer(r'\b(I|me|my|mine|myself)\b', text, re.IGNORECASE)]. *)
Definition is_word (c : char) : bool := is_alnum c || (c =? 95)%Z.

Definition word_at (text : str) (k : nat) : bool :=
  match nth_error text k with Some c => is_word c | None => false end.

Definition at_boundary (text : str) (p : nat) : bool :=
  xorb (match p with O => false | S q => word_at text q end) (word_at text p).

(** Case-insensitive match of a pattern letter: the simple lowercase of
    [c] equals the lowercased letter; U+0130 lowers to [i], and [re] adds
    the equivalences i ~ U+0131 and s ~ U+017F. *)
Definition ci_char_eq (lit c : char) : bool :=
  let lo := ascii_lower lit in
  (((c <? 128) && (ascii_lower c =? lo))
   || ((lo =? 105) && ((c =? 304) || (c =? 305)))
   || ((lo =? 115) && (c =? 383)))%Z.

Fixpoint ci_prefix (lit text : str) : bool :=
  match lit, text with
  | [], _ => true
  | a :: l', c :: t' => ci_char_eq a c && ci_prefix l' t'
  | _ :: _, [] => false
  end.

Definition pronoun_alternatives : list str :=
  [s2l "I"; s2l "me"; s2l "my"; s2l "mine"; s2l "myself"].

Fixpoint try_alternatives (alts : list str) (text : str) (p : nat) : option nat :=
  match alts with
  | [] => None
  | a :: r =>
      if ci_prefix a (skipn p text) && at_boundary text (p + length a)
      then Some (length a) else try_alternatives r text p
  end.

Definition match_pronoun_at (text : str) (p : nat) : option nat :=
  if at_boundary text p then try_alternatives pronoun_alternatives text p else None.

(** The matches as (start offset, [m.group()]). *)
Fixpoint finditer_pronouns (fuel : nat) (text : str) (p : nat) : list (nat * str) :=
  match fuel with
  | O => []
  | S f =>
      if p <=? length text then
        match match_pronoun_at text p with
        | Some len => (p, slice text p (p + len)) :: finditer_pronouns f text (p + len)
        | None => finditer_pronouns f text (S p)
        end
      else []
  end.

(** Step 4, as in src/make_analysis.py: the first sentence containing the
    offset ends the search; it is appended when not yet seen. *)
Fixpoint attribute_make (sentences : list (str * nat * nat)) (m : nat)
    (seen : list str) : list str :=
  match sentences with
  | [] => seen
  | (s, a, b) :: r =>
      if (a <=? m) && (m <? b) then
        (if existsb (str_eqb s) seen then seen else seen ++ [s])
      else attribute_make r m seen
  end.

(** Step 4, as in src/modular/article_processor.py: the search ends only
    when a containing sentence not yet seen is appended. *)
Fixpoint attribute_modular (sentences : list (str * nat * nat)) (m : nat)
    (seen : list str) : list str :=
  match sentences with
  | [] => seen
  | (s, a, b) :: r =>
      if (a <=? m) && (m <? b) && negb (existsb (str_eqb s) seen) then seen ++ [s]
      else attribute_modular r m seen
  end.

(** [sentences_with_pronouns] and [seen_sentences] always hold the same
    sentences, so one list stands for both. *)
Definition count_personal_pronouns_with
    (attribute : list (str * nat * nat) -> nat -> list str -> list str)
    (quote_pairs : list (char * char)) (text : str) : pronoun_report :=
  let quotes := quoted_regions_of quote_pairs text in
  let sentences := split_sentences text in
  let ms := finditer_pronouns (S (S (length text))) text 0 in
  let kept := filter (fun '(p, _) => negb (is_in_quotes quotes p)) ms in
  let swp := fold_left (fun acc '(p, _) => attribute sentences p acc) kept [] in
  {| count := length kept;
     found_pronouns := map snd kept;
     quoted_regions := quotes;
     sentences_with_pronouns := swp;
     flag := 0 <? length kept |}.

End Pronouns.

Module MakeAnalysis.
(** [quote_pairs] of src/make_analysis.py: ["] -> ["], U+201C -> U+201D,
    U+2018 -> U+2019. *)
Definition quote_pairs : list (char * char) := [(34, 34); (8220, 8221); (8216, 8217)]%Z.
Definition count_personal_pronouns (is_alnum : Z -> bool) (text : str) : pronoun_report :=
  count_personal_pronouns_with is_alnum (attribute_make) quote_pairs text.
End MakeAnalysis.

Module ArticleProcessor.
(** [quote_pairs] of src/modular/article_processor.py: ["] -> ["], ['] -> [']. *)
Definition quote_pairs : list (char * char) := [(34, 34); (39, 39)]%Z.
Definition count_personal_pronouns (is_alnum : Z -> bool) (text : str) : pronoun_report :=
  count_personal_pronouns_with is_alnum (attribute_modular) quote_pairs text.
End ArticleProcessor.


(* ------------------------------------------------------------------ *)
(** ** [json.loads] (CPython's C scanner, [_json.c], and [json.decoder]) *)

Module Json.

Inductive json :=
| JNull
| JBool (b : bool)
| JNum (is_float : bool) (lexeme : str)
| JConst (name : str)            (* NaN, Infinity, -Infinity *)
| JStr (s : str)
| JArr (items : list json)
| JObj (members : list (str * json)).

Definition char_is (s : str) (i : nat) (c : char) : bool :=
  match nth_error s i with Some d => Z.eqb d c | None => false end.

Definition is_json_ws (c : char) : bool := ((c =? 32) || (c =? 9) || (c =? 10) || (c =? 13))%Z.

Fixpoint count_while (p : char -> bool) (l : str) : nat :=
  match l with [] => O | c :: r => if p c then S (count_while p r) else O end.

(** [WHITESPACE.match(s, i).end()] and the C loops
    [while (idx <= end_idx && IS_WHITESPACE(s[idx])) idx++]. *)
Definition skip_ws (s : str) (i : nat) : nat := i + count_while is_json_ws (skipn i s).

Definition is_ascii_digit (c : char) : bool := ((48 <=? c) && (c <=? 57))%Z.

Definition digit_at (s : str) (i : nat) : bool :=
  match nth_error s i with Some c => is_ascii_digit c | None => false end.

Definition digits_end (s : str) (i : nat) : nat := i + count_while is_ascii_digit (skipn i s).

Definition expecting_value (i : nat) : exc := JSONDecodeError "Expecting value" i.

(** [_match_number_unicode]; an integer literal of more than 4300 digits
    makes [int()] raise [ValueError] (the default digit limit). *)
Definition match_number (s : str) (start : nat) : (json * nat) + exc :=
  let end_idx := length s - 1 in
  let neg := char_is s start 45%Z in
  let idx0 := if neg then S start else start in
  if end_idx <? idx0 then inr (expecting_value start) else
  let c := nth_error s idx0 in
  let idx1 :=
    match c with
    | Some c => if ((49 <=? c) && (c <=? 57))%Z then Some (digits_end s (S idx0))
                else if Z.eqb c 48 then Some (S idx0) else None
    | None => None
    end in
  match idx1 with
  | None => inr (expecting_value start)
  | Some idx1 =>
      let '(is_float1, idx2) :=
        if (idx1 <? end_idx) && char_is s idx1 46%Z && digit_at s (S idx1)
        then (true, digits_end s (idx1 + 2)) else (false, idx1) in
      let '(is_float, idx3) :=
        if (idx2 <? end_idx) && (char_is s idx2 101%Z || char_is s idx2 69%Z) then
          let i := S idx2 in
          let i' := if (i <? end_idx) && (char_is s i 45%Z || char_is s i 43%Z) then S i else i in
          let i'' := digits_end s i' in
          if digit_at s (i'' - 1) then (true, i'') else (is_float1, idx2)
        else (is_float1, idx2) in
      let numstr := slice s start idx3 in
      if is_float then inl (JNum true numstr, idx3)
      else if 4300 <? (if neg then length numstr - 1 else length numstr)
      then inr ValueError
      else inl (JNum false numstr, idx3)
  end.

(** First index [>= i] holding a quote or a backslash, or the position of a
    control character met before it (strict mode). *)
Inductive chunk := ChunkAt (n : nat) (c : char) | ChunkCtrl (n : nat) | ChunkNone.

Fixpoint chunk_end (l : str) (i : nat) : chunk :=
  match l with
  | [] => ChunkNone
  | d :: r =>
      if (Z.eqb d 34 || Z.eqb d 92)%Z then ChunkAt i d
      else if (d <=? 31)%Z then ChunkCtrl i
      else chunk_end r (S i)
  end.

Definition hex_val (c : char) : option Z :=
  if ((48 <=? c) && (c <=? 57))%Z then Some (c - 48)%Z
  else if ((97 <=? c) && (c <=? 102))%Z then Some (c - 87)%Z
  else if ((65 <=? c) && (c <=? 70))%Z then Some (c - 55)%Z
  else None.

(** Four hex digits at [i .. i+3]. *)
Definition hex4 (s : str) (i : nat) : option Z :=
  match map hex_val (firstn 4 (skipn i s)) with
  | [Some a; Some b; Some c; Some d] => Some (a * 4096 + b * 256 + c * 16 + d)%Z
  | _ => None
  end.

Definition simple_escape (c : char) : option char :=
  if (Z.eqb c 34 || Z.eqb c 92 || Z.eqb c 47)%Z then Some c
  else if Z.eqb c 98 then Some 8%Z
  else if Z.eqb c 102 then Some 12%Z
  else if Z.eqb c 110 then Some 10%Z
  else if Z.eqb c 114 then Some 13%Z
  else if Z.eqb c 116 then Some 9%Z
  else None.

(** [scanstring_unicode(pystr, end, strict=True)]: [e] is the index after
    the opening quote at [begin]; returns the decoded string and the index
    after the closing quote. *)
Fixpoint scanstring_loop (fuel : nat) (s : str) (begin e : nat) (acc : str)
    : (str * nat) + exc :=
  match fuel with
  | O => inr (JSONDecodeError "Unterminated string starting at" begin)
  | S f =>
      match chunk_end (skipn e s) e with
      | ChunkNone => inr (JSONDecodeError "Unterminated string starting at" begin)
      | ChunkCtrl n => inr (JSONDecodeError "Invalid control character at" n)
      | ChunkAt n c =>
          let acc := acc ++ slice s e n in
          let next := S n in
          if Z.eqb c 34 then inl (acc, next)
          else
            match nth_error s next with
            | None => inr (JSONDecodeError "Unterminated string starting at" begin)
            | Some esc =>
                if Z.eqb esc 117 then
                  let next := S next in
                  let e4 := next + 4 in
                  if length s <=? e4 then inr (JSONDecodeError "Invalid \uXXXX escape" (next - 1))
                  else
                    match hex4 s next with
                    | None => inr (JSONDecodeError "Invalid \uXXXX escape" (e4 - 5))
                    | Some c1 =>
                        if ((55296 <=? c1) && (c1 <=? 56319))%Z && (e4 + 6 <? length s)
                           && char_is s e4 92%Z && char_is s (S e4) 117%Z then
                          match hex4 s (e4 + 2) with
                          | None => inr (JSONDecodeError "Invalid \uXXXX escape" (e4 + 1))
                          | Some c2 =>
                              if ((56320 <=? c2) && (c2 <=? 57343))%Z then
                                scanstring_loop f s begin (e4 + 6)
                                  (acc ++ [(65536 + (c1 - 55296) * 1024 + (c2 - 56320))%Z])
                              else scanstring_loop f s begin e4 (acc ++ [c1])
                          end
                        else scanstring_loop f s begin e4 (acc ++ [c1])
                    end
                else
                  match simple_escape esc with
                  | Some d => scanstring_loop f s begin (S next) (acc ++ [d])
                  | None => inr (JSONDecodeError "Invalid \escape" (S next - 2))
                  end
            end
      end
  end.

Definition scanstring (s : str) (e : nat) : (str * nat) + exc :=
  scanstring_loop (S (length s)) s (e - 1) e [].

(** [d[key] = value] on an insertion-ordered dict. *)
Fixpoint dict_set (d : list (str * json)) (k : str) (v : json) : list (str * json) :=
  match d with
  | [] => [(k, v)]
  | (k', v') :: r => if str_eqb k k' then (k', v) :: r else (k', v') :: dict_set r k v
  end.

(** [d.get(key)]: [None] when the key is absent. *)
Fixpoint dict_get (d : list (str * json)) (k : str) : option json :=
  match d with
  | [] => None
  | (k', v) :: r => if str_eqb k k' then Some v else dict_get r k
  end.

(** [scan_once_unicode] with [_parse_object_unicode] and
    [_parse_array_unicode].  [fuel] bounds the nesting of calls; the
    recursion limit of the C code (a [RecursionError] on very deep
    nesting) is not modelled. *)
Fixpoint scan_once (fuel : nat) (s : str) (idx : nat) {struct fuel} : (json * nat) + exc :=
  match fuel with
  | O => inr (expecting_value idx)
  | S f =>
      match nth_error s idx with
      | None => inr (expecting_value idx)
      | Some c =>
          if Z.eqb c 34 then
            match scanstring s (S idx) with
            | inl (v, i) => inl (JStr v, i)
            | inr e => inr e
            end
          else if Z.eqb c 123 then
            let i := skip_ws s (S idx) in
            if char_is s i 125%Z then inl (JObj [], S i) else parse_members f s i []
          else if Z.eqb c 91 then
            let i := skip_ws s (S idx) in
            if char_is s i 93%Z then inl (JArr [], S i) else parse_items f s i []
          else if Z.eqb c 110 && is_prefix (s2l "null") (skipn idx s) then inl (JNull, idx + 4)
          else if Z.eqb c 116 && is_prefix (s2l "true") (skipn idx s) then inl (JBool true, idx + 4)
          else if Z.eqb c 102 && is_prefix (s2l "false") (skipn idx s) then inl (JBool false, idx + 5)
          else if Z.eqb c 78 && is_prefix (s2l "NaN") (skipn idx s) then inl (JConst (s2l "NaN"), idx + 3)
          else if Z.eqb c 73 && is_prefix (s2l "Infinity") (skipn idx s)
          then inl (JConst (s2l "Infinity"), idx + 8)
          else if Z.eqb c 45 && is_prefix (s2l "-Infinity") (skipn idx s)
          then inl (JConst (s2l "-Infinity"), idx + 9)
          else match_number s idx
      end
  end
with parse_members (fuel : nat) (s : str) (idx : nat) (acc : list (str * json))
    {struct fuel} : (json * nat) + exc :=
  match fuel with
  | O => inr (expecting_value idx)
  | S f =>
      if char_is s idx 34%Z then
        match scanstring s (S idx) with
        | inr e => inr e
        | inl (key, i1) =>
            let i2 := skip_ws s i1 in
            if char_is s i2 58%Z then
              match scan_once f s (skip_ws s (S i2)) with
              | inr e => inr e
              | inl (v, i4) =>
                  let i5 := skip_ws s i4 in
                  let acc' := dict_set acc key v in
                  if char_is s i5 125%Z then inl (JObj acc', S i5)
                  else if char_is s i5 44%Z then parse_members f s (skip_ws s (S i5)) acc'
                  else inr (JSONDecodeError "Expecting ',' delimiter" i5)
              end
            else inr (JSONDecodeError "Expecting ':' delimiter" i2)
        end
      else inr (JSONDecodeError "Expecting property name enclosed in double quotes" idx)
  end
with parse_items (fuel : nat) (s : str) (idx : nat) (acc : list json)
    {struct fuel} : (json * nat) + exc :=
  match fuel with
  | O => inr (expecting_value idx)
  | S f =>
      match scan_once f s idx with
      | inr e => inr e
      | inl (v, i1) =>
          let i2 := skip_ws s i1 in
          if char_is s i2 93%Z then inl (JArr (acc ++ [v]), S i2)
          else if char_is s i2 44%Z then parse_items f s (skip_ws s (S i2)) (acc ++ [v])
          else inr (JSONDecodeError "Expecting ',' delimiter" i2)
      end
  end.

(** [json.loads(s)] for a [str]: BOM check, then [JSONDecoder.decode]. *)
Definition json_loads (s : str) : json + exc :=
  match s with
  | c :: _ =>
      if Z.eqb c 65279 then inr (JSONDecodeError "Unexpected UTF-8 BOM (decode using utf-8-sig)" 0)
      else
        match scan_once (2 * length s + 2) s (skip_ws s 0) with
        | inr e => inr e
        | inl (v, e) =>
            let e' := skip_ws s e in
            if e' =? length s then inl v else inr (JSONDecodeError "Extra data" e')
        end
  | [] => inr (expecting_value 0)
  end.

End Json.

Import Json.

(* ------------------------------------------------------------------ *)
(** ** [clean_content] (src/helper.py, src/modular/article_processor.py) *)

Module Clean.

(** Rest after the first [']'], provided no newline comes before it: the
    end of a match of [.*?\]] ([.] does not match a newline). *)
Fixpoint upto_close (l : str) : option str :=
  match l with
  | [] => None
  | c :: r => if Z.eqb c 93 then Some r else if Z.eqb c 10 then None else upto_close r
  end.

(** [re.sub(r'\[CONTENT IMAGE:.*?\]', '', content)]; [fuel] bounds the
    number of scanning steps (the text shrinks at each one). *)
Fixpoint sub_image (fuel : nat) (l : str) : str :=
  match fuel with
  | O => l
  | S f =>
      match l with
      | [] => []
      | c :: r =>
          if is_prefix (s2l "[CONTENT IMAGE:") l then
            match upto_close (skipn 15 l) with
            | Some rest => sub_image f rest
            | None => c :: sub_image f r
            end
          else c :: sub_image f r
      end
  end.

(** The end of [\S+] (greedy, at least one character). *)
Definition nonspace_run (l : str) : option str :=
  match l with
  | c :: r => if isspace c then None else Some (skipn (count_while (fun d => negb (isspace d)) r) r)
  | [] => None
  end.

(** Rest after a match of [Source:\s*https?://\S+] at the head of [l]. *)
Definition match_source (l : str) : option str :=
  if is_prefix (s2l "Source:") l then
    let l1 := skipn 7 l in
    let l2 := skipn (count_while isspace l1) l1 in
    if is_prefix (s2l "https://") l2 then nonspace_run (skipn 8 l2)
    else if is_prefix (s2l "http://") l2 then nonspace_run (skipn 7 l2)
    else None
  else None.

(** [re.sub(r'Source:\s*https?://\S+', '', content)]. *)
Fixpoint sub_source (fuel : nat) (l : str) : str :=
  match fuel with
  | O => l
  | S f =>
      match l with
      | [] => []
      | c :: r =>
          match match_source l with
          | Some rest => sub_source f rest
          | None => c :: sub_source f r
          end
      end
  end.

(** [re.sub(r'H2:\s*', '## ', content)]. *)
Fixpoint sub_h2 (fuel : nat) (l : str) : str :=
  match fuel with
  | O => l
  | S f =>
      match l with
      | [] => []
      | c :: r =>
          if is_prefix (s2l "H2:") l then
            let l1 := skipn 3 l in
            s2l "## " ++ sub_h2 f (skipn (count_while isspace l1) l1)
          else c :: sub_h2 f r
      end
  end.

(** [re.sub(r'\n{3,}', '\n\n', content)]: a maximal run of [k] newlines
    is kept when [k < 3] and becomes two newlines otherwise; [k] counts the
    newlines of the run read so far. *)
Definition collapse (k : nat) : nat := if 3 <=? k then 2 else k.

Fixpoint sub_newlines_aux (k : nat) (l : str) : str :=
  match l with
  | [] => repeat 10%Z (collapse k)
  | c :: r =>
      if Z.eqb c 10 then sub_newlines_aux (S k) r
      else repeat 10%Z (collapse k) ++ c :: sub_newlines_aux 0 r
  end.

Definition sub_newlines (l : str) : str := sub_newlines_aux 0 l.

(** [re.sub(r'\n\s*\n', '\n\n', content)]: a match starts at the first
    newline of a maximal whitespace run and, [\s*] being greedy, ends at the
    last newline of that run; a run with fewer than two newlines is left
    alone.  [run] is the whitespace read so far. *)
Definition count_nl (run : str) : nat := length (filter (fun c => Z.eqb c 10) run).

Definition flush_run (run : str) : str :=
  if 2 <=? count_nl run then
    firstn (count_while (fun c => negb (Z.eqb c 10)) run) run ++ [10; 10]%Z
    ++ rev (firstn (count_while (fun c => negb (Z.eqb c 10)) (rev run)) (rev run))
  else run.

Fixpoint sub_blank_lines_aux (run : str) (l : str) : str :=
  match l with
  | [] => flush_run run
  | c :: r =>
      if isspace c then sub_blank_lines_aux (run ++ [c]) r
      else flush_run run ++ c :: sub_blank_lines_aux [] r
  end.

Definition sub_blank_lines (l : str) : str := sub_blank_lines_aux [] l.

(** [re.sub(r'[ \t]+', ' ', content)]: [in_run] tells whether the previous
    character was a space or a tab. *)
Definition is_sp_tab (c : char) : bool := (Z.eqb c 32 || Z.eqb c 9)%Z.

Fixpoint sub_spaces_aux (in_run : bool) (l : str) : str :=
  match l with
  | [] => []
  | c :: r =>
      if is_sp_tab c then
        (if in_run then sub_spaces_aux true r else 32%Z :: sub_spaces_aux true r)
      else c :: sub_spaces_aux false r
  end.

Definition sub_spaces (l : str) : str := sub_spaces_aux false l.

(** [re.sub(r'\[.*?\]', '', content)]. *)
Fixpoint sub_brackets (fuel : nat) (l : str) : str :=
  match fuel with
  | O => l
  | S f =>
      match l with
      | [] => []
      | c :: r =>
          if Z.eqb c 91 then
            match upto_close r with
            | Some rest => sub_brackets f rest
            | None => c :: sub_brackets f r
            end
          else c :: sub_brackets f r
      end
  end.

(** The cleaning steps of [clean_content], in the order of the source. *)
Definition clean_text (content : str) : str :=
  let c1 := sub_image (length content) content in
  let c2 := sub_source (length c1) c1 in
  let c3 := sub_h2 (length c2) c2 in
  let c4 := sub_newlines c3 in
  let c5 := sub_blank_lines c4 in
  let c6 := sub_spaces c5 in
  let c7 := sub_brackets (length c6) c6 in
  strip c7.

(** [clean_content(json_input)]: only [json.JSONDecodeError] is caught;
    [data.get] raises [AttributeError] when the JSON value is not an object,
    and [re.sub] raises [TypeError] when [content] is not a string. *)
Definition clean_content (json_input : str) : str + exc :=
  match json_loads json_input with
  | inr (JSONDecodeError _ _) => inl (clean_text json_input)
  | inr e => inr e
  | inl (JObj d) =>
      match dict_get d (s2l "content") with
      | None => inl (clean_text [])
      | Some (JStr content) => inl (clean_text content)
      | Some _ => inr TypeError
      end
  | inl _ => inr AttributeError
  end.

End Clean.

Import Clean.

(* ------------------------------------------------------------------ *)
(** ** [decimal.Decimal] under the default context (28 digits,
    ROUND_HALF_EVEN) and [CostTracker] (src/ai_analysis.py) *)

Module Dec.

Open Scope Z_scope.

(** A finite decimal [coef * 10 ^ dexp]; the sign is carried by [coef]
    (negative zero and the exponent limits Emin/Emax are not modelled). *)
Record dec := mkdec { coef : Z; dexp : Z }.

Definition prec : Z := 28.

Fixpoint digits_aux (fuel : nat) (n : Z) : Z :=
  match fuel with
  | O => 1
  | S f => if n <? 10 then 1 else 1 + digits_aux f (n / 10)
  end.

(** [len(str(n))] for [n >= 0] (the loop runs fewer than [log2 n + 1]
    times). *)
Definition ndigits (n : Z) : Z := digits_aux (Z.to_nat (Z.log2 n + 1)) n.

(** [Decimal._fix]: round to [prec] significant digits, half to even. *)
Definition fix_ (d : dec) : dec :=
  let c := Z.abs (coef d) in
  let sg := if coef d <? 0 then -1 else 1 in
  let nd := ndigits c in
  if nd <=? prec then d
  else
    let k := nd - prec in
    let q := c / 10 ^ k in
    let r := c mod 10 ^ k in
    let half := 5 * 10 ^ (k - 1) in
    let q' := if (half <? r) || ((r =? half) && Z.odd q) then q + 1 else q in
    if q' =? 10 ^ prec then mkdec (sg * 10 ^ (prec - 1)) (dexp d + k + 1)
    else mkdec (sg * q') (dexp d + k).

(** [Decimal(n)] for an [int]: exact. *)
Definition of_int (n : Z) : dec := mkdec n 0.

(** The loop of [__truediv__] for an exact quotient: drop trailing zeros
    while the exponent is below the ideal one. *)
Fixpoint strip_zeros (fuel : nat) (q e ideal : Z) : Z * Z :=
  match fuel with
  | O => (q, e)
  | S f => if (e <? ideal) && (q mod 10 =? 0) then strip_zeros f (q / 10) (e + 1) ideal
           else (q, e)
  end.

(** [a / b] ([Decimal.__truediv__]) for a nonzero [b]. *)
Definition div (a b : dec) : dec :=
  let sg := if (coef a <? 0) && (0 <? coef b) || (0 <? coef a) && (coef b <? 0) then -1 else 1 in
  if coef a =? 0 then fix_ (mkdec 0 (dexp a - dexp b))
  else
    let ca := Z.abs (coef a) in
    let cb := Z.abs (coef b) in
    let shift := ndigits cb - ndigits ca + prec + 1 in
    let e := dexp a - dexp b - shift in
    let '(q, r) := if 0 <=? shift then (ca * 10 ^ shift / cb, ca * 10 ^ shift mod cb)
                   else (ca / (cb * 10 ^ (- shift)), ca mod (cb * 10 ^ (- shift))) in
    let '(q, e) :=
      if r =? 0 then strip_zeros (Z.to_nat (dexp a - dexp b - e)) q e (dexp a - dexp b)
      else (if q mod 5 =? 0 then q + 1 else q, e) in
    fix_ (mkdec (sg * q) e).

(** [a * b] ([Decimal.__mul__]; its special cases for zero and for a
    coefficient of 1 compute the same value). *)
Definition mul (a b : dec) : dec := fix_ (mkdec (coef a * coef b) (dexp a + dexp b)).

(** [_normalize(op1, op2, prec)] on two nonzero operands, returning the two
    coefficients (with their signs) at the common exponent. *)
Definition normalize (a b : dec) : Z * Z * Z :=
  let '(tmp, other, swapped) := if dexp a <? dexp b then (b, a, true) else (a, b, false) in
  let tmp_len := ndigits (Z.abs (coef tmp)) in
  let other_len := ndigits (Z.abs (coef other)) in
  let e := dexp tmp + Z.min (-1) (tmp_len - prec - 2) in
  let other' := if other_len + dexp other - 1 <? e
                then mkdec (if coef other <? 0 then -1 else 1) e else other in
  let tmp_c := coef tmp * 10 ^ (dexp tmp - dexp other') in
  if swapped then (coef other', tmp_c, dexp other') else (tmp_c, coef other', dexp other').

(** [d._rescale(e, rounding)] for [e <= d.exp]: pad with zeros. *)
Definition rescale_down (d : dec) (e : Z) : dec := mkdec (coef d * 10 ^ (dexp d - e)) e.

(** [a + b] ([Decimal.__add__]). *)
Definition add (a b : dec) : dec :=
  let e := Z.min (dexp a) (dexp b) in
  if (coef a =? 0) && (coef b =? 0) then fix_ (mkdec 0 e)
  else if coef a =? 0 then fix_ (rescale_down b (Z.max e (dexp b - prec - 1)))
  else if coef b =? 0 then fix_ (rescale_down a (Z.max e (dexp a - prec - 1)))
  else
    let '(c1, c2, e') := normalize a b in
    fix_ (mkdec (c1 + c2) e').

Record tracker := { cost : dec; input_tokens : Z; output_tokens : Z }.

(** [CostTracker.__init__]: [Decimal('0.00')] and two zero counters. *)
Definition init : tracker := {| cost := mkdec 0 (-2); input_tokens := 0; output_tokens := 0 |}.

(** [reset] re-runs [__init__]. *)
Definition reset (t : tracker) : tracker := init.

(** [add_usage(input_tokens, output_tokens)]. *)
Definition add_usage (t : tracker) (i o : Z) : tracker :=
  let input_cost := mul (div (of_int i) (mkdec 1000000 0)) (mkdec 300 (-2)) in
  let output_cost := mul (div (of_int o) (mkdec 1000000 0)) (mkdec 1500 (-2)) in
  {| cost := add (cost t) (add input_cost output_cost);
     input_tokens := input_tokens t + i;
     output_tokens := output_tokens t + o |}.

(** The value of [d] in units of 10^-8 (for [dexp d >= -8]). *)
Definition scaled8 (d : dec) : Z := coef d * 10 ^ (dexp d + 8).

Close Scope Z_scope.

End Dec.

(* ------------------------------------------------------------------ *)
(** ** [make_api_call] (src/ai_analysis.py) *)

Module ApiCall.

Import Dec.

(** A reply of [client.messages.create]: [response.content[0].text] and
    [response.usage.output_tokens]. *)
Record response := { resp_text : str; resp_output_tokens : Z }.

(** What the external service does on one attempt: the result of
    [client.beta.messages.count_tokens] (its [input_tokens]) and of
    [client.messages.create], each a value or a raised exception. *)
Record attempt := { count_tokens_result : Z + exc; create_result : response + exc }.

(** The service, as the behaviour of its [n]-th attempt. *)
Definition service := nat -> attempt.

Inductive outcome := Returned (v : option json) | Raised (e : exc).

(** The body of the [try]: on failure, the exception and the value of the
    local [response] (a Python local keeps its value across iterations). *)
Definition try_body (a : attempt) (response : option response) (t : tracker)
    : (json * tracker) + (exc * option ApiCall.response * tracker) :=
  match count_tokens_result a with
  | inr e => inr (e, response, t)
  | inl input_tokens =>
      match create_result a with
      | inr e => inr (e, response, t)
      | inl r =>
          let t' := add_usage t input_tokens (resp_output_tokens r) in
          match json_loads (resp_text r) with
          | inl v => inl (v, t')
          | inr e => inr (e, Some r, t')
          end
      end
  end.

(** The [while retries <= max_retries] loop.  In the [except] branch,
    [print(json.loads(response.content[0].text))] runs first: it raises
    [UnboundLocalError] when [response] was never assigned, and re-raises
    the parse error when the last reply is not JSON. *)
Fixpoint api_loop (fuel : nat) (svc : service) (max_retries retries : nat)
    (response : option ApiCall.response) (t : tracker) : outcome * tracker :=
  match fuel with
  | O => (Returned None, t)
  | S f =>
      if retries <=? max_retries then
        match try_body (svc retries) response t with
        | inl (v, t') => (Returned (Some v), t')
        | inr (_, resp, t') =>
            let retries := S retries in
            match resp with
            | None => (Raised UnboundLocalError, t')
            | Some r =>
                match json_loads (resp_text r) with
                | inr e2 => (Raised e2, t')
                | inl _ =>
                    if max_retries <? retries then (Returned None, t')
                    else api_loop f svc max_retries retries resp t'
                end
            end
        end
      else (Returned None, t)
  end.

(** [make_api_call(formatted_prompt, system_prompt, max_retries)] against
    the module-level [cost_tracker] [t]; the prompts only reach [svc]. *)
Definition make_api_call (svc : service) (max_retries : nat) (t : tracker) : outcome * tracker :=
  api_loop (S (S max_retries)) svc max_retries 0 None t.

End ApiCall.

(* ------------------------------------------------------------------ *)
(** ** [BlogAnalyzer.analyze_content] (src/ai.py) *)

Module Analyzer.

Record AnalysisResult := { success : bool; result : option str; error : option str }.

Section Analyze.

(** [self.categories] ([CATEGORIES] of the [static] configuration module). *)
Variable categories : list str.
(** [str()] of a parsed JSON value, as the f-strings format it. *)
Variable py_str : json -> str.
(** [str(e)] of an exception. *)
Variable exc_str : exc -> str.

(** [value not in self.categories] compares with [==]: only a JSON string
    can equal one of the configured (string) categories. *)
Definition category_in (v : json) : bool :=
  match v with
  | JStr s => existsb (str_eqb s) categories
  | _ => false
  end.

Definition failed (e : exc) : AnalysisResult :=
  {| success := false; result := Some (exc_str e);
     error := Some (s2l "Analysis failed: " ++ exc_str e) |}.

(** Python's [str in str] (substring test). *)
Fixpoint contains (needle hay : str) : bool :=
  is_prefix needle hay || match hay with [] => false | _ :: r => contains needle r end.

(** The categorization checks on the parsed reply; a [TypeError] from [in]
    or from indexing reaches the outer [except Exception]. *)
Definition check_category (result : str) (v : json) : AnalysisResult :=
  let key := s2l "category" in
  let missing := {| success := false; result := Some result;
                    error := Some (s2l "Response missing 'category' field") |} in
  let ok := {| success := true; result := Some result; error := None |} in
  match v with
  | JObj d =>
      match dict_get d key with
      | None => missing
      | Some c =>
          if category_in c then ok
          else {| success := false; result := Some result;
                  error := Some (s2l "Invalid category returned: " ++ py_str c) |}
      end
  | JArr items =>
      if existsb (fun it => match it with JStr s => str_eqb s key | _ => false end) items
      then failed TypeError else missing
  | JStr s => if contains key s then failed TypeError else missing
  | _ => failed TypeError
  end.

(** [analyze_content(content, analysis_type)]; [reply] is the outcome of
    [self.client.messages.create(...)] followed by [response.content[0].text]. *)
Definition analyze_content (reply : str + exc) (analysis_type : str) : AnalysisResult :=
  match reply with
  | inr e => failed e
  | inl raw =>
      let result := strip raw in
      if str_eqb analysis_type (s2l "categorize") then
        match json_loads result with
        | inr (JSONDecodeError m p) =>
            {| success := false; result := Some result;
               error := Some (s2l "Invalid JSON response format: " ++ exc_str (JSONDecodeError m p)) |}
        | inr e => failed e
        | inl v => check_category result v
        end
      else {| success := true; result := Some result; error := None |}
  end.

End Analyze.

End Analyzer.

(* ------------------------------------------------------------------ *)
(** ** [generate_unique_id] (src/clean_analysis.py) over
    [urllib.parse.urlparse] (CPython 3.12) *)

Module Url.

Record parse_result := { scheme : str; netloc : str; path : str; params : str;
                         query : str; fragment : str }.

Section UrlParse.

(** [str.lower()] of a whole string. *)
Variable str_lower : str -> str.
(** [str.isalnum()] of one character. *)
Variable is_alnum : Z -> bool.
(** [unicodedata.normalize('NFKC', .)]. *)
Variable nfkc : str -> str.
(** [_check_bracketed_netloc(netloc)] (IPv6 and IPvFuture literal checks
    through [ipaddress]): [true] when it raises [ValueError]. *)
Variable bracketed_netloc_invalid : str -> bool.

Definition mem (c : char) (l : str) : bool := existsb (Z.eqb c) l.

(** [_WHATWG_C0_CONTROL_OR_SPACE]: code points 0 to 32. *)
Definition is_c0_or_space (c : char) : bool := ((0 <=? c) && (c <=? 32))%Z.

Fixpoint lstrip_c0 (l : str) : str :=
  match l with [] => [] | c :: r => if is_c0_or_space c then lstrip_c0 r else l end.

(** [scheme_chars]: ASCII letters, digits and [+-.]. *)
Definition is_scheme_char (c : char) : bool := ascii_isalnum c || mem c (s2l "+-.").

Definition is_ascii_alpha (c : char) : bool :=
  (((65 <=? c) && (c <=? 90)) || ((97 <=? c) && (c <=? 122)))%Z.

(** [s.split(sep, 1)]: [None] when [sep] does not occur. *)
Definition split1 (l : str) (sep : char) : option (str * str) :=
  match find l sep 0 with
  | Some i => Some (firstn i l, skipn (S i) l)
  | None => None
  end.

(** [_splitnetloc(url, 2)]. *)
Definition splitnetloc (url : str) : str * str :=
  let delim := fold_left (fun d c => match find url c 2 with Some w => Nat.min d w | None => d end)
                 (s2l "/?#") (length url) in
  (slice url 2 delim, skipn delim url).

(** [_checknetloc(netloc)]: [true] when it raises [ValueError]. *)
Definition checknetloc_fails (netloc : str) : bool :=
  match netloc with
  | [] => false
  | _ =>
      if forallb (fun c => (c <? 128)%Z) netloc then false
      else
        let n := filter (fun c => negb (mem c (s2l "@:#?"))) netloc in
        let n2 := nfkc n in
        if str_eqb n n2 then false else existsb (fun c => mem c (s2l "/?#@:")) n2
  end.

(** The scheme test of [urlsplit]: [url[:i]] before the first [':'] is the
    scheme when it starts with a letter and has only [scheme_chars]. *)
Definition split_scheme (url1 : str) : str * str :=
  match find url1 58%Z 0 with
  | Some (S _ as i) =>
      match url1 with
      | c0 :: _ =>
          if is_ascii_alpha c0 && forallb is_scheme_char (firstn i url1)
          then (map ascii_lower (firstn i url1), skipn (S i) url1) else ([], url1)
      | [] => ([], url1)
      end
  | _ => ([], url1)
  end.

(** The netloc part of [urlsplit], with its bracket checks. *)
Definition split_netloc (url2 : str) : (str * str) + exc :=
  if str_eqb (firstn 2 url2) (s2l "//") then
    let '(netloc, rest) := splitnetloc url2 in
    if xorb (mem 91%Z netloc) (mem 93%Z netloc) then inr ValueError
    else if mem 91%Z netloc && mem 93%Z netloc && bracketed_netloc_invalid netloc
    then inr ValueError
    else inl (netloc, rest)
  else inl ([], url2).

(** [url.split('#', 1)] then [url.split('?', 1)]: (path, query, fragment). *)
Definition split_query_fragment (url3 : str) : str * str * str :=
  let '(url4, fragment) := match split1 url3 35%Z with Some p => p | None => (url3, []) end in
  let '(url5, query) := match split1 url4 63%Z with Some p => p | None => (url4, []) end in
  (url5, query, fragment).

(** [urlsplit(url)]; the result is (scheme, netloc, path, query, fragment). *)
Definition urlsplit (url0 : str) : (str * str * str * str * str) + exc :=
  let url1 := filter (fun c => negb (mem c [9; 13; 10]%Z)) (lstrip_c0 url0) in
  let '(scheme, url2) := split_scheme url1 in
  match split_netloc url2 with
  | inr e => inr e
  | inl (netloc, url3) =>
      let '(url5, query, fragment) := split_query_fragment url3 in
      if checknetloc_fails netloc then inr ValueError
      else inl (scheme, netloc, url5, query, fragment)
  end.

Definition uses_params : list str :=
  [s2l ""; s2l "ftp"; s2l "hdl"; s2l "prospero"; s2l "http"; s2l "imap"; s2l "https";
   s2l "shttp"; s2l "rtsp"; s2l "rtspu"; s2l "sip"; s2l "sips"; s2l "mms"; s2l "sftp"; s2l "tel"].

Fixpoint rfind_aux (c : char) (l : str) (i : nat) (best : option nat) : option nat :=
  match l with
  | [] => best
  | d :: r => rfind_aux c r (S i) (if Z.eqb c d then Some i else best)
  end.

(** [_splitparams(url)], called when [';' in url]. *)
Definition splitparams (url : str) : str * str :=
  let i := if mem 47%Z url then
             find url 59%Z (match rfind_aux 47%Z url 0 None with Some j => j | None => 0 end)
           else find url 59%Z 0 in
  match i with
  | Some i => (firstn i url, skipn (S i) url)
  | None => (url, [])
  end.

(** [urlparse(url)]. *)
Definition urlparse (url : str) : parse_result + exc :=
  match urlsplit url with
  | inr e => inr e
  | inl (scheme, netloc, u, query, fragment) =>
      let '(u', params) :=
        if existsb (str_eqb scheme) uses_params && mem 59%Z u then splitparams u else (u, []) in
      inl {| scheme := scheme; netloc := netloc; path := u'; params := params;
             query := query; fragment := fragment |}
  end.

(** [generate_unique_id(url)]. *)
Definition generate_unique_id (url : str) : str + exc :=
  match urlparse url with
  | inr e => inr e
  | inl parsed => inl (filter is_alnum (str_lower (netloc parsed ++ path parsed)))
  end.

End UrlParse.

End Url.

Module Words.

(** [str.split()] without a separator (CPython's [split_whitespace]): skip
    a run of whitespace, then take the maximal run of other characters as
    the next word.  [fuel] bounds the number of words. *)
Fixpoint split_ws (fuel : nat) (l : str) : list str :=
  match fuel with
  | O => []
  | S f =>
      let l1 := skipn (count_while isspace l) l in
      match l1 with
      | [] => []
      | _ :: _ =>
          let n := count_while (fun c => negb (isspace c)) l1 in
          firstn n l1 :: split_ws f (skipn n l1)
      end
  end.

Definition split (l : str) : list str := split_ws (length l) l.

(** [calculate_word_count(content)] (src/modular/article_processor.py):
    [len(clean_content(content).split())]; the exceptions of
    [clean_content] propagate. *)
Definition calculate_word_count (content : str) : nat + exc :=
  match clean_content content with
  | inl t => inl (length (split t))
  | inr e => inr e
  end.

End Words.

Module Dates.

Section ParseDate.

(** [unicodedata.decimal]: the value of a Unicode decimal digit.  These are
    the characters [\d] matches in a [str] pattern, and [int()] reads them
    with this value. *)
Variable decimal : Z -> option Z.

Local Open Scope Z_scope.

Definition in_range (c lo hi : Z) : bool := (lo <=? c) && (c <=? hi).

(** [(?P<Y>\d\d\d\d)], with [int(found_dict['Y'])]. *)
Definition match_Y (l : str) : option (Z * str) :=
  match l with
  | a :: b :: c :: d :: r =>
      match decimal a, decimal b, decimal c, decimal d with
      | Some va, Some vb, Some vc, Some vd => Some (((va * 10 + vb) * 10 + vc) * 10 + vd, r)
      | _, _, _, _ => None
      end
  | _ => None
  end.

(** [(?P<m>1[0-2]|0[1-9]|[1-9])]: the alternatives that match at the head
    of [l], in the order the regex tries them, each with [int()] of the
    group and the rest of the text. *)
Definition m_alts (l : str) : list (Z * str) :=
  (match l with
   | a :: c :: r => if (a =? 49) && in_range c 48 50 then [(10 + (c - 48), r)] else []
   | _ => [] end)
  ++ (match l with
      | a :: c :: r => if (a =? 48) && in_range c 49 57 then [(c - 48, r)] else []
      | _ => [] end)
  ++ (match l with
      | c :: r => if in_range c 49 57 then [(c - 48, r)] else []
      | _ => [] end).

(** [(?P<d>3[0-1]|[1-2]\d|0[1-9]|[1-9]| [1-9])], likewise; [int(' 5')] is 5. *)
Definition d_alts (l : str) : list (Z * str) :=
  (match l with
   | a :: c :: r => if (a =? 51) && in_range c 48 49 then [(30 + (c - 48), r)] else []
   | _ => [] end)
  ++ (match l with
      | a :: c :: r =>
          if in_range a 49 50 then
            match decimal c with Some v => [((a - 48) * 10 + v, r)] | None => [] end
          else []
      | _ => [] end)
  ++ (match l with
      | a :: c :: r => if (a =? 48) && in_range c 49 57 then [(c - 48, r)] else []
      | _ => [] end)
  ++ (match l with
      | c :: r => if in_range c 49 57 then [(c - 48, r)] else []
      | _ => [] end)
  ++ (match l with
      | a :: c :: r => if (a =? 32) && in_range c 49 57 then [(c - 48, r)] else []
      | _ => [] end).

Fixpoint first_some {A B : Type} (g : A -> option B) (l : list A) : option B :=
  match l with
  | [] => None
  | x :: r => match g x with Some v => Some v | None => first_some g r end
  end.

(** [format_regex.match(data_string)] for the format ['%Y-%m-%d']: the
    year, a hyphen, the month (backtracking over its alternatives when no
    hyphen follows), a hyphen and the first alternative of the day that
    matches; the match need not reach the end of the text. *)
Definition rx_match (s : str) : option (Z * Z * Z * str) :=
  match match_Y s with
  | Some (y, h :: r) =>
      if h =? 45 then
        first_some (fun mr =>
          match snd mr with
          | h2 :: r4 =>
              if h2 =? 45 then
                match d_alts r4 with
                | (d, r5) :: _ => Some (y, fst mr, d, r5)
                | [] => None
                end
              else None
          | [] => None
          end) (m_alts r)
      else None
  | _ => None
  end.

Definition is_leap (y : Z) : bool :=
  (y mod 4 =? 0) && (negb (y mod 100 =? 0) || (y mod 400 =? 0)).

Definition days_in_month (y m : Z) : Z :=
  if m =? 2 then (if is_leap y then 29 else 28)
  else if (m =? 4) || (m =? 6) || (m =? 9) || (m =? 11) then 30 else 31.

(** The checks of [datetime.date(year, month, day)] ([MINYEAR] is 1,
    [MAXYEAR] 9999). *)
Definition valid_date (y m d : Z) : bool :=
  (1 <=? y) && (y <=? 9999) && (1 <=? m) && (m <=? 12) && (1 <=? d) && (d <=? days_in_month y m).

(** [datetime.strptime(s, '%Y-%m-%d')]: [None] for its [ValueError]s (no
    match, unconverted data remains, or a day out of range). *)
Definition strptime_ymd (s : str) : option (Z * Z * Z) :=
  match rx_match s with
  | Some (y, m, d, []) => if valid_date y m d then Some (y, m, d) else None
  | _ => None
  end.

(** Decimal digits of [n], prepended to [acc]. *)
Fixpoint dec_digits (fuel : nat) (n : Z) (acc : str) : str :=
  match fuel with
  | O => acc
  | S f => if n <? 10 then (48 + n) :: acc else dec_digits f (n / 10) ((48 + n mod 10) :: acc)
  end.

(** [%Y] of [strftime] (the C library's, glibc): the year in decimal, with
    no padding; a [datetime] year has at most four digits. *)
Definition fmt_Y (y : Z) : str := dec_digits 4 y [].

(** [%m] and [%d]: two digits, zero-padded. *)
Definition pad2 (n : Z) : str := if n <? 10 then [48; 48 + n] else dec_digits 2 n [].

(** [.strftime('%Y-%m-%d')]. *)
Definition fmt_date (y m d : Z) : str := fmt_Y y ++ [45] ++ pad2 m ++ [45] ++ pad2 d.

(** [date_str.split('T')[0]]. *)
Definition before_T (l : str) : str := firstn (count_while (fun c => negb (c =? 84)) l) l.

(** [parse_date(date_str)] (src/modular/article_processor.py); [None]
    stands for Python's [None] (the caller passes
    [basic_info.get('publication_date')]), and both it and [''] are falsy. *)
Definition parse_date (date_str : option str) : str :=
  match date_str with
  | Some ((_ :: _) as s) =>
      match strptime_ymd (before_T s) with
      | Some (y, m, d) => fmt_date y m d
      | None => s2l "No Date"
      end
  | _ => s2l "No Date"
  end.

End ParseDate.

End Dates.

Module UseCase.
Section UseCase.
(** [preSorted] of the [static] module (not in the repository): a dict
    from URLs to use cases. *)
Variable preSorted : list (str * json).

(** [get_use_case(url)] (src/clean_analysis.py). *)
Definition get_use_case (url : str) : option json :=
  let normalized_url := strip url in
  dict_get preSorted normalized_url.
End UseCase.
End UseCase.

Module Seo.
(** A Python [int] as loaded from JSON: its decimal lexeme. *)
Fixpoint int_digits (fuel : nat) (n : nat) (acc : str) : str :=
  match fuel with
  | O => acc
  | S f =>
      if Nat.ltb n 10 then (48 + Z.of_nat n)%Z :: acc
      else int_digits f (n / 10) ((48 + Z.of_nat (n mod 10))%Z :: acc)
  end.
Definition py_int (n : nat) : json := JNum false (int_digits (S n) n []).

(** [v.get(k, default)]: defined on dicts only; any other value has no
    [get] attribute. *)
Definition py_get (v : json) (k : str) (default : json) : json + exc :=
  match v with
  | JObj d => inl (match dict_get d k with Some x => x | None => default end)
  | _ => inr AttributeError
  end.

Definition bind {A B} (m : A + exc) (f : A -> B + exc) : B + exc :=
  match m with inl a => f a | inr e => inr e end.

(** [format_seo_data(basic_info, seo_analysis, target_keyword)]
    (src/modular/article_processor.py): the dict display is evaluated
    entry by entry, left to right. *)
Definition format_seo_data (basic_info seo_analysis target_keyword : json)
    : list (str * json) + exc :=
  bind (py_get seo_analysis (s2l "meta_description") (JObj [])) (fun md =>
  bind (py_get md (s2l "present") (JBool false)) (fun present =>
  bind (py_get seo_analysis (s2l "headings") (JObj [])) (fun hd1 =>
  bind (py_get hd1 (s2l "h1_present") (JBool false)) (fun h1 =>
  bind (py_get seo_analysis (s2l "headings") (JObj [])) (fun hd2 =>
  bind (py_get hd2 (s2l "h2_count") (py_int 0)) (fun h2 =>
  bind (py_get seo_analysis (s2l "h3_count") (py_int 0)) (fun h3 =>
  inl [(s2l "current_target_keyword", target_keyword);
       (s2l "meta_description_present", present);
       (s2l "h1_present", h1);
       (s2l "h2_count", h2);
       (s2l "h3_count", h3)]))))))).

(** [WebScraper.get_seo_analysis(soup)] (src/scrape_blog.py), as the
    dict it returns: [meta] is the [content] attribute of the
    description meta tag when one is found, [h1], [h2], [h3] the numbers
    of heading tags.  The two inner dicts are fresh literals, so the
    assignments through [seo_analysis[...]] update them in place. *)
Definition get_seo_analysis (meta : option str) (h1 h2 h3 : nat) : json :=
  let md0 := [(s2l "present", JBool false); (s2l "content", JStr [])] in
  let hd0 := [(s2l "h1_present", JBool false); (s2l "h2_count", py_int 0);
              (s2l "h3_count", py_int 0)] in
  let md := match meta with
            | Some c => dict_set (dict_set md0 (s2l "present") (JBool true)) (s2l "content") (JStr c)
            | None => md0
            end in
  let hd := dict_set (dict_set (dict_set hd0 (s2l "h1_present") (JBool (Nat.ltb 0 h1)))
              (s2l "h2_count") (py_int h2)) (s2l "h3_count") (py_int h3) in
  JObj [(s2l "meta_description", JObj md); (s2l "headings", JObj hd)].
(** Whether a value is a dict, so that [.get] is defined on it. *)
Definition is_dict (v : json) : bool := match v with JObj _ => true | _ => false end.
End Seo.

Module DeprApi.
Import Dec ApiCall.
Section DeprApi.
(** [str.isalnum] (Unicode); [\w] is it or ['_']. *)
Variable is_alnum : Z -> bool.

Local Open Scope Z_scope.

Definition is_w (c : char) : bool := is_alnum c || (c =? 95).

(** [s.replace(old, new)] for a nonempty [old]: left to right, without
    overlaps. *)
Fixpoint replace_aux (fuel : nat) (old new l : str) : str :=
  match fuel with
  | O => l
  | S f =>
      match l with
      | [] => []
      | c :: r =>
          if is_prefix old l then new ++ replace_aux f old new (skipn (length old) l)
          else c :: replace_aux f old new r
      end
  end.
Definition py_replace (l old new : str) : str := replace_aux (length l) old new l.

(** The look-ahead [(?=\s*[,}])]. *)
Definition lookahead (l : str) : bool :=
  match skipn (count_while isspace l) l with
  | c :: _ => (c =? 44) || (c =? 125)
  | [] => false
  end.

(** Group 1 of the pattern (a quote, a run of [\w] or [\s] characters, a
    quote, spaces, a colon, spaces) at the start of [l]: its length.  No
    backtracking can help: a shorter run would have to be followed by a
    character of its own class. *)
Definition match_key (l : str) : option nat :=
  match l with
  | q1 :: r =>
      if negb (q1 =? 34) then None else
      let n := count_while (fun c => is_w c || isspace c) r in
      match n with
      | O => None
      | S _ =>
          match skipn n r with
          | q2 :: r2 =>
              if negb (q2 =? 34) then None else
              let w1 := count_while isspace r2 in
              match skipn w1 r2 with
              | colon :: r3 =>
                  if colon =? 58 then Some (1 + n + 1 + w1 + 1 + count_while isspace r3)%nat
                  else None
              | [] => None
              end
          | [] => None
          end
      end
  | [] => None
  end.

(** The lazy group 2 with the closing quote and the look-ahead: the length of the shortest
    nonempty run of non-newline characters followed by a closing quote and
    the look-ahead. *)
Fixpoint find_close (l : str) : option nat :=
  match l with
  | [] => None
  | c :: r =>
      if c =? 10 then None
      else
        match r with
        | q :: r' => if (q =? 34) && lookahead r' then Some 1%nat else option_map S (find_close r)
        | [] => option_map S (find_close r)
        end
  end.

(** The pattern at the start of [l]: the lengths of group 1 and group 2. *)
Definition match_at (l : str) : option (nat * nat) :=
  match match_key l with
  | Some g1 =>
      match skipn g1 l with
      | q :: r =>
          if q =? 34 then
            match find_close r with
            | Some k => Some (g1, k)
            | None => None
            end
          else None
      | [] => None
      end
  | None => None
  end.

(** [value.replace('"', '\\"')]. *)
Definition escape_quotes (v : str) : str :=
  flat_map (fun c => if c =? 34 then [92; 34] else [c]) v.

(** [re.sub(pattern, escape_value_quotes, json_str)]. *)
Fixpoint sub_values (fuel : nat) (l : str) : str :=
  match fuel with
  | O => l
  | S f =>
      match l with
      | [] => []
      | c :: r =>
          match match_at l with
          | Some (g1, k) =>
              firstn g1 l ++ [34] ++ escape_quotes (firstn k (skipn (S g1) l)) ++ [34]
                ++ sub_values f (skipn (g1 + 1 + k + 1) l)
          | None => c :: sub_values f r
          end
      end
  end.

(** [fix_json_quotes(json_str)] (src/depr/ai_analysis.py); the two
    [replace] calls of its first step replace the straight double quote by
    itself. *)
Definition fix_json_quotes (json_str : str) : str :=
  let json_str := py_replace (py_replace json_str [34] [34]) [34] [34] in
  sub_values (length json_str) json_str.

(** [re.sub(r'```\w*\n?', '', response_text)]. *)
Fixpoint sub_fences (fuel : nat) (l : str) : str :=
  match fuel with
  | O => l
  | S f =>
      match l with
      | [] => []
      | c :: r =>
          if is_prefix [96; 96; 96] l then
            let r1 := skipn 3 l in
            let r2 := skipn (count_while is_w r1) r1 in
            let r3 := match r2 with 10 :: r3 => r3 | _ => r2 end in
            sub_fences f r3
          else c :: sub_fences f r
      end
  end.

(** The text of a reply, as the [try] body prepares it. *)
Definition response_text_of (text : str) : str :=
  let response_text := strip text in
  if is_prefix [96; 96; 96] response_text
  then strip (sub_fences (length response_text) response_text)
  else response_text.

(** The manual escaping of the fallback parse. *)
Definition manual_escape (response_text : str) : str :=
  let fixed_json := py_replace response_text (txt "`White-Collar Mechanic`")
                      (txt "\`White-Collar Mechanic\`") in
  py_replace fixed_json (txt "`Supportive Challenger`") (txt "\`Supportive Challenger\`").

Close Scope Z_scope.

(** The [while retries <= max_retries] loop of [make_api_call]
    (src/depr/ai_analysis.py).  A failure of the fallback parse
    increments [retries], re-raises when the retries are exhausted, and the
    outer [except Exception] increments it again and returns [None]. *)
Fixpoint depr_loop (fuel : nat) (svc : service) (max_retries retries : nat) (t : tracker)
    : option json * tracker :=
  match fuel with
  | O => (None, t)
  | S f =>
      let outer_except (retries : nat) :=
        let retries := S retries in
        if max_retries <? retries then (None, t) else depr_loop f svc max_retries retries t in
      if retries <=? max_retries then
        let a := svc retries in
        match count_tokens_result a with
        | inr _ => outer_except retries
        | inl input_tokens =>
            match create_result a with
            | inr _ => outer_except retries
            | inl response =>
                let response_text := response_text_of (resp_text response) in
                let fixed_json := fix_json_quotes response_text in
                match json_loads fixed_json with
                | inl parsed => (Some parsed, add_usage t input_tokens (resp_output_tokens response))
                | inr (JSONDecodeError _ _) =>
                    match json_loads (manual_escape response_text) with
                    | inl parsed =>
                        (Some parsed, add_usage t input_tokens (resp_output_tokens response))
                    | inr _ =>
                        let retries := S retries in
                        if max_retries <? retries then outer_except retries
                        else depr_loop f svc max_retries retries t
                    end
                | inr _ => outer_except retries
                end
            end
        end
      else (None, t)
  end.

Definition make_api_call (svc : service) (max_retries : nat) (t : tracker) : option json * tracker :=
  depr_loop (S max_retries) svc max_retries 0 t.

(** One attempt that returns: the parsed reply and the token counts it
    charges. *)
Definition attempt_success (a : attempt) : option (json * Z * Z) :=
  match count_tokens_result a, create_result a with
  | inl i, inl response =>
      let response_text := response_text_of (resp_text response) in
      match json_loads (fix_json_quotes response_text) with
      | inl parsed => Some (parsed, i, resp_output_tokens response)
      | inr (JSONDecodeError _ _) =>
          match json_loads (manual_escape response_text) with
          | inl parsed => Some (parsed, i, resp_output_tokens response)
          | inr _ => None
          end
      | inr _ => None
      end
  | _, _ => None
  end.

(** The first of the attempts [k], ..., [k + n - 1] that returns. *)
Fixpoint first_success (svc : service) (k n : nat) : option (json * Z * Z) :=
  match n with
  | O => None
  | S n' =>
      match attempt_success (svc k) with
      | Some r => Some r
      | None => first_success svc (S k) n'
      end
  end.

End DeprApi.
End DeprApi.

Module ArticleAnalysis.
Import Analyzer.

(** The exceptions [analyze_article] can raise: those of the modelled
    code and [KeyError] of a subscript. *)
Inductive raised := PyExc (e : exc) | KeyError (key : str).

Definition ebind {A B} (m : A + raised) (f : A -> B + raised) : B + raised :=
  match m with inl a => f a | inr e => inr e end.

Definition lift {A} (m : A + exc) : A + raised :=
  match m with inl a => inl a | inr e => inr (PyExc e) end.

(** [v[k]] with a string key: a dict looks the key up, any other JSON
    value is not subscriptable by a string. *)
Definition py_index (v : json) (k : str) : json + raised :=
  match v with
  | JObj d => match dict_get d k with Some x => inl x | None => inr (KeyError k) end
  | _ => inr (PyExc TypeError)
  end.

Definition get (v : json) (k : string) (default : json) : json + raised :=
  lift (Seo.py_get v (s2l k) default).

Definition opt_json (o : option json) : json := match o with Some v => v | None => JNull end.
Definition opt_str (o : option str) : json := match o with Some s => JStr s | None => JNull end.

(** [json.loads(x)] of an [AnalysisResult.result]: [None] is not a string. *)
Definition loads (o : option str) : json + raised :=
  match o with Some s => lift (json_loads s) | None => inr (PyExc TypeError) end.

(** [useCaseCats['useCases'][v]] guarded by [v in useCaseCats['useCases']]:
    a list or a dict is unhashable, a non-string key is never found. *)
Definition lookup (d : list (str * json)) (v : json) : option json + raised :=
  match v with
  | JStr s => inl (dict_get d s)
  | JArr _ | JObj _ => inr (PyExc TypeError)
  | _ => inl None
  end.

Definition set (d : list (str * json)) (k : string) (v : json) : list (str * json) :=
  dict_set d (s2l k) v.

Section AnalyzeArticle.
(** [preSorted] and [useCaseCats['useCases']] of the [static] module. *)
Variable preSorted : list (str * json).
Variable use_cases : list (str * json).
(** The configuration and formatting parameters of [analyze_content]. *)
Variable categories : list str.
Variable py_str : json -> str.
Variable exc_str : exc -> str.
(** [datetime.now().isoformat()]. *)
Variable timestamp : str.
(** The outcome of the API call of [analyze_content] on the cleaned
    content, for each analysis type: the reply text or the exception. *)
Variable reply : str -> str + exc.

Definition analyze (analysis_type : string) : AnalysisResult :=
  analyze_content categories py_str exc_str (reply (s2l analysis_type)) (s2l analysis_type).

(** [url = article['url']], the dict display of [article_analysis]
    (its entries evaluated left to right) and [helper.clean_content]. *)
Definition header (article : json) : list (str * json) + raised :=
  ebind (py_index article (s2l "url")) (fun url =>
  ebind (get article "basic_info" (JObj [])) (fun bi =>
  ebind (get bi "title" (JStr [])) (fun title =>
  ebind (get article "basic_info" (JObj [])) (fun bi =>
  ebind (get bi "category" JNull) (fun category =>
  ebind (get article "basic_info" (JObj [])) (fun bi =>
  ebind (get bi "publication_date" (JStr [])) (fun publication_date =>
  ebind (get article "basic_info" (JObj [])) (fun bi =>
  ebind (get bi "modified_date" (JStr [])) (fun modified_date =>
  ebind (get article "red_flags" (JObj [])) (fun rf =>
  ebind (get rf "matches" (JArr [])) (fun matches =>
  ebind (match url with
         | JStr u => inl (opt_json (UseCase.get_use_case preSorted u))
         | _ => inr (PyExc AttributeError)
         end) (fun pre_sorted =>
  let article_analysis :=
    [(s2l "url", url); (s2l "title", title); (s2l "category", category);
     (s2l "publication_date", publication_date); (s2l "modified_date", modified_date);
     (s2l "processed_timestamp", JStr timestamp);
     (s2l "red_flags", JObj [(s2l "matches", matches)]);
     (s2l "pre sorted use case", pre_sorted)] in
  ebind (get article "content" (JStr [])) (fun content =>
  ebind (match content with
         | JStr c => lift (clean_content c)
         | _ => inr (PyExc TypeError)
         end) (fun _ =>
  inl article_analysis)))))))))))))).

Definition category_stage (aa : list (str * json)) : list (str * json) + raised :=
  let category_result := analyze "categorize" in
  if success category_result then
    ebind (loads (result category_result)) (fun category_data =>
    ebind (py_index category_data (s2l "category")) (fun c =>
    ebind (py_index category_data (s2l "reasoning")) (fun r =>
    inl (set (set (set aa "ai_category" c) "ai_category_reasoning" r)
           "ai_category_status" (JStr (s2l "success"))))))
  else
    inl (set (set (set (set (set aa "ai_category" (JStr (s2l "uncategorized")))
                              "ai_category_reasoning" JNull)
                         "ai_category_status" (JStr (s2l "failed")))
                    "category_error" (opt_str (result category_result)))
               "category_error_message" (opt_str (Analyzer.error category_result))).

Definition use_case_stage (aa : list (str * json)) : list (str * json) + raised :=
  let analysis_result := analyze "use_case" in
  if success analysis_result then
    ebind (loads (result analysis_result)) (fun use_case_data =>
    ebind (py_index use_case_data (s2l "use case")) (fun use_case =>
    ebind (py_index use_case_data (s2l "reasoning")) (fun r =>
    ebind (py_index use_case_data (s2l "next best use case")) (fun alt =>
    let aa := set (set (set (set aa "use_case" use_case) "use_case_reasoning" r)
                         "use_case_alt" alt) "analysis_status" (JStr (s2l "success")) in
    ebind (lookup use_cases use_case) (fun found =>
    match found with
    | Some use_case_info =>
        ebind (get use_case_info "getKeepGrow" JNull) (fun g =>
        ebind (get use_case_info "cmoPriority" JNull) (fun p =>
        inl (set (set aa "getKeepGrow" g) "cmoPriority" p)))
    | None =>
        inl (set (set aa "getKeepGrow" (JStr (s2l "unknown"))) "cmoPriority" (JStr (s2l "unknown")))
    end)))))
  else
    inl (set (set (set (set (set (set (set aa "use_case" (JStr (s2l "unclassified")))
                                        "use_case_reasoning" JNull)
                                   "analysis_status" (JStr (s2l "failed")))
                              "error" (opt_str (result analysis_result)))
                         "error_message" (opt_str (Analyzer.error analysis_result)))
                    "getKeepGrow" (JStr (s2l "unknown")))
               "cmoPriority" (JStr (s2l "unknown"))).

Definition type_2_stage (aa : list (str * json)) : list (str * json) + raised :=
  let analysis_result := analyze "use_case_type_2" in
  if success analysis_result then
    ebind (loads (result analysis_result)) (fun use_case_data =>
    ebind (py_index use_case_data (s2l "use case")) (fun use_case_2 =>
    ebind (py_index use_case_data (s2l "reasoning")) (fun r =>
    inl (set (set aa "use_case_type_2" use_case_2) "use_case_reasoning_type_2" r))))
  else
    inl (set (set (set aa "use_case_type_2" (JStr (s2l "unclassified")))
                    "use_case_reasoning_type_2" JNull)
               "error_2" (opt_str (result analysis_result))).

Definition multi_stage (aa : list (str * json)) : list (str * json) + raised :=
  let analysis_result := analyze "use_case_multi" in
  if success analysis_result then
    ebind (loads (result analysis_result)) (fun use_case_data =>
    ebind (py_index use_case_data (s2l "primary_use_case")) (fun p =>
    ebind (py_index use_case_data (s2l "additional_use_cases")) (fun a =>
    inl (set (set aa "use_case_multi_primary" p) "use_case_multi_addl" a))))
  else
    inl (set (set aa "use_case_multi" (JStr (s2l "failed")))
               "error_multi" (opt_str (result analysis_result))).

(** [analyze_article(article, analysis_manager)] (src/clean_analysis.py). *)
Definition analyze_article (article : json) : list (str * json) + raised :=
  ebind (header article) (fun aa =>
  ebind (category_stage aa) (fun aa =>
  ebind (use_case_stage aa) (fun aa =>
  ebind (type_2_stage aa) multi_stage))).

End AnalyzeArticle.
End ArticleAnalysis.

(* ------------------------------------------------------------------ *)
(** ** Concrete inputs *)

(** [She said "I love this" but I disagree.] *)
Definition c1_text : str := txt "She said `I love this` but I disagree.".

(* ------------------------------------------------------------------ *)
(** ** Auxiliary notions for the cleaning pipeline *)

(** The three whitespace substitutions of [clean_content], in order. *)
Definition ws_normalize (l : str) : str := sub_spaces (sub_blank_lines (sub_newlines l)).

(** Every character is whitespace. *)
Definition all_space (l : str) : bool := forallb isspace l.

(** No three consecutive newlines. *)
Definition no_triple_nl (l : str) : Prop :=
  forall a b, l <> a ++ 10%Z :: 10%Z :: 10%Z :: b.

(** Every [[...]] fragment spans a newline (no match of [\[.*?\]] is left). *)
Definition no_bracket_pair (l : str) : Prop :=
  forall a m b, l = a ++ 91%Z :: m ++ 93%Z :: b -> In 10%Z m.

(** [p] holds of every suffix of [l]. *)
Fixpoint all_suffixes (p : str -> bool) (l : str) : bool :=
  p l && match l with [] => true | _ :: r => all_suffixes p r end.

(** The regions found from [lo] on: each starts at or after the end of the
    previous one plus one, and stays inside the text. *)
Fixpoint chain_from (lo len : nat) (l : list (nat * nat)) : Prop :=
  match l with
  | [] => True
  | (s, e) :: r => lo <= s /\ s <= e /\ e < len /\ chain_from (S e) len r
  end.

(** The report the two implementations give on [c1_text]: one counted
    pronoun, the quoted region [(9, 21)], and, the only sentence boundary
    being the final period, the whole text as the one sentence. *)
Definition c1_expected : pronoun_report :=
  {| count := 1; found_pronouns := [s2l "I"]; quoted_regions := [(9, 21)];
     sentences_with_pronouns := [c1_text]; flag := true |}.

(** A service that is overloaded (HTTP 529) on its first two attempts and
    replies with the JSON object [{}] on the third. *)
Definition flaky_service : ApiCall.service :=
  fun n => if n <? 2 then {| ApiCall.count_tokens_result := inr (APIError 529);
                             ApiCall.create_result := inr (APIError 529) |}
           else {| ApiCall.count_tokens_result := inl 10%Z;
                   ApiCall.create_result := inl {| ApiCall.resp_text := s2l "{}";
                                                   ApiCall.resp_output_tokens := 2%Z |} |}.

(** A service whose replies are never JSON. *)
Definition prose_service : ApiCall.service :=
  fun _ => {| ApiCall.count_tokens_result := inl 10%Z;
              ApiCall.create_result := inl {| ApiCall.resp_text := s2l "Sure! Here it is.";
                                              ApiCall.resp_output_tokens := 5%Z |} |}.

(** Characters that start the query or the fragment. *)
Definition qf_char (c : char) : Prop := c = 63%Z \/ c = 35%Z.

(** What [generate_unique_id] reads of a [urlsplit] result: scheme, netloc
    and path, or the exception. *)
Definition url_key (r : (str * str * str * str * str) + exc) : (str * str * str) + exc :=
  match r with inl (sc, n, p, _, _) => inl (sc, n, p) | inr e => inr e end.

(** ** Auxiliary notions for the extra properties *)

(** The string is empty or starts with whitespace. *)
Definition starts_space (l : str) : Prop := forall c r, l = c :: r -> isspace c = true.

(** The ASCII digits as decimal digits; on ASCII input this agrees with
    [unicodedata.decimal]. *)
Definition ascii_decimal (c : Z) : option Z :=
  if ((48 <=? c) && (c <=? 57))%Z then Some (c - 48)%Z else None.

(** The year of a date as four digits, zero-padded. *)
Definition pad4 (y : Z) : str :=
  [48 + y / 10 / 10 / 10; 48 + (y / 10 / 10) mod 10; 48 + (y / 10) mod 10; 48 + y mod 10]%Z.

(** A date written [YYYY-MM-DD]. *)
Definition canonical (y m d : Z) : str := pad4 y ++ 45%Z :: Dates.pad2 m ++ 45%Z :: Dates.pad2 d.

(** The character is not a backslash. *)
Definition not_bs (c : Z) : bool := negb (c =? 92)%Z.

(** A Markdown code fence. *)
Definition fence : str := [96; 96; 96]%Z.

(** A model reply that always fails with HTTP 529, one that always
    answers in prose, and an article with only a URL. *)
Definition api_down : str -> str + exc := fun _ => inr (APIError 529).
Definition prose_reply : str -> str + exc := fun _ => inl (s2l "Sure! Here is the analysis.").
Definition sample_article : json := JObj [(s2l "url", JStr (s2l "https://example.com/post"))].

(** [w] is one of [I], [me], [my], [mine], [myself] up to case. *)
Definition is_pronoun_form (w : str) : Prop :=
  exists a, In a pronoun_alternatives /\ length w = length a /\ ci_prefix a w = true.

(* ================================================================== *)
(** * Properties *)

(** ** The quote scan *)

Lemma find_aux_spec : forall c l i p,
  find_aux c l i = Some p -> i <= p /\ nth_error l (p - i) = Some c.
Proof.
  intros c l; induction l as [|d r IH]; intros i p H; simpl in H; [discriminate|].
  destruct (Z.eqb_spec c d) as [->|Hne].
  - injection H as <-. rewrite Nat.sub_diag. split; [lia|reflexivity].
  - apply IH in H as [Hle Hn]. split; [lia|].
    replace (p - i) with (S (p - S i)) by lia. exact Hn.
Qed.

Lemma find_spec : forall l c start p,
  find l c start = Some p -> start <= p /\ nth_error l p = Some c.
Proof.
  unfold find. intros l c start p H.
  apply find_aux_spec in H as [Hle Hn]. split; [exact Hle|].
  rewrite nth_error_skipn in Hn. replace (start + (p - start)) with p in Hn by lia. exact Hn.
Qed.

Lemma nth_error_lt : forall (l : str) k c, nth_error l k = Some c -> k < length l.
Proof. intros l k c H. apply nth_error_Some. rewrite H. discriminate. Qed.

Lemma next_opener_spec : forall pairs text cur best p c,
  next_opener pairs text cur best = Some (p, c) ->
  best = Some (p, c) \/ exists o, In (o, c) pairs /\ find text o cur = Some p.
Proof.
  induction pairs as [|[o c'] r IH]; intros text cur best p c H; simpl in H.
  - left; exact H.
  - destruct (find text o cur) as [pos|] eqn:Hf.
    + destruct (pos <? _).
      * apply IH in H as [H|[o' [Hin Hf']]].
        -- injection H as -> ->. right. exists o. split; [left; reflexivity|exact Hf].
        -- right. exists o'. split; [right; exact Hin|exact Hf'].
      * apply IH in H as [H|[o' [Hin Hf']]]; [left; exact H|right; exists o'; split; [right; exact Hin|exact Hf']].
    + apply IH in H as [H|[o' [Hin Hf']]]; [left; exact H|right; exists o'; split; [right; exact Hin|exact Hf']].
Qed.

(** Each region opens at an opener of [pairs] and ends at the first
    matching closer after it, or at the last index when there is none. *)
Lemma scan_quotes_opener : forall pairs text fuel cur s e,
  In (s, e) (scan_quotes pairs text fuel cur) ->
  exists o c, In (o, c) pairs /\ nth_error text s = Some o /\ cur <= s /\
    (find text c (S s) = Some e \/ (find text c (S s) = None /\ e = length text - 1)).
Proof.
  intros pairs text fuel; induction fuel as [|f IH]; intros cur s e H; simpl in H; [contradiction|].
  destruct (cur <? length text); [|contradiction].
  destruct (next_opener pairs text cur None) as [[start eq]|] eqn:Hn; [|contradiction].
  apply next_opener_spec in Hn as [Hn|[o [Hin Hf]]]; [discriminate|].
  destruct H as [H|H].
  - injection H as <- <-. apply find_spec in Hf as [Hle Hnth].
    exists o, eq. repeat split; try assumption.
    destruct (find text eq (S start)); [left; reflexivity|right; split; reflexivity].
  - apply IH in H as [o' [c' [Hin' [Hnth [Hle Hcl]]]]].
    exists o', c'. repeat split; try assumption.
    apply find_spec in Hf as [Hle' Hnth'].
    destruct (find text eq (S start)) as [e'|] eqn:He.
    + apply find_spec in He. lia.
    + apply nth_error_lt in Hnth'. lia.
Qed.

Lemma scan_quotes_chain : forall pairs text fuel cur,
  chain_from cur (length text) (scan_quotes pairs text fuel cur).
Proof.
  intros pairs text fuel; induction fuel as [|f IH]; intros cur; simpl; [exact I|].
  destruct (cur <? length text) eqn:Hlt; [|exact I].
  destruct (next_opener pairs text cur None) as [[start eq]|] eqn:Hn; [|exact I].
  apply next_opener_spec in Hn as [Hn|[o [_ Hf]]]; [discriminate|].
  apply find_spec in Hf as [Hle Hnth]. apply nth_error_lt in Hnth.
  simpl. destruct (find text eq (S start)) as [e|] eqn:He.
  - apply find_spec in He as [Hle' He']. apply nth_error_lt in He'.
    repeat split; try lia. apply IH.
  - repeat split; try lia. apply IH.
Qed.

Lemma chain_from_props : forall l lo len,
  chain_from lo len l ->
  (forall s e, In (s, e) l -> s <= e < len) /\
  (forall k s1 e1 s2 e2, nth_error l k = Some (s1, e1) ->
     nth_error l (S k) = Some (s2, e2) -> e1 < s2).
Proof.
  induction l as [|[s e] r IH]; intros lo len H; simpl in H.
  - split; [intros ? ? []|intros [|k]; discriminate].
  - destruct H as [H1 [H2 [H3 H4]]]. destruct (IH _ _ H4) as [IHa IHb]. split.
    + intros s' e' [Heq|Hin]; [injection Heq as <- <-; lia|exact (IHa _ _ Hin)].
    + intros [|k] s1 e1 s2 e2 Hk HSk; simpl in Hk, HSk.
      * injection Hk as <- <-. destruct r as [|[s3 e3] r']; [discriminate|].
        injection HSk as <- <-. simpl in H4. lia.
      * exact (IHb _ _ _ _ _ Hk HSk).
Qed.

(** ** The pronoun scan depends on [str.isalnum] only at the characters of
    the text *)

Section Ext.

Variables f g : Z -> bool.
Variable text : str.
Hypothesis Hfg : forall c, In c text -> f c = g c.

Lemma word_at_ext : forall k, word_at f text k = word_at g text k.
Proof.
  intros k. unfold word_at, is_word.
  destruct (nth_error text k) as [c|] eqn:Hk; [|reflexivity].
  rewrite (Hfg c); [reflexivity|]. eapply nth_error_In; exact Hk.
Qed.

Lemma at_boundary_ext : forall p, at_boundary f text p = at_boundary g text p.
Proof.
  intros [|q]; unfold at_boundary; rewrite !word_at_ext; reflexivity.
Qed.

Lemma try_alternatives_ext : forall alts p,
  try_alternatives f alts text p = try_alternatives g alts text p.
Proof.
  induction alts as [|a r IH]; intros p; simpl; [reflexivity|].
  rewrite at_boundary_ext, IH. reflexivity.
Qed.

Lemma finditer_pronouns_ext : forall fuel p,
  finditer_pronouns f fuel text p = finditer_pronouns g fuel text p.
Proof.
  induction fuel as [|n IH]; intros p; simpl; [reflexivity|].
  unfold match_pronoun_at. rewrite at_boundary_ext, try_alternatives_ext.
  destruct (_ <=? _); [|reflexivity].
  destruct (if at_boundary g text p then _ else None); rewrite IH; reflexivity.
Qed.

Lemma count_personal_pronouns_with_ext : forall attr pairs,
  count_personal_pronouns_with f attr pairs text = count_personal_pronouns_with g attr pairs text.
Proof.
  intros attr pairs. unfold count_personal_pronouns_with.
  rewrite finditer_pronouns_ext. reflexivity.
Qed.

End Ext.

Lemma ascii_text_ext : forall (is_alnum : Z -> bool) text attr pairs,
  (forall c, (0 <= c < 128)%Z -> is_alnum c = ascii_isalnum c) ->
  forallb (fun c => (0 <=? c) && (c <? 128))%Z text = true ->
  count_personal_pronouns_with is_alnum attr pairs text
  = count_personal_pronouns_with ascii_isalnum attr pairs text.
Proof.
  intros is_alnum text attr pairs Hasc Hall. apply count_personal_pronouns_with_ext.
  intros c Hin. apply Hasc. rewrite forallb_forall in Hall. specialize (Hall c Hin).
  apply andb_prop in Hall as [H1 H2]. apply Z.leb_le in H1. apply Z.ltb_lt in H2. lia.
Qed.

(** ** C1 *)

(** C1 (counterexample): on [c1_text] the
    recorded sentence is the whole text, not the span [but I disagree.]. *)
Lemma C1_sentence_not_trailing_span :
  sentences_with_pronouns (MakeAnalysis.count_personal_pronouns ascii_isalnum c1_text)
  <> [s2l "but I disagree."].
Proof. vm_compute. discriminate. Qed.

(** C1 (amended): for [c1_text], the input [She said, quote, I love this,
    quote, but I disagree.], with any
    [str.isalnum] that is the usual one on ASCII, both versions of
    [count_personal_pronouns] count one pronoun, the trailing [I] (the
    quoted [I] at offset 10 lies in the region (9, 21)), set the flag, and
    record as the single sentence the whole input, since the text has no
    sentence boundary before its final period. *)
Theorem C1_count_personal_pronouns_example : forall is_alnum : Z -> bool,
  (forall c, (0 <= c < 128)%Z -> is_alnum c = ascii_isalnum c) ->
  MakeAnalysis.count_personal_pronouns is_alnum c1_text = c1_expected /\
  ArticleProcessor.count_personal_pronouns is_alnum c1_text = c1_expected.
Proof.
  intros is_alnum Hasc.
  unfold MakeAnalysis.count_personal_pronouns, ArticleProcessor.count_personal_pronouns.
  rewrite !(ascii_text_ext is_alnum) by (exact Hasc || reflexivity).
  split; vm_compute; reflexivity.
Qed.

Lemma C1_count_personal_pronouns_example_witness :
  MakeAnalysis.count_personal_pronouns ascii_isalnum c1_text = c1_expected /\
  ArticleProcessor.count_personal_pronouns ascii_isalnum c1_text = c1_expected.
Proof. apply (C1_count_personal_pronouns_example ascii_isalnum). intros c _. reflexivity. Defined.

(** ** C2 *)

(** C2 (counterexample): the scan of src/modular/article_processor.py opens
    a region at the apostrophe of [Don't I know], which hides the [I]. *)
Lemma C2_apostrophe_opens_region :
  quoted_regions (ArticleProcessor.count_personal_pronouns ascii_isalnum (s2l "Don't I know"))
  = [(3, 11)] /\ nth_error (s2l "Don't I know") 3 = Some 39%Z /\
  count (ArticleProcessor.count_personal_pronouns ascii_isalnum (s2l "Don't I know")) = 0.
Proof. vm_compute. repeat split. Qed.

(** C2 (amended): in src/make_analysis.py every recorded region opens at
    the double quote U+0022, U+201C or U+2018 and ends at the first
    matching closer after it (U+0022, U+201D, U+2019 respectively) or,
    without one, at the last index; in src/modular/article_processor.py
    regions open only at the double quote U+0022 or at the apostrophe
    U+0027, each closed by the same character. *)
Theorem C2_quote_openers : forall (is_alnum : Z -> bool) (text : str),
  (forall s e, In (s, e) (quoted_regions (MakeAnalysis.count_personal_pronouns is_alnum text)) ->
     exists o c, In (o, c) [(34, 34); (8220, 8221); (8216, 8217)]%Z /\
       nth_error text s = Some o /\
       (find text c (S s) = Some e \/ (find text c (S s) = None /\ e = length text - 1))) /\
  (forall s e, In (s, e) (quoted_regions (ArticleProcessor.count_personal_pronouns is_alnum text)) ->
     exists o c, In (o, c) [(34, 34); (39, 39)]%Z /\
       nth_error text s = Some o /\
       (find text c (S s) = Some e \/ (find text c (S s) = None /\ e = length text - 1))).
Proof.
  intros is_alnum text. split; intros s e H; simpl in H;
    apply scan_quotes_opener in H as [o [c [Hin [Hn [_ Hc]]]]]; exists o, c; auto.
Qed.

(** ** C10 *)

(** C10: the [quoted_regions] of both versions are well formed
    ([s <= e < len(text)]) and each starts after the end of the previous
    one. *)
Theorem C10_quoted_regions_ordered_disjoint : forall (is_alnum : Z -> bool) (text : str),
  let q1 := quoted_regions (MakeAnalysis.count_personal_pronouns is_alnum text) in
  let q2 := quoted_regions (ArticleProcessor.count_personal_pronouns is_alnum text) in
  ((forall s e, In (s, e) q1 -> s <= e < length text) /\
   (forall k s1 e1 s2 e2, nth_error q1 k = Some (s1, e1) ->
      nth_error q1 (S k) = Some (s2, e2) -> e1 < s2)) /\
  ((forall s e, In (s, e) q2 -> s <= e < length text) /\
   (forall k s1 e1 s2 e2, nth_error q2 k = Some (s1, e1) ->
      nth_error q2 (S k) = Some (s2, e2) -> e1 < s2)).
Proof.
  intros is_alnum text q1 q2. split; apply (chain_from_props _ 0); apply scan_quotes_chain.
Qed.

(** ** C7 *)

(** C7: on the categorization axis, a reply that parses to an object whose
    [category] is not one of the configured categories gives
    [success = false] with [Invalid category returned: ...]; a reply that is
    not JSON gives [success = false] with [Invalid JSON response format: ...];
    both are returned values, and the two error messages always differ. *)
Theorem C7_category_and_parse_failures_distinct :
  forall (categories : list str) (py_str : json -> str) (exc_str : exc -> str)
         (raw raw' : str) (d : list (str * json)) (c : json) (m : string) (p : nat),
  json_loads (strip raw) = inl (JObj d) ->
  dict_get d (s2l "category") = Some c ->
  Analyzer.category_in categories c = false ->
  json_loads (strip raw') = inr (JSONDecodeError m p) ->
  let r1 := Analyzer.analyze_content categories py_str exc_str (inl raw) (s2l "categorize") in
  let r2 := Analyzer.analyze_content categories py_str exc_str (inl raw') (s2l "categorize") in
  r1 = {| Analyzer.success := false; Analyzer.result := Some (strip raw);
          Analyzer.error := Some (s2l "Invalid category returned: " ++ py_str c) |} /\
  r2 = {| Analyzer.success := false; Analyzer.result := Some (strip raw');
          Analyzer.error := Some (s2l "Invalid JSON response format: "
                                  ++ exc_str (JSONDecodeError m p)) |} /\
  Analyzer.error r1 <> Analyzer.error r2.
Proof.
  intros categories py_str exc_str raw raw' d c m p Hj Hd Hc Hj' r1 r2.
  assert (E1 : r1 = {| Analyzer.success := false; Analyzer.result := Some (strip raw);
          Analyzer.error := Some (s2l "Invalid category returned: " ++ py_str c) |}).
  { unfold r1, Analyzer.analyze_content. cbv zeta. rewrite Hj.
    unfold Analyzer.check_category. cbv zeta. rewrite Hd, Hc. reflexivity. }
  assert (E2 : r2 = {| Analyzer.success := false; Analyzer.result := Some (strip raw');
          Analyzer.error := Some (s2l "Invalid JSON response format: "
                                  ++ exc_str (JSONDecodeError m p)) |}).
  { unfold r2, Analyzer.analyze_content. cbv zeta. rewrite Hj'. reflexivity. }
  split; [exact E1|]. split; [exact E2|].
  rewrite E1, E2. simpl. discriminate.
Qed.

Lemma C7_category_and_parse_failures_distinct_witness :
  let r1 := Analyzer.analyze_content [s2l "Tech"] (fun _ => s2l "Nope") (fun _ => s2l "err")
              (inl (txt "{`category`: `Nope`}")) (s2l "categorize") in
  let r2 := Analyzer.analyze_content [s2l "Tech"] (fun _ => s2l "Nope") (fun _ => s2l "err")
              (inl (s2l "not json")) (s2l "categorize") in
  r1 = {| Analyzer.success := false; Analyzer.result := Some (strip (txt "{`category`: `Nope`}"));
          Analyzer.error := Some (s2l "Invalid category returned: " ++ s2l "Nope") |} /\
  r2 = {| Analyzer.success := false; Analyzer.result := Some (strip (s2l "not json"));
          Analyzer.error := Some (s2l "Invalid JSON response format: " ++ s2l "err") |} /\
  Analyzer.error r1 <> Analyzer.error r2.
Proof.
  exact (C7_category_and_parse_failures_distinct [s2l "Tech"] (fun _ => s2l "Nope") (fun _ => s2l "err")
           (txt "{`category`: `Nope`}") (s2l "not json")
           [(s2l "category", JStr (s2l "Nope"))] (JStr (s2l "Nope")) "Expecting value" 0
           ltac:(vm_compute; reflexivity) ltac:(vm_compute; reflexivity)
           ltac:(vm_compute; reflexivity) ltac:(vm_compute; reflexivity)).
Defined.

(** ** C6 *)

Lemma try_body_failure : forall a t e r t',
  ApiCall.try_body a None t = inr (e, Some r, t') ->
  exists e2, json_loads (ApiCall.resp_text r) = inr e2.
Proof.
  intros a t e r t'. unfold ApiCall.try_body.
  destruct (ApiCall.count_tokens_result a); [|discriminate].
  destruct (ApiCall.create_result a) as [r0|]; [|discriminate].
  destruct (json_loads (ApiCall.resp_text r0)) as [v|e0] eqn:Hj; [discriminate|].
  intros H. injection H as <- <- <-. exists e0. exact Hj.
Qed.

(** C6: [make_api_call] of src/ai_analysis.py never returns the failure
    value [None]: whatever the service does and whatever [max_retries] is,
    the call either returns the parsed reply of its first attempt or raises.
    The first failed attempt is never retried, because the [except] branch
    re-parses [response.content[0].text] before counting the retry. *)
Theorem C6_first_failure_raises : forall (svc : ApiCall.service) (max_retries : nat) (t : Dec.tracker),
  (exists v, fst (ApiCall.make_api_call svc max_retries t) = ApiCall.Returned (Some v)) \/
  (exists e, fst (ApiCall.make_api_call svc max_retries t) = ApiCall.Raised e).
Proof.
  intros svc max_retries t. unfold ApiCall.make_api_call. simpl.
  destruct (ApiCall.try_body (svc 0) None t) as [[v t']|[[e resp] t']] eqn:Hb.
  - left. exists v. reflexivity.
  - right. destruct resp as [r|].
    + destruct (try_body_failure _ _ _ _ _ Hb) as [e2 He2]. rewrite He2.
      exists e2. reflexivity.
    + exists UnboundLocalError. reflexivity.
Qed.

(** C6 (failing input): with [max_retries = 2], the service that fails
    twice and then answers makes [make_api_call] raise [UnboundLocalError]
    on the first failure, and a service that only replies with prose makes
    it raise the [JSONDecodeError] of the first reply. *)
Lemma C6_flaky_service_raises :
  fst (ApiCall.make_api_call flaky_service 2 Dec.init) = ApiCall.Raised UnboundLocalError /\
  fst (ApiCall.make_api_call prose_service 2 Dec.init)
  = ApiCall.Raised (JSONDecodeError "Expecting value" 0).
Proof. split; vm_compute; reflexivity. Qed.

(** ** C5 *)

(** C5 (counterexample): the JSON object [{"title": "x"}] has no [content]
    field; [clean_content] returns the empty string instead of cleaning the
    input as raw text. *)
Lemma C5_object_without_content :
  clean_content (txt "{`title`: `x`}") = inl [] /\
  clean_text (txt "{`title`: `x`}") <> [].
Proof. split; [vm_compute; reflexivity | vm_compute; discriminate]. Qed.

(** C5 (amended): when [json.loads] fails with [JSONDecodeError], the whole
    input is cleaned as raw text; when the input is a JSON object, its
    [content] string is cleaned, and an object without [content] gives the
    empty string; in these cases [clean_content] returns and does not raise. *)
Theorem C5_raw_text_fallback : forall s : str,
  (forall m p, json_loads s = inr (JSONDecodeError m p) -> clean_content s = inl (clean_text s)) /\
  (forall d, json_loads s = inl (JObj d) -> dict_get d (s2l "content") = None ->
     clean_content s = inl []) /\
  (forall d c, json_loads s = inl (JObj d) -> dict_get d (s2l "content") = Some (JStr c) ->
     clean_content s = inl (clean_text c)).
Proof.
  intros s. unfold clean_content. repeat split.
  - intros m p H. rewrite H. reflexivity.
  - intros d H Hd. rewrite H, Hd. reflexivity.
  - intros d c H Hd. rewrite H, Hd. reflexivity.
Qed.

(** ** C9 *)


Lemma find_aux_app : forall (c : char) (x y : str) i,
  find_aux c (x ++ y) i
  = match find_aux c x i with Some j => Some j | None => find_aux c y (i + length x) end.
Proof.
  intros c x; induction x as [|d r IH]; intros y i; simpl.
  - rewrite Nat.add_0_r. reflexivity.
  - destruct (Z.eqb c d); [reflexivity|]. rewrite IH. rewrite Nat.add_succ_r. reflexivity.
Qed.

Lemma find_aux_notin : forall (c : char) (x : str) i, ~ In c x -> find_aux c x i = None.
Proof.
  intros c x; induction x as [|d r IH]; intros i H; simpl; [reflexivity|].
  destruct (Z.eqb_spec c d) as [->|Hne]; [exfalso; apply H; left; reflexivity|].
  apply IH. intros Hin. apply H. right. exact Hin.
Qed.

Lemma find_aux_bounds : forall (c : char) (l : str) i j, find_aux c l i = Some j -> i <= j < i + length l.
Proof.
  intros c l; induction l as [|d r IH]; intros i j H; simpl in H; [discriminate|].
  destruct (Z.eqb c d).
  - injection H as <-. simpl. lia.
  - apply IH in H. simpl. lia.
Qed.

Lemma In_skipn : forall (a : char) n l, In a (skipn n l) -> In a l.
Proof.
  intros a n l H. rewrite <- (firstn_skipn n l). apply in_or_app. right. exact H.
Qed.

Lemma In_firstn : forall (a : char) n l, In a (firstn n l) -> In a l.
Proof.
  intros a n l H. rewrite <- (firstn_skipn n l). apply in_or_app. left. exact H.
Qed.

Lemma firstn_app_le : forall (x y : str) n, n <= length x -> firstn n (x ++ y) = firstn n x.
Proof.
  intros x y n H. rewrite firstn_app. replace (n - length x) with 0 by lia.
  simpl. apply app_nil_r.
Qed.

Lemma skipn_app_le : forall (x y : str) n, n <= length x -> skipn n (x ++ y) = skipn n x ++ y.
Proof.
  intros x y n H. rewrite skipn_app. replace (n - length x) with 0 by lia. reflexivity.
Qed.

Section UrlQuery.

Variable str_lower : str -> str.
Variable is_alnum : Z -> bool.
Variable nfkc : str -> str.
Variable bracketed_netloc_invalid : str -> bool.

Lemma lstrip_c0_app : forall (b : str) (c : char) (s : str), qf_char c ->
  Url.lstrip_c0 (b ++ c :: s) = Url.lstrip_c0 b ++ c :: s.
Proof.
  intros b c s Hc. induction b as [|d r IH]; simpl.
  - destruct Hc as [-> | ->]; reflexivity.
  - destruct (Url.is_c0_or_space d); [exact IH|reflexivity].
Qed.

Lemma lstrip_c0_In : forall (a : char) (b : str), In a (Url.lstrip_c0 b) -> In a b.
Proof.
  intros a b; induction b as [|d r IH]; simpl; [tauto|].
  destruct (Url.is_c0_or_space d); [intros H; right; exact (IH H)|tauto].
Qed.

Lemma split_scheme_app : forall (x : str) (c : char) (s : str), qf_char c ->
  Url.split_scheme (x ++ c :: s)
  = (fst (Url.split_scheme x), snd (Url.split_scheme x) ++ c :: s).
Proof.
  intros x c s Hc. unfold Url.split_scheme, find. simpl skipn.
  rewrite find_aux_app. destruct (find_aux 58%Z x 0) as [j|] eqn:Hx.
  - apply find_aux_bounds in Hx. destruct j as [|j']; [reflexivity|].
    rewrite firstn_app_le by lia.
    destruct x as [|c0 x']; [simpl in Hx; lia|]. simpl in Hx. cbn [app].
    rewrite skipn_app_le by lia.
    destruct (Url.is_ascii_alpha c0 && _); reflexivity.
  - cbn [find_aux Nat.add]. replace (58 =? c)%Z with false by (destruct Hc as [-> | ->]; reflexivity).
    destruct (find_aux 58%Z s (S (length x))) as [k|] eqn:Hs; [|reflexivity].
    apply find_aux_bounds in Hs. destruct k as [|k']; [lia|].
    destruct x as [|c0 x'].
    + simpl. destruct Hc as [-> | ->]; reflexivity.
    + simpl app. cbv beta iota.
      destruct (forallb Url.is_scheme_char (firstn (S k') (c0 :: x' ++ c :: s))) eqn:Hf.
      * exfalso. rewrite forallb_forall in Hf.
        assert (Hin : In c (firstn (S k') ((c0 :: x') ++ c :: s))).
        { rewrite firstn_app. apply in_or_app. right.
          simpl in Hs. destruct (S k' - length (c0 :: x')) as [|m] eqn:Hm; [simpl in Hm; lia|].
          left. reflexivity. }
        specialize (Hf c Hin). destruct Hc as [-> | ->]; discriminate Hf.
      * rewrite andb_false_r. reflexivity.
Qed.

Lemma split_scheme_In : forall (a : char) (l : str), In a (snd (Url.split_scheme l)) -> In a l.
Proof.
  intros a l. unfold Url.split_scheme.
  destruct (find l 58%Z 0) as [[|i]|]; try (simpl; tauto).
  destruct l as [|c0 r]; [simpl; tauto|].
  destruct (Url.is_ascii_alpha c0 && _); [|simpl; tauto].
  intros H. apply (In_skipn a (S (S i)) (c0 :: r)). exact H.
Qed.

Lemma find_qf_app : forall (x : str) (c : char) (s : str) (d : char), ~ In d x -> 2 <= length x ->
  find (x ++ c :: s) d 2
  = if Z.eqb d c then Some (length x) else find_aux d s (S (length x)).
Proof.
  intros x c s d Hd Hl. unfold find. rewrite skipn_app_le by lia.
  rewrite find_aux_app, find_aux_notin.
  - rewrite length_skipn. replace (2 + (length x - 2)) with (length x) by lia. reflexivity.
  - intros Hin. apply Hd. apply (In_skipn _ _ _ Hin).
Qed.

Lemma find_slash_app : forall (x : str) (c : char) (s : str), qf_char c -> 2 <= length x ->
  find (x ++ c :: s) 47%Z 2
  = match find x 47%Z 2 with Some j => Some j | None => find_aux 47%Z s (S (length x)) end.
Proof.
  intros x c s Hc Hl. unfold find. rewrite skipn_app_le by lia.
  rewrite find_aux_app. rewrite length_skipn.
  replace (2 + (length x - 2)) with (length x) by lia. cbn [find_aux].
  replace (47 =? c)%Z with false by (destruct Hc as [-> | ->]; reflexivity). reflexivity.
Qed.

Lemma find_lt_length : forall (x : str) (d : char) j, find x d 2 = Some j -> j < length x.
Proof.
  intros x d j H. unfold find in H. apply find_aux_bounds in H.
  rewrite length_skipn in H. lia.
Qed.

Lemma find_ge : forall (s : str) (d : char) i j, find_aux d s i = Some j -> i <= j.
Proof. intros s d i j H. apply find_aux_bounds in H. lia. Qed.

Lemma splitnetloc_app : forall (x : str) (c : char) (s : str), qf_char c -> 2 <= length x ->
  ~ In 63%Z x -> ~ In 35%Z x ->
  Url.splitnetloc (x ++ c :: s)
  = (fst (Url.splitnetloc x), snd (Url.splitnetloc x) ++ c :: s).
Proof.
  intros x c s Hc Hl Hq Hh.
  assert (Nq : find x 63%Z 2 = None).
  { unfold find. apply find_aux_notin. intros Hin. apply Hq. apply (In_skipn _ _ _ Hin). }
  assert (Nh : find x 35%Z 2 = None).
  { unfold find. apply find_aux_notin. intros Hin. apply Hh. apply (In_skipn _ _ _ Hin). }
  pose proof (find_slash_app x c s Hc Hl) as F1.
  pose proof (find_qf_app x c s 63%Z Hq Hl) as F2.
  pose proof (find_qf_app x c s 35%Z Hh Hl) as F3.
  unfold Url.splitnetloc. simpl s2l. cbn [fold_left].
  rewrite F1, F2, F3, Nq, Nh. cbn [fst snd].
  match goal with |- (slice _ 2 ?D1, skipn ?D1 _) = (slice _ 2 ?D2, skipn ?D2 _ ++ _) =>
    assert (Hd : D2 <= length x) by (destruct (find x 47%Z 2); lia);
    assert (Heq : D1 = D2) end.
  { rewrite length_app. simpl length.
    destruct (find x 47%Z 2) as [j|] eqn:Hj; [apply find_lt_length in Hj|];
      [|destruct (find_aux 47%Z s (S (length x))) eqn:E0; [apply find_ge in E0|]];
      destruct Hc as [-> | ->]; simpl;
      repeat match goal with |- context [find_aux ?d s (S (length x))] =>
        let E := fresh "E" in destruct (find_aux d s (S (length x))) eqn:E; [apply find_ge in E|] end;
      lia. }
  rewrite Heq. unfold slice. rewrite skipn_app_le by (lia).
  rewrite firstn_app_le by (rewrite length_skipn; lia).
  rewrite skipn_app_le by (lia). reflexivity.
Qed.


Lemma str_eqb_true : forall a b : str, str_eqb a b = true -> a = b.
Proof. intros a b. unfold str_eqb. destruct (list_eq_dec Z.eq_dec a b); [tauto|discriminate]. Qed.

Lemma split_netloc_app : forall (x : str) (c : char) (s : str), qf_char c -> ~ In 63%Z x -> ~ In 35%Z x ->
  Url.split_netloc bracketed_netloc_invalid (x ++ c :: s)
  = match Url.split_netloc bracketed_netloc_invalid x with
    | inl (n, r) => inl (n, r ++ c :: s)
    | inr e => inr e
    end.
Proof.
  intros x c s Hc Hq Hh. unfold Url.split_netloc.
  destruct (Nat.le_gt_cases 2 (length x)) as [Hl|Hl].
  - rewrite firstn_app_le by lia. destruct (str_eqb (firstn 2 x) (s2l "//")); [|reflexivity].
    rewrite splitnetloc_app by assumption. destruct (Url.splitnetloc x) as [n r]. simpl.
    destruct (xorb _ _); [reflexivity|]. destruct (_ && _ && _); reflexivity.
  - destruct (str_eqb (firstn 2 (x ++ c :: s)) (s2l "//")) eqn:E1.
    { exfalso. apply str_eqb_true in E1.
      destruct x as [|a [|b x']]; simpl in E1, Hl; try lia;
        injection E1 as E1 E2; try injection E2 as E2; destruct Hc as [-> | ->]; discriminate. }
    destruct (str_eqb (firstn 2 x) (s2l "//")) eqn:E2; [|reflexivity].
    exfalso. apply str_eqb_true in E2. apply (f_equal (@length _)) in E2.
    rewrite length_firstn, Nat.min_r in E2 by lia. simpl in E2. lia.
Qed.

Lemma split_netloc_In : forall (l n r : str) (a : char),
  Url.split_netloc bracketed_netloc_invalid l = inl (n, r) -> In a r -> In a l.
Proof.
  intros l n r a. unfold Url.split_netloc.
  destruct (str_eqb (firstn 2 l) (s2l "//")).
  - destruct (Url.splitnetloc l) as [n0 r0] eqn:Hs.
    destruct (xorb _ _); [discriminate|]. destruct (_ && _ && _); [discriminate|].
    intros H. injection H as <- <-. unfold Url.splitnetloc in Hs. cbv zeta in Hs.
    injection Hs as _ <-. apply In_skipn.
  - intros H. injection H as <- <-. tauto.
Qed.

Lemma split1_notin : forall (y : str) (d : char), ~ In d y -> Url.split1 y d = None.
Proof.
  intros y d H. unfold Url.split1, find. cbn [skipn]. rewrite find_aux_notin by exact H.
  reflexivity.
Qed.

Lemma split1_head : forall (y : str) (d : char) (s : str), ~ In d y -> Url.split1 (y ++ d :: s) d = Some (y, s).
Proof.
  intros y d s H. unfold Url.split1, find. cbn [skipn].
  rewrite find_aux_app, find_aux_notin by exact H. cbn [find_aux Nat.add].
  rewrite Z.eqb_refl. rewrite firstn_app_le by lia. rewrite firstn_all.
  change (match y ++ d :: s with [] => [] | _ :: l => skipn (length y) l end)
    with (skipn (S (length y)) (y ++ d :: s)).
  rewrite skipn_app. rewrite skipn_all2 by lia.
  replace (S (length y) - length y) with 1 by lia. reflexivity.
Qed.

Lemma split1_hash_after_q : forall y s : str, ~ In 35%Z y ->
  Url.split1 (y ++ 63%Z :: s) 35%Z = None \/
  exists t f, Url.split1 (y ++ 63%Z :: s) 35%Z = Some (y ++ 63%Z :: t, f).
Proof.
  intros y s H. unfold Url.split1, find. cbn [skipn].
  rewrite find_aux_app, find_aux_notin by exact H. cbn [find_aux Nat.add].
  replace (35 =? 63)%Z with false by reflexivity.
  destruct (find_aux 35%Z s (S (length y))) as [w|] eqn:Hw; [|left; reflexivity].
  right. apply find_ge in Hw.
  exists (firstn (w - S (length y)) s), (skipn (S w) (y ++ 63%Z :: s)).
  rewrite firstn_app. rewrite firstn_all2 by lia.
  replace (w - length y) with (S (w - S (length y))) by lia. reflexivity.
Qed.

Lemma split_query_fragment_nil : forall y : str, ~ In 63%Z y -> ~ In 35%Z y ->
  Url.split_query_fragment y = (y, [], []).
Proof.
  intros y Hq Hh. unfold Url.split_query_fragment.
  rewrite split1_notin by exact Hh. rewrite split1_notin by exact Hq. reflexivity.
Qed.

Lemma split_query_fragment_app : forall (y : str) (c : char) (s : str), qf_char c -> ~ In 63%Z y -> ~ In 35%Z y ->
  fst (fst (Url.split_query_fragment (y ++ c :: s))) = y.
Proof.
  intros y c s Hc Hq Hh. unfold Url.split_query_fragment.
  destruct Hc as [-> | ->].
  - destruct (split1_hash_after_q y s Hh) as [E | [t [f E]]]; rewrite E;
      rewrite split1_head by exact Hq; reflexivity.
  - rewrite split1_head by exact Hh. rewrite split1_notin by exact Hq. reflexivity.
Qed.

Lemma urlsplit_app : forall (b : str) (c : char) (s : str), qf_char c -> ~ In 63%Z b -> ~ In 35%Z b ->
  url_key (Url.urlsplit nfkc bracketed_netloc_invalid (b ++ c :: s))
  = url_key (Url.urlsplit nfkc bracketed_netloc_invalid b).
Proof.
  intros b c s Hc Hq Hh. unfold Url.urlsplit.
  rewrite lstrip_c0_app by exact Hc. rewrite filter_app.
  set (f := fun c0 : char => negb (Url.mem c0 [9; 13; 10]%Z)).
  assert (Ef : filter f (c :: s) = c :: filter f s)
    by (simpl; destruct Hc as [-> | ->]; reflexivity).
  rewrite Ef.
  set (x1 := filter f (Url.lstrip_c0 b)).
  assert (In1 : forall a, In a x1 -> In a b).
  { intros a Ha. apply filter_In in Ha as [Ha _]. apply lstrip_c0_In. exact Ha. }
  rewrite split_scheme_app by exact Hc.
  destruct (Url.split_scheme x1) as [sc x2] eqn:Hs. cbn [fst snd].
  assert (In2 : forall a, In a x2 -> In a b).
  { intros a Ha. apply In1. apply split_scheme_In. rewrite Hs. exact Ha. }
  rewrite split_netloc_app
    by (exact Hc || (intros Hin; apply Hq; apply In2; exact Hin)
                 || (intros Hin; apply Hh; apply In2; exact Hin)).
  destruct (Url.split_netloc bracketed_netloc_invalid x2) as [[n x3]|e] eqn:Hn; [|reflexivity].
  assert (In3 : forall a, In a x3 -> In a b).
  { intros a Ha. apply In2. exact (split_netloc_In _ _ _ _ Hn Ha). }
  assert (Q3 : ~ In 63%Z x3) by (intros Hin; apply Hq; apply In3; exact Hin).
  assert (H3 : ~ In 35%Z x3) by (intros Hin; apply Hh; apply In3; exact Hin).
  pose proof (split_query_fragment_app x3 c (filter f s) Hc Q3 H3) as Ep.
  rewrite (split_query_fragment_nil x3 Q3 H3).
  destruct (Url.split_query_fragment (x3 ++ c :: filter f s)) as [[p q] fr].
  simpl in Ep. subst p.
  destruct (Url.checknetloc_fails nfkc n); reflexivity.
Qed.

Lemma generate_unique_id_key : forall u v : str,
  url_key (Url.urlsplit nfkc bracketed_netloc_invalid u)
  = url_key (Url.urlsplit nfkc bracketed_netloc_invalid v) ->
  Url.generate_unique_id str_lower is_alnum nfkc bracketed_netloc_invalid u
  = Url.generate_unique_id str_lower is_alnum nfkc bracketed_netloc_invalid v.
Proof.
  intros u v H. unfold Url.generate_unique_id, Url.urlparse.
  destruct (Url.urlsplit nfkc bracketed_netloc_invalid u) as [[[[[sc n] p] q] f]|e];
  destruct (Url.urlsplit nfkc bracketed_netloc_invalid v) as [[[[[sc' n'] p'] q'] f']|e'];
  simpl in H; try discriminate H; injection H; intros; subst; try reflexivity.
  cbv zeta. destruct (existsb _ _ && _); [destruct (Url.splitparams p')|]; reflexivity.
Qed.

Lemma generate_unique_id_suffix : forall b s : str,
  ~ In 63%Z b -> ~ In 35%Z b -> (s = [] \/ hd_error s = Some 63%Z \/ hd_error s = Some 35%Z) ->
  Url.generate_unique_id str_lower is_alnum nfkc bracketed_netloc_invalid (b ++ s)
  = Url.generate_unique_id str_lower is_alnum nfkc bracketed_netloc_invalid b.
Proof.
  intros b s Hq Hh Hs. destruct s as [|c s].
  - rewrite app_nil_r. reflexivity.
  - apply generate_unique_id_key. apply urlsplit_app; [|exact Hq|exact Hh].
    unfold qf_char. simpl in Hs.
    destruct Hs as [Hs|[Hs|Hs]]; [discriminate|injection Hs; tauto|injection Hs; tauto].
Qed.

End UrlQuery.

(** C9 (counterexample): [parsed.netloc] keeps the user information and
    the port, so the id of [http://user@Example.com:8080/a/B;p?q=1#f] is
    [userexamplecom8080ab], not the host and path [examplecomab]. *)
Lemma C9_netloc_keeps_userinfo_and_port :
  Url.generate_unique_id (map ascii_lower) ascii_isalnum (fun u => u) (fun _ => false)
    (s2l "http://user@Example.com:8080/a/B;p?q=1#f") = inl (s2l "userexamplecom8080ab") /\
  Url.generate_unique_id (map ascii_lower) ascii_isalnum (fun u => u) (fun _ => false)
    (s2l "http://user@Example.com:8080/a/B;p?q=1#f") <> inl (s2l "examplecomab").
Proof. split; vm_compute; [reflexivity | discriminate]. Qed.

(** C9 (amended): [generate_unique_id(url)] is computed from
    [urlparse(url).netloc + urlparse(url).path] only (the netloc with any
    user information and port, the path without its [;params]), lowercased,
    with every non-alphanumeric character removed, or raises the
    [ValueError] of [urlparse]. Two URLs with the same text before their
    first [?] or [#], which differ only in their query or fragment, map to
    the same id or both raise the same error. This holds for every
    [str.lower], [str.isalnum], NFKC normalisation and IPv6 literal check. *)
Theorem C9_query_fragment_ignored :
  forall (str_lower : str -> str) (is_alnum : Z -> bool) (nfkc : str -> str)
         (bracketed_netloc_invalid : str -> bool) (b s1 s2 : str),
  ~ In 63%Z b -> ~ In 35%Z b ->
  (s1 = [] \/ hd_error s1 = Some 63%Z \/ hd_error s1 = Some 35%Z) ->
  (s2 = [] \/ hd_error s2 = Some 63%Z \/ hd_error s2 = Some 35%Z) ->
  Url.generate_unique_id str_lower is_alnum nfkc bracketed_netloc_invalid (b ++ s1)
  = Url.generate_unique_id str_lower is_alnum nfkc bracketed_netloc_invalid (b ++ s2).
Proof.
  intros str_lower is_alnum nfkc bni b s1 s2 Hq Hh H1 H2.
  rewrite (generate_unique_id_suffix str_lower is_alnum nfkc bni b s1 Hq Hh H1).
  rewrite (generate_unique_id_suffix str_lower is_alnum nfkc bni b s2 Hq Hh H2).
  reflexivity.
Qed.

Lemma C9_query_fragment_ignored_witness :
  Url.generate_unique_id (map ascii_lower) ascii_isalnum (fun u => u) (fun _ => false)
    (s2l "https://Blog.example.com/Posts/42" ++ s2l "?utm=feed")
  = Url.generate_unique_id (map ascii_lower) ascii_isalnum (fun u => u) (fun _ => false)
    (s2l "https://Blog.example.com/Posts/42" ++ s2l "#comments").
Proof.
  apply (C9_query_fragment_ignored (map ascii_lower) ascii_isalnum (fun u => u) (fun _ => false));
    simpl; intuition discriminate.
Defined.

(** ** The whitespace steps of [clean_content] *)

Lemma sp_tab_space : forall c, is_sp_tab c = true -> isspace c = true.
Proof.
  intros c H; unfold is_sp_tab in H; apply orb_true_iff in H;
    destruct H as [H|H]; apply Z.eqb_eq in H; subst; reflexivity.
Qed.

Lemma nonspace_not_nl : forall c, isspace c = false -> c <> 10%Z.
Proof. intros c H E; subst; discriminate. Qed.

Lemma nonspace_not_sp_tab : forall c, isspace c = false -> is_sp_tab c = false.
Proof.
  intros c H; destruct (is_sp_tab c) eqn:E; [|reflexivity].
  rewrite (sp_tab_space c E) in H; discriminate.
Qed.

Lemma sub_newlines_split : forall w c r k, c <> 10%Z ->
  sub_newlines_aux k (w ++ c :: r) = sub_newlines_aux k w ++ c :: sub_newlines_aux 0 r.
Proof.
  induction w as [|d w IH]; intros c r k Hc; simpl.
  - apply Z.eqb_neq in Hc; rewrite Hc; reflexivity.
  - destruct (Z.eqb d 10); [apply IH; exact Hc|].
    rewrite IH by exact Hc; rewrite <- app_assoc; reflexivity.
Qed.

Lemma sub_blank_split : forall w c r run, isspace c = false ->
  sub_blank_lines_aux run (w ++ c :: r)
  = sub_blank_lines_aux run w ++ c :: sub_blank_lines_aux [] r.
Proof.
  induction w as [|d w IH]; intros c r run Hc; simpl.
  - rewrite Hc; reflexivity.
  - destruct (isspace d); [apply IH; exact Hc|].
    rewrite IH by exact Hc; rewrite <- app_assoc; reflexivity.
Qed.

Lemma sub_spaces_split : forall w c r b, is_sp_tab c = false ->
  sub_spaces_aux b (w ++ c :: r) = sub_spaces_aux b w ++ c :: sub_spaces_aux false r.
Proof.
  induction w as [|d w IH]; intros c r b Hc; simpl.
  - rewrite Hc; reflexivity.
  - destruct (is_sp_tab d); [destruct b; simpl; rewrite IH by exact Hc; reflexivity|].
    rewrite IH by exact Hc; reflexivity.
Qed.

Lemma ws_normalize_split : forall w c r, isspace c = false ->
  ws_normalize (w ++ c :: r) = ws_normalize w ++ c :: ws_normalize r.
Proof.
  intros w c r Hc; unfold ws_normalize, sub_spaces, sub_blank_lines, sub_newlines.
  rewrite (sub_newlines_split w c r 0 (nonspace_not_nl c Hc)).
  rewrite (sub_blank_split _ c _ [] Hc).
  rewrite (sub_spaces_split _ c _ false (nonspace_not_sp_tab c Hc)).
  reflexivity.
Qed.

Lemma ws_normalize_nil : ws_normalize [] = [].
Proof. reflexivity. Qed.

Lemma In_repeat_eq : forall (x a : Z) n, In x (repeat a n) -> x = a.
Proof.
  induction n as [|n IH]; simpl; [tauto|]. intros [H|H]; [auto|auto].
Qed.

Lemma sub_newlines_In : forall l k x, In x (sub_newlines_aux k l) -> x = 10%Z \/ In x l.
Proof.
  induction l as [|d l IH]; intros k x H; simpl in H.
  - left; exact (In_repeat_eq _ _ _ H).
  - destruct (Z.eqb d 10).
    + destruct (IH _ _ H) as [E|E]; [left; exact E|right; right; exact E].
    + apply in_app_or in H; destruct H as [H|[H|H]].
      * left; exact (In_repeat_eq _ _ _ H).
      * right; left; exact H.
      * destruct (IH _ _ H) as [E|E]; [left; exact E|right; right; exact E].
Qed.

Lemma count_while_prefix : forall p l x,
  In x (firstn (count_while p l) l) -> p x = true.
Proof.
  intros p l; induction l as [|c l IH]; intros x H; simpl in H; [destruct H|].
  destruct (p c) eqn:E; simpl in H; [|destruct H].
  destruct H as [H|H]; [subst; exact E|exact (IH _ H)].
Qed.

Lemma flush_run_In : forall run x, In x (flush_run run) -> x = 10%Z \/ In x run.
Proof.
  intros run x H; unfold flush_run in H.
  destruct (2 <=? count_nl run)%nat; [|right; exact H].
  apply in_app_or in H; destruct H as [H|[H|[H|H]]].
  - right; exact (In_firstn _ _ _ H).
  - left; auto.
  - left; auto.
  - right; apply in_rev in H; apply In_firstn in H; apply in_rev; exact H.
Qed.

Lemma sub_blank_In : forall l run x, In x (sub_blank_lines_aux run l) ->
  x = 10%Z \/ In x run \/ In x l.
Proof.
  induction l as [|d l IH]; intros run x H; simpl in H.
  - destruct (flush_run_In _ _ H) as [E|E]; auto.
  - destruct (isspace d).
    + destruct (IH _ _ H) as [E|[E|E]]; [auto| |right; right; right; exact E].
      apply in_app_or in E; destruct E as [E|[E|[]]]; [auto|subst; right; right; left; reflexivity].
    + apply in_app_or in H; destruct H as [H|[H|H]].
      * destruct (flush_run_In _ _ H) as [E|E]; auto.
      * subst; right; right; left; reflexivity.
      * destruct (IH _ _ H) as [E|[[]|E]]; [auto|right; right; right; exact E].
Qed.

Lemma sub_spaces_In : forall l b x, In x (sub_spaces_aux b l) -> x = 32%Z \/ In x l.
Proof.
  induction l as [|d l IH]; intros b x H; simpl in H; [destruct H|].
  destruct (is_sp_tab d); [destruct b; [|destruct H as [H|H]; [left; auto|]]|].
  - destruct (IH _ _ H) as [E|E]; [left; exact E|right; right; exact E].
  - destruct (IH _ _ H) as [E|E]; [left; exact E|right; right; exact E].
  - destruct H as [H|H]; [right; left; exact H|].
    destruct (IH _ _ H) as [E|E]; [left; exact E|right; right; exact E].
Qed.

Lemma ws_normalize_In : forall l x, In x (ws_normalize l) ->
  x = 10%Z \/ x = 32%Z \/ In x l.
Proof.
  intros l x H; unfold ws_normalize, sub_spaces, sub_blank_lines, sub_newlines in H.
  destruct (sub_spaces_In _ _ _ H) as [E|E]; [auto|].
  destruct (sub_blank_In _ _ _ E) as [E'|[[]|E']]; [auto|].
  destruct (sub_newlines_In _ _ _ E') as [E''|E'']; auto.
Qed.

Lemma all_space_In : forall l, all_space l = true <-> (forall x, In x l -> isspace x = true).
Proof. intros l; unfold all_space; apply forallb_forall. Qed.

Lemma ws_normalize_all_space : forall l, all_space l = true -> all_space (ws_normalize l) = true.
Proof.
  intros l H; apply all_space_In; intros x Hx.
  destruct (ws_normalize_In _ _ Hx) as [E|[E|E]]; [subst; reflexivity|subst; reflexivity|].
  exact (proj1 (all_space_In l) H x E).
Qed.

Lemma sub_blank_run : forall w run, all_space w = true ->
  sub_blank_lines_aux run w = flush_run (run ++ w).
Proof.
  induction w as [|d w IH]; intros run H; simpl.
  - rewrite app_nil_r; reflexivity.
  - unfold all_space in H; simpl in H; apply andb_true_iff in H; destruct H as [Hd Hw].
    rewrite Hd, IH by exact Hw; rewrite <- app_assoc; reflexivity.
Qed.

Lemma count_nl_app : forall a b, count_nl (a ++ b) = (count_nl a + count_nl b)%nat.
Proof. intros a b; unfold count_nl; rewrite filter_app, length_app; reflexivity. Qed.

Lemma count_nl_cons_nl : forall l, count_nl (10%Z :: l) = S (count_nl l).
Proof. reflexivity. Qed.

Lemma count_nl_none : forall l, (forall x, In x l -> x <> 10%Z) -> count_nl l = O.
Proof.
  induction l as [|d l IH]; intros H; [reflexivity|].
  unfold count_nl; simpl.
  assert (Hd : Z.eqb d 10 = false) by (apply Z.eqb_neq, H; left; reflexivity).
  rewrite Hd; apply IH; intros x Hx; apply H; right; exact Hx.
Qed.

Lemma count_nl_pos : forall l, ~ In 10%Z l -> count_nl l = O.
Proof. intros l H; apply count_nl_none; intros x Hx E; subst; contradiction. Qed.

Lemma count_while_nl_prefix : forall l x,
  In x (firstn (count_while (fun c => negb (Z.eqb c 10)) l) l) -> x <> 10%Z.
Proof.
  intros l x H E; apply count_while_prefix in H; subst; discriminate.
Qed.

Lemma flush_run_shape : forall run,
  (flush_run run = run /\ (count_nl run < 2)%nat)
  \/ exists p s, flush_run run = p ++ 10%Z :: 10%Z :: s /\ ~ In 10%Z p /\ ~ In 10%Z s.
Proof.
  intros run; unfold flush_run.
  destruct (2 <=? count_nl run)%nat eqn:E.
  - right; eexists; eexists; split; [reflexivity|split].
    + intros H; exact (count_while_nl_prefix _ _ H eq_refl).
    + intros H; apply in_rev in H; exact (count_while_nl_prefix _ _ H eq_refl).
  - left; split; [reflexivity|apply Nat.leb_gt in E; exact E].
Qed.

Lemma flush_run_count : forall run, (count_nl (flush_run run) <= 2)%nat.
Proof.
  intros run; destruct (flush_run_shape run) as [[E C]|(p & s & E & Hp & Hs)]; rewrite E.
  - lia.
  - rewrite count_nl_app, count_nl_cons_nl, count_nl_cons_nl, count_nl_pos, count_nl_pos
      by assumption; lia.
Qed.

Lemma count_nl_sub_spaces : forall l b, count_nl (sub_spaces_aux b l) = count_nl l.
Proof.
  induction l as [|d l IH]; intros b; [reflexivity|]; simpl.
  destruct (is_sp_tab d) eqn:E.
  - assert (Hd : Z.eqb d 10 = false).
    { unfold is_sp_tab in E; apply orb_true_iff in E;
        destruct E as [E|E]; apply Z.eqb_eq in E; subst; reflexivity. }
    unfold count_nl in *; simpl; rewrite Hd.
    destruct b; simpl; rewrite IH; reflexivity.
  - unfold count_nl in *; simpl; destruct (Z.eqb d 10); simpl; rewrite IH; reflexivity.
Qed.

Lemma no_triple_of_count : forall l, (count_nl l <= 2)%nat -> no_triple_nl l.
Proof.
  intros l H a b E; subst.
  rewrite count_nl_app, !count_nl_cons_nl in H; lia.
Qed.

Lemma repeat_S_app : forall (a : Z) k r, repeat a (S k) ++ r = repeat a k ++ a :: r.
Proof. intros a k; induction k as [|k IH]; intros r; [reflexivity|]. simpl; rewrite <- IH; reflexivity. Qed.

Lemma sub_newlines_id : forall l k, (k <= 2)%nat ->
  no_triple_nl (repeat 10%Z k ++ l) -> sub_newlines_aux k l = repeat 10%Z k ++ l.
Proof.
  induction l as [|d l IH]; intros k Hk Hn; simpl.
  - unfold collapse; replace (3 <=? k)%nat with false by (symmetry; apply Nat.leb_gt; lia).
    rewrite app_nil_r; reflexivity.
  - destruct (Z.eqb_spec d 10) as [Ed|Ed].
    + subst d.
      assert (Hk' : (S k <= 2)%nat).
      { destruct (Nat.eq_dec k 2) as [->|Nk]; [|lia].
        exfalso; apply (Hn [] l); reflexivity. }
      rewrite IH by (exact Hk' || (rewrite repeat_S_app; exact Hn)).
      apply repeat_S_app.
    + unfold collapse; replace (3 <=? k)%nat with false by (symmetry; apply Nat.leb_gt; lia).
      rewrite (IH 0%nat) by (lia || (intros a b E; simpl in E; subst l;
        apply (Hn (repeat 10%Z k ++ d :: a) b); rewrite <- app_assoc; reflexivity)).
      reflexivity.
Qed.

Lemma count_while_app : forall (f : Z -> bool) p c r,
  (forall x, In x p -> f x = true) -> f c = false -> count_while f (p ++ c :: r) = length p.
Proof.
  intros f; induction p as [|d p IH]; intros c r Hp Hc; simpl.
  - rewrite Hc; reflexivity.
  - rewrite (Hp d (or_introl eq_refl)), IH; [reflexivity| |exact Hc].
    intros x Hx; apply Hp; right; exact Hx.
Qed.

Lemma flush_run_fixed : forall p s, ~ In 10%Z p -> ~ In 10%Z s ->
  flush_run (p ++ 10%Z :: 10%Z :: s) = p ++ 10%Z :: 10%Z :: s.
Proof.
  intros p s Hp Hs; unfold flush_run.
  rewrite count_nl_app, !count_nl_cons_nl, !count_nl_pos by assumption; simpl.
  assert (Fp : forall x, In x p -> negb (Z.eqb x 10) = true).
  { intros x Hx; destruct (Z.eqb_spec x 10); [subst; contradiction|reflexivity]. }
  assert (Fs : forall x, In x (rev s) -> negb (Z.eqb x 10) = true).
  { intros x Hx; apply in_rev in Hx; destruct (Z.eqb_spec x 10); [subst; contradiction|reflexivity]. }
  rewrite (count_while_app _ p 10%Z _ Fp eq_refl).
  replace (rev (p ++ 10%Z :: 10%Z :: s)) with (rev s ++ 10%Z :: 10%Z :: rev p)
    by (simpl; rewrite rev_app_distr; simpl; rewrite <- !app_assoc; reflexivity).
  rewrite (count_while_app _ (rev s) 10%Z _ Fs eq_refl).
  rewrite <- (Nat.add_0_r (length p)), firstn_app_2, <- (Nat.add_0_r (length (rev s))), firstn_app_2.
  simpl; rewrite !app_nil_r, rev_involutive; reflexivity.
Qed.

Lemma sub_spaces_idem : forall l b, sub_spaces_aux b (sub_spaces_aux b l) = sub_spaces_aux b l.
Proof.
  induction l as [|d l IH]; intros b; [reflexivity|]; simpl.
  destruct (is_sp_tab d) eqn:E.
  - destruct b; [apply IH|]. simpl; rewrite IH; reflexivity.
  - simpl; rewrite E, IH; reflexivity.
Qed.

Lemma sub_newlines_all_space : forall w, all_space w = true -> all_space (sub_newlines w) = true.
Proof.
  intros w H; apply all_space_In; intros x Hx.
  destruct (sub_newlines_In _ _ _ Hx) as [E|E]; [subst; reflexivity|].
  exact (proj1 (all_space_In w) H x E).
Qed.

Lemma ws_normalize_run : forall w, all_space w = true ->
  ws_normalize w = sub_spaces (flush_run (sub_newlines w)).
Proof.
  intros w H; unfold ws_normalize, sub_blank_lines.
  rewrite sub_blank_run by (apply sub_newlines_all_space; exact H); reflexivity.
Qed.

Lemma ws_normalize_run_idem : forall w, all_space w = true ->
  ws_normalize (ws_normalize w) = ws_normalize w.
Proof.
  intros w H.
  assert (Hv : all_space (ws_normalize w) = true) by (apply ws_normalize_all_space; exact H).
  rewrite (ws_normalize_run (ws_normalize w) Hv).
  rewrite (ws_normalize_run w H) in *.
  set (u := sub_newlines w) in *.
  set (v := sub_spaces (flush_run u)) in *.
  assert (Cv : count_nl v = count_nl (flush_run u)) by apply count_nl_sub_spaces.
  assert (Nv : sub_newlines v = v).
  { unfold sub_newlines; apply (sub_newlines_id v 0%nat); [lia|].
    apply no_triple_of_count; simpl; rewrite Cv; apply flush_run_count. }
  rewrite Nv.
  assert (Fv : flush_run v = v).
  { destruct (flush_run_shape u) as [[E C]|(p & s & E & Hp & Hs)].
    - unfold flush_run; rewrite Cv, E.
      replace (2 <=? count_nl u)%nat with false by (symmetry; apply Nat.leb_gt; exact C).
      reflexivity.
    - unfold v; rewrite E; unfold sub_spaces.
      rewrite (sub_spaces_split p 10%Z _ false eq_refl).
      change (sub_spaces_aux false (10%Z :: s)) with (10%Z :: sub_spaces_aux false s).
      apply flush_run_fixed.
      + intros Hi; destruct (sub_spaces_In _ _ _ Hi) as [Ei|Ei]; [discriminate|contradiction].
      + intros Hi; destruct (sub_spaces_In _ _ _ Hi) as [Ei|Ei]; [discriminate|contradiction]. }
  rewrite Fv; unfold v, sub_spaces; apply sub_spaces_idem.
Qed.

Lemma space_split : forall l, all_space l = true \/
  exists w c r, l = w ++ c :: r /\ all_space w = true /\ isspace c = false.
Proof.
  induction l as [|d l IH]; [left; reflexivity|].
  destruct (isspace d) eqn:Ed.
  - destruct IH as [H|(w & c & r & E & Hw & Hc)].
    + left; unfold all_space; simpl; rewrite Ed; exact H.
    + right; exists (d :: w), c, r; subst; split; [reflexivity|split; [|exact Hc]].
      unfold all_space; simpl; rewrite Ed; exact Hw.
  - right; exists [], d, l; auto.
Qed.

Lemma ws_normalize_idem : forall l, ws_normalize (ws_normalize l) = ws_normalize l.
Proof.
  intros l; remember (length l) as n eqn:En; revert l En.
  induction n as [n IH] using (well_founded_induction lt_wf); intros l En.
  destruct (space_split l) as [H|(w & c & r & E & Hw & Hc)].
  - apply ws_normalize_run_idem; exact H.
  - subst l; rewrite !ws_normalize_split by exact Hc.
    rewrite ws_normalize_run_idem by exact Hw.
    rewrite (IH (length r)) by (reflexivity || (rewrite En, length_app; simpl; lia)).
    reflexivity.
Qed.

(** ** [str.strip] *)

Lemma lstrip_space_app : forall a l, all_space a = true -> lstrip (a ++ l) = lstrip l.
Proof.
  induction a as [|d a IH]; intros l H; [reflexivity|].
  unfold all_space in H; simpl in H; apply andb_true_iff in H; destruct H as [Hd Ha].
  simpl; rewrite Hd; apply IH; exact Ha.
Qed.

Lemma all_space_rev : forall l, all_space l = true -> all_space (rev l) = true.
Proof.
  intros l H; apply all_space_In; intros x Hx; apply in_rev in Hx.
  exact (proj1 (all_space_In l) H x Hx).
Qed.

Lemma strip_all_space : forall l, all_space l = true -> strip l = [].
Proof.
  intros l H; unfold strip.
  rewrite <- (app_nil_r l), lstrip_space_app by exact H; reflexivity.
Qed.

Lemma strip_one : forall a c b, all_space a = true -> all_space b = true -> isspace c = false ->
  strip (a ++ c :: b) = [c].
Proof.
  intros a c b Ha Hb Hc; unfold strip.
  rewrite lstrip_space_app by exact Ha; simpl; rewrite Hc; simpl.
  rewrite lstrip_space_app by (apply all_space_rev; exact Hb); simpl; rewrite Hc; reflexivity.
Qed.

Lemma strip_two : forall a c m d b, all_space a = true -> all_space b = true ->
  isspace c = false -> isspace d = false ->
  strip (a ++ c :: m ++ d :: b) = c :: m ++ [d].
Proof.
  intros a c m d b Ha Hb Hc Hd; unfold strip.
  rewrite lstrip_space_app by exact Ha.
  assert (E1 : lstrip (c :: m ++ d :: b) = c :: m ++ d :: b) by (simpl; rewrite Hc; reflexivity).
  rewrite E1.
  replace (rev (c :: m ++ d :: b)) with (rev b ++ d :: (rev m ++ [c]))
    by (simpl; rewrite rev_app_distr; simpl; rewrite <- !app_assoc; reflexivity).
  rewrite lstrip_space_app by (apply all_space_rev; exact Hb).
  assert (E2 : lstrip (d :: rev m ++ [c]) = d :: rev m ++ [c]) by (simpl; rewrite Hd; reflexivity).
  rewrite E2; simpl; rewrite rev_app_distr, rev_involutive; reflexivity.
Qed.

Lemma strip_split : forall l, all_space l = true
  \/ (exists a c b, l = a ++ c :: b /\ all_space a = true /\ all_space b = true /\ isspace c = false)
  \/ (exists a c m d b, l = a ++ c :: m ++ d :: b /\ all_space a = true /\ all_space b = true
        /\ isspace c = false /\ isspace d = false).
Proof.
  intros l; destruct (space_split l) as [H|(a & c & r & E & Ha & Hc)]; [left; exact H|right].
  destruct (space_split (rev r)) as [Hr|(w & d & r' & Er & Hw & Hd)].
  - left; exists a, c, r; repeat split; try assumption.
    rewrite <- (rev_involutive r); apply all_space_rev; exact Hr.
  - right; exists a, c, (rev r'), d, (rev w); repeat split; try assumption.
    + rewrite E; f_equal; f_equal.
      rewrite <- (rev_involutive r), Er, rev_app_distr; simpl; rewrite <- app_assoc; reflexivity.
    + apply all_space_rev; exact Hw.
Qed.

Lemma strip_idem : forall l, strip (strip l) = strip l.
Proof.
  intros l; destruct (strip_split l) as [H|[(a & c & b & E & Ha & Hb & Hc)|(a & c & m & d & b & E & Ha & Hb & Hc & Hd)]].
  - rewrite (strip_all_space l H); reflexivity.
  - subst; rewrite (strip_one a c b) by assumption.
    apply (strip_one [] c []); auto.
  - subst; rewrite (strip_two a c m d b) by assumption.
    apply (strip_two [] c m d []); auto.
Qed.

Lemma strip_infix : forall l, exists p q, l = p ++ strip l ++ q.
Proof.
  intros l; destruct (strip_split l) as [H|[(a & c & b & E & Ha & Hb & Hc)|(a & c & m & d & b & E & Ha & Hb & Hc & Hd)]].
  - exists l, []; rewrite strip_all_space by exact H; simpl; rewrite app_nil_r; reflexivity.
  - exists a, b; subst; rewrite strip_one by assumption; reflexivity.
  - exists a, b; subst; rewrite strip_two by assumption.
    simpl; rewrite <- app_assoc; reflexivity.
Qed.

Lemma ws_normalize_strip : forall l, ws_normalize (strip l) = strip (ws_normalize l).
Proof.
  intros l; destruct (strip_split l) as [H|[(a & c & b & E & Ha & Hb & Hc)|(a & c & m & d & b & E & Ha & Hb & Hc & Hd)]].
  - rewrite strip_all_space by exact H.
    rewrite strip_all_space by (apply ws_normalize_all_space; exact H); reflexivity.
  - subst; rewrite (strip_one a c b) by assumption.
    rewrite (ws_normalize_split a c b Hc).
    rewrite strip_one by (try apply ws_normalize_all_space; assumption).
    exact (ws_normalize_split [] c [] Hc).
  - subst; rewrite (strip_two a c m d b) by assumption.
    rewrite (ws_normalize_split a c _ Hc), (ws_normalize_split m d b Hd).
    rewrite strip_two by (try apply ws_normalize_all_space; assumption).
    change (c :: m ++ [d]) with ([] ++ c :: m ++ [d]).
    rewrite (ws_normalize_split [] c (m ++ [d]) Hc), (ws_normalize_split m d [] Hd).
    reflexivity.
Qed.

(** ** The other substitutions *)

Lemma sub_image_id : forall f l, ~ In 91%Z l -> sub_image f l = l.
Proof.
  induction f as [|f IH]; intros l H; [reflexivity|].
  destruct l as [|c r]; [reflexivity|].
  destruct (Z.eqb_spec 91 c) as [E|E]; [subst; destruct H; left; reflexivity|].
  assert (P : is_prefix (s2l "[CONTENT IMAGE:") (c :: r) = false).
  { change (s2l "[CONTENT IMAGE:") with (91%Z :: s2l "CONTENT IMAGE:"); cbn [is_prefix].
    apply Z.eqb_neq in E; rewrite E; reflexivity. }
  cbn [sub_image]; rewrite P, IH; [reflexivity|intros Hi; apply H; right; exact Hi].
Qed.

Lemma sub_brackets_id : forall f l, ~ In 91%Z l -> sub_brackets f l = l.
Proof.
  induction f as [|f IH]; intros l H; [reflexivity|].
  destruct l as [|c r]; [reflexivity|]; simpl.
  destruct (Z.eqb_spec c 91) as [E|E]; [subst; destruct H; left; reflexivity|].
  rewrite IH; [reflexivity|intros Hi; apply H; right; exact Hi].
Qed.

Lemma sub_source_id : forall f l, (forall k, match_source (skipn k l) = None) ->
  sub_source f l = l.
Proof.
  induction f as [|f IH]; intros l H; [reflexivity|].
  destruct l as [|c r]; [reflexivity|].
  assert (H0 : match_source (c :: r) = None) by exact (H 0%nat).
  cbn [sub_source]; rewrite H0, IH; [reflexivity|intros k; exact (H (S k))].
Qed.

Lemma sub_h2_id : forall f l, (forall k, is_prefix (s2l "H2:") (skipn k l) = false) ->
  sub_h2 f l = l.
Proof.
  induction f as [|f IH]; intros l H; [reflexivity|].
  destruct l as [|c r]; [reflexivity|].
  assert (H0 : is_prefix (s2l "H2:") (c :: r) = false) by exact (H 0%nat).
  cbn [sub_h2]; rewrite H0, IH; [reflexivity|intros k; exact (H (S k))].
Qed.

Lemma nonspace_run_In : forall l rest x, nonspace_run l = Some rest -> In x rest -> In x l.
Proof.
  intros [|c r] rest x H Hx; [discriminate|]; unfold nonspace_run in H.
  destruct (isspace c); [discriminate|]; injection H as <-.
  right; exact (In_skipn _ _ _ Hx).
Qed.

Lemma match_source_In : forall l rest x, match_source l = Some rest -> In x rest -> In x l.
Proof.
  intros l rest x H Hx; unfold match_source in H.
  destruct (is_prefix (s2l "Source:") l); [|discriminate].
  destruct (is_prefix (s2l "https://") _);
    [|destruct (is_prefix (s2l "http://") _); [|discriminate]];
    apply (nonspace_run_In _ _ _ H) in Hx; do 3 apply In_skipn in Hx; exact Hx.
Qed.

Lemma sub_source_In : forall f l x, In x (sub_source f l) -> In x l.
Proof.
  induction f as [|f IH]; intros l x H; [exact H|].
  destruct l as [|c r]; [exact H|]; simpl in H.
  destruct (match_source (c :: r)) as [rest|] eqn:E.
  - exact (match_source_In _ _ _ E (IH _ _ H)).
  - destruct H as [H|H]; [left; exact H|right; exact (IH _ _ H)].
Qed.

Lemma sub_h2_In : forall f l x, In x (sub_h2 f l) -> In x (s2l "## ") \/ In x l.
Proof.
  induction f as [|f IH]; intros l x H; [right; exact H|].
  destruct l as [|c r]; [right; exact H|]; cbn [sub_h2] in H.
  destruct (is_prefix (s2l "H2:") (c :: r)).
  - apply in_app_or in H; destruct H as [H|H]; [left; exact H|].
    destruct (IH _ _ H) as [E|E]; [left; exact E|].
    right; do 2 apply In_skipn in E; exact E.
  - destruct H as [H|H]; [right; left; exact H|].
    destruct (IH _ _ H) as [E|E]; [left; exact E|right; right; exact E].
Qed.

(** Without an opening bracket, [clean_content] cleans with the
    whitespace steps, [strip] and the two leading substitutions only. *)
Lemma clean_text_no_bracket : forall c, ~ In 91%Z c ->
  exists c3, ~ In 91%Z c3 /\ clean_text c = strip (ws_normalize c3).
Proof.
  intros c Hc; unfold clean_text.
  rewrite (sub_image_id _ c Hc).
  set (c3 := sub_h2 _ (sub_source _ c)).
  assert (H3 : ~ In 91%Z c3).
  { intros Hi; destruct (sub_h2_In _ _ _ Hi) as [E|E].
    - simpl in E; intuition discriminate.
    - exact (Hc (sub_source_In _ _ _ E)). }
  assert (H6 : ~ In 91%Z (ws_normalize c3)).
  { intros Hi; destruct (ws_normalize_In _ _ Hi) as [E|[E|E]]; [discriminate|discriminate|exact (H3 E)]. }
  exists c3; split; [exact H3|].
  rewrite (sub_brackets_id _ _ H6); reflexivity.
Qed.

Lemma strip_In : forall l x, In x (strip l) -> In x l.
Proof.
  intros l x H; destruct (strip_infix l) as (p & q & E).
  rewrite E; apply in_or_app; right; apply in_or_app; left; exact H.
Qed.

(** A text that [clean_content] produced from a text without an opening
    bracket is left unchanged by the cleaning steps, unless a [Source:] link
    or an [H2:] header appears in it. *)
Lemma clean_text_fixed : forall c, ~ In 91%Z c ->
  (forall k, match_source (skipn k (clean_text c)) = None) ->
  (forall k, is_prefix (s2l "H2:") (skipn k (clean_text c)) = false) ->
  clean_text (clean_text c) = clean_text c.
Proof.
  intros c Hc Hs Hh.
  destruct (clean_text_no_bracket c Hc) as (c3 & H3 & E).
  set (y := clean_text c) in *.
  assert (Hy : ~ In 91%Z y).
  { intros Hi; rewrite E in Hi; apply strip_In in Hi.
    destruct (ws_normalize_In _ _ Hi) as [F|[F|F]]; [discriminate|discriminate|exact (H3 F)]. }
  unfold clean_text at 1.
  rewrite (sub_image_id _ y Hy), (sub_source_id _ y Hs), (sub_h2_id _ y Hh).
  fold (ws_normalize y).
  assert (W : ws_normalize y = y).
  { rewrite E, ws_normalize_strip, ws_normalize_idem; reflexivity. }
  rewrite W, (sub_brackets_id _ y Hy), E; apply strip_idem.
Qed.

(** ** Brackets and newline runs in the output *)

Lemma upto_close_length : forall r rest, upto_close r = Some rest -> (length rest <= length r)%nat.
Proof.
  induction r as [|c r IH]; intros rest H; [discriminate|]; simpl in H.
  destruct (Z.eqb c 93); [injection H as <-; simpl; lia|].
  destruct (Z.eqb c 10); [discriminate|]; simpl; specialize (IH _ H); lia.
Qed.

Lemma upto_close_sub_brackets : forall f r, upto_close r = None ->
  upto_close (sub_brackets f r) = None.
Proof.
  induction f as [|f IH]; intros r H; [exact H|].
  destruct r as [|c r]; [reflexivity|]; simpl in H; simpl.
  destruct (Z.eqb_spec c 93) as [E93|E93]; [discriminate|].
  destruct (Z.eqb_spec c 10) as [E10|E10].
  - subst c; simpl; reflexivity.
  - destruct (Z.eqb_spec c 91) as [E91|E91].
    + rewrite H; simpl.
      apply Z.eqb_neq in E93; apply Z.eqb_neq in E10; rewrite E93, E10; apply IH; exact H.
    + simpl; apply Z.eqb_neq in E93; apply Z.eqb_neq in E10; rewrite E93, E10; apply IH; exact H.
Qed.

Lemma upto_close_none_nl : forall m b, upto_close (m ++ 93%Z :: b) = None -> In 10%Z m.
Proof.
  induction m as [|d m IH]; intros b H; simpl in H; [discriminate|].
  destruct (Z.eqb d 93); [discriminate|].
  destruct (Z.eqb_spec d 10) as [E|E]; [left; exact E|].
  right; exact (IH _ H).
Qed.

Lemma no_bracket_pair_cons : forall c t, c <> 91%Z -> no_bracket_pair t -> no_bracket_pair (c :: t).
Proof.
  intros c t Hc Ht [|d a] m b E; simpl in E; injection E as Ec Et.
  - subst; contradiction.
  - exact (Ht a m b Et).
Qed.

Lemma sub_brackets_no_pair : forall f l, (length l <= f)%nat -> no_bracket_pair (sub_brackets f l).
Proof.
  induction f as [|f IH]; intros l Hl.
  - destruct l; [|simpl in Hl; lia]. intros [|d a] m b E; discriminate.
  - destruct l as [|c r]; [intros [|d a] m b E; discriminate|]; simpl in Hl; simpl.
    destruct (Z.eqb_spec c 91) as [E91|E91].
    + destruct (upto_close r) as [rest|] eqn:U.
      * apply IH; apply upto_close_length in U; lia.
      * intros [|d a] m b E; simpl in E; injection E as Ec Et.
        -- apply (upto_close_none_nl m b); rewrite <- Et; apply upto_close_sub_brackets; exact U.
        -- apply (IH r ltac:(lia) a m b Et).
    + apply no_bracket_pair_cons; [exact E91|apply IH; lia].
Qed.

Lemma no_bracket_pair_infix : forall p l q, no_bracket_pair (p ++ l ++ q) -> no_bracket_pair l.
Proof.
  intros p l q H a m b E; apply (H (p ++ a) m (b ++ q)); subst l.
  rewrite <- !app_assoc; simpl; rewrite <- app_assoc; reflexivity.
Qed.

Lemma clean_text_no_pair : forall c, no_bracket_pair (clean_text c).
Proof.
  intros c; unfold clean_text.
  match goal with |- no_bracket_pair (strip ?t) =>
    destruct (strip_infix t) as (p & q & E);
    apply (no_bracket_pair_infix p _ q); rewrite <- E end.
  apply sub_brackets_no_pair; lia.
Qed.

Lemma no_triple_join : forall x c z, no_triple_nl x -> no_triple_nl z -> c <> 10%Z ->
  no_triple_nl (x ++ c :: z).
Proof.
  intros x c z Hx Hz Hc a b E.
  destruct (app_eq_app _ _ _ _ E) as [l [[E1 E2]|[E1 E2]]].
  - destruct l as [|u [|v [|w l]]]; simpl in E2; injection E2; intros; subst; try contradiction.
    apply (Hx a l); reflexivity.
  - destruct l as [|u l]; simpl in E2; injection E2; intros; subst; [contradiction|].
    apply (Hz l b); reflexivity.
Qed.

Lemma no_triple_infix : forall p l q, no_triple_nl (p ++ l ++ q) -> no_triple_nl l.
Proof.
  intros p l q H a b E; apply (H (p ++ a) (b ++ q)); subst l.
  rewrite <- !app_assoc; reflexivity.
Qed.

Lemma ws_normalize_no_triple : forall l, no_triple_nl (ws_normalize l).
Proof.
  intros l; remember (length l) as n eqn:En; revert l En.
  induction n as [n IH] using (well_founded_induction lt_wf); intros l En.
  destruct (space_split l) as [H|(w & c & r & E & Hw & Hc)].
  - rewrite (ws_normalize_run l H); apply no_triple_of_count.
    unfold sub_spaces; rewrite count_nl_sub_spaces; apply flush_run_count.
  - subst l; rewrite ws_normalize_split by exact Hc.
    apply no_triple_join; [| |exact (nonspace_not_nl c Hc)].
    + rewrite (ws_normalize_run w Hw); apply no_triple_of_count.
      unfold sub_spaces; rewrite count_nl_sub_spaces; apply flush_run_count.
    + apply (IH (length r)); [rewrite En, length_app; simpl; lia|reflexivity].
Qed.

Lemma clean_text_no_triple : forall c, ~ In 91%Z c -> no_triple_nl (clean_text c).
Proof.
  intros c Hc; destruct (clean_text_no_bracket c Hc) as (c3 & _ & ->).
  destruct (strip_infix (ws_normalize c3)) as (p & q & E).
  apply (no_triple_infix p _ q); rewrite <- E; apply ws_normalize_no_triple.
Qed.

Lemma clean_content_inl : forall x y, clean_content x = inl y -> exists c, y = clean_text c.
Proof.
  intros x y H; unfold clean_content in H.
  destruct (json_loads x) as [[]|[]]; try discriminate;
    try (injection H as <-; eexists; reflexivity).
  destruct (dict_get _ _) as [[]|]; try discriminate; injection H as <-; eexists; reflexivity.
Qed.

Lemma all_suffixes_spec : forall p l, all_suffixes p l = true -> forall k, p (skipn k l) = true.
Proof.
  intros p; induction l as [|c l IH]; intros H k; simpl in H; apply andb_true_iff in H;
    destruct H as [H1 H2]; destruct k as [|k]; try exact H1.
  exact (IH H2 k).
Qed.

Lemma not_In_of_existsb : forall (x : Z) l, existsb (Z.eqb x) l = false -> ~ In x l.
Proof.
  intros x l H Hi; assert (existsb (Z.eqb x) l = true) by (apply existsb_exists; exists x; split; [exact Hi|apply Z.eqb_refl]).
  congruence.
Qed.

(** ** C3: idempotence of [clean_content] *)

(** C3 (counterexample): [clean_content] is not idempotent.  On the raw text
    [H[]2:] the bracket pass removes [[]] and leaves [H2:]; cleaning that
    output again turns the header marker into [##]. *)
Lemma C3_bracket_exposes_header :
  clean_content (txt "H[]2:") = inl (s2l "H2:")
  /\ clean_content (s2l "H2:") = inl (s2l "##").
Proof. split; vm_compute; reflexivity. Qed.

(** C3 (amended): let [clean_content(x)] return the cleaning [clean_text c]
    of a text [c] (the input, or its [content] field).  If [c] has no
    opening square bracket, the output contains no [Source:] link match and
    no [H2:] at any position, and the output is not a JSON document, then
    cleaning the output again gives the same result:
    [clean_content(clean_content(x)) == clean_content(x)]. *)
Theorem C3_clean_content_idempotent_cases :
  forall x c, clean_content x = inl (clean_text c) ->
  ~ In 91%Z c ->
  (forall k, match_source (skipn k (clean_text c)) = None) ->
  (forall k, is_prefix (s2l "H2:") (skipn k (clean_text c)) = false) ->
  (exists m p, json_loads (clean_text c) = inr (JSONDecodeError m p)) ->
  clean_content (clean_text c) = clean_content x.
Proof.
  intros x c Hx Hc Hs Hh (m & p & Hj).
  rewrite Hx; unfold clean_content; rewrite Hj.
  rewrite (clean_text_fixed c Hc Hs Hh); reflexivity.
Qed.

Lemma C3_clean_content_idempotent_cases_witness :
  clean_content (clean_text (txt "Hello   world~~~~Bye"))
  = clean_content (txt "Hello   world~~~~Bye").
Proof.
  apply (C3_clean_content_idempotent_cases (txt "Hello   world~~~~Bye") (txt "Hello   world~~~~Bye")).
  - vm_compute; reflexivity.
  - apply not_In_of_existsb; vm_compute; reflexivity.
  - intros k.
    generalize (all_suffixes_spec (fun s => match match_source s with None => true | Some _ => false end)
      (clean_text (txt "Hello   world~~~~Bye")) ltac:(vm_compute; reflexivity) k).
    cbv beta; destruct (match_source _); [discriminate|reflexivity].
  - intros k.
    generalize (all_suffixes_spec (fun s => negb (is_prefix (s2l "H2:") s))
      (clean_text (txt "Hello   world~~~~Bye")) ltac:(vm_compute; reflexivity) k).
    cbv beta; destruct (is_prefix _ _); [discriminate|reflexivity].
  - eexists; eexists; vm_compute; reflexivity.
Defined.

(** ** C4: brackets and blank lines in the output of [clean_content] *)

(** C4 (counterexample): removing [[x]] between a blank line and a newline
    joins them into three consecutive newlines, and a bracketed fragment
    that spans a newline is kept (the [.] of [\[.*?\]] does not match a
    newline). *)
Lemma C4_bracket_removal_joins_newlines :
  clean_content (txt "a~~[x]~b") = inl (txt "a~~~b")
  /\ clean_content (txt "x[~]") = inl (txt "x[~]").
Proof. split; vm_compute; reflexivity. Qed.

(** C4 (amended): every string returned by [clean_content] has a newline
    inside each [[...]] fragment it contains (no fragment on one line is
    left), and when the text [c] it cleaned has no opening square bracket,
    the output has no three consecutive newlines. *)
Theorem C4_clean_content_output_shape :
  (forall x y, clean_content x = inl y ->
     forall a m b, y = a ++ 91%Z :: m ++ 93%Z :: b -> In 10%Z m)
  /\ (forall x c, clean_content x = inl (clean_text c) -> ~ In 91%Z c ->
     forall a b, clean_text c <> a ++ 10%Z :: 10%Z :: 10%Z :: b).
Proof.
  split.
  - intros x y H; destruct (clean_content_inl x y H) as [c ->]; apply clean_text_no_pair.
  - intros x c _ Hc; apply clean_text_no_triple; exact Hc.
Qed.

(** ** C8: the Decimal arithmetic of [CostTracker] *)

Section CostArith.

Import Dec.
Local Open Scope Z_scope.

Lemma digits_aux_le : forall f n k, 0 <= n < 10 ^ k -> 1 <= k -> digits_aux f n <= k.
Proof.
  induction f as [|f IH]; intros n k Hn Hk; cbn [digits_aux]; [exact Hk|].
  destruct (Z.ltb_spec n 10) as [L|L]; [exact Hk|].
  assert (K : 2 <= k).
  { destruct (Z.eq_dec k 1) as [->|N]; [simpl in Hn; lia|lia]. }
  assert (P : 10 ^ k = 10 * 10 ^ (k - 1))
    by (rewrite <- Z.pow_succ_r by lia; f_equal; lia).
  assert (IHn : digits_aux f (n / 10) <= k - 1).
  { apply IH; [split; [apply Z.div_pos; lia|apply Z.div_lt_upper_bound; lia]|lia]. }
  lia.
Qed.

Lemma ndigits_le : forall n k, 0 <= n < 10 ^ k -> 1 <= k -> ndigits n <= k.
Proof. intros n k Hn Hk; unfold ndigits; apply digits_aux_le; assumption. Qed.

Lemma ndigits_ge : forall n, 1 <= ndigits n.
Proof.
  intros n; unfold ndigits; generalize (Z.to_nat (Z.log2 n + 1)) as f; intros f; revert n.
  induction f as [|f IH]; intros n; cbn [digits_aux]; [lia|].
  destruct (n <? 10); [lia|specialize (IH (n / 10)); lia].
Qed.

Lemma fix_id : forall d, 0 <= coef d < 10 ^ 28 -> fix_ d = d.
Proof.
  intros d H; unfold fix_.
  rewrite (Z.abs_eq (coef d)) by lia.
  replace (ndigits (coef d) <=? prec) with true; [reflexivity|].
  symmetry; apply Z.leb_le; apply ndigits_le; [exact H|unfold prec; lia].
Qed.

Lemma strip_zeros_spec : forall fuel q e ideal, 0 < q ->
  let '(q', e') := strip_zeros fuel q e ideal in
  0 < q' /\ e <= e' /\ q = q' * 10 ^ (e' - e) /\ (e <= ideal -> e' <= ideal)
  /\ (e <= ideal -> ideal - e <= Z.of_nat fuel -> e' = ideal \/ q' mod 10 <> 0).
Proof.
  induction fuel as [|f IH]; intros q e ideal Hq; simpl.
  - rewrite Z.sub_diag, Z.pow_0_r, Z.mul_1_r; repeat split; try lia.
  - destruct (Z.ltb_spec e ideal) as [L|L]; destruct (Z.eqb_spec (q mod 10) 0) as [M|M]; simpl.
    + assert (Q : q = 10 * (q / 10)) by (rewrite (Z.div_mod q 10) at 1 by lia; lia).
      assert (Hq' : 0 < q / 10) by lia.
      specialize (IH (q / 10) (e + 1) ideal Hq').
      destruct (strip_zeros f (q / 10) (e + 1) ideal) as [q' e'].
      destruct IH as (P1 & P2 & P3 & P4 & P5).
      repeat split; try lia.
      rewrite Q, P3; replace (e' - e) with (Z.succ (e' - (e + 1))) by lia.
      rewrite Z.pow_succ_r by lia; ring.
    + rewrite Z.sub_diag, Z.pow_0_r, Z.mul_1_r; repeat split; try lia.
    + rewrite Z.sub_diag, Z.pow_0_r, Z.mul_1_r; repeat split; try lia.
    + rewrite Z.sub_diag, Z.pow_0_r, Z.mul_1_r; repeat split; try lia.
Qed.

Lemma pow10_pos : forall k, 0 <= k -> 0 < 10 ^ k.
Proof. intros k Hk; apply Z.pow_pos_nonneg; lia. Qed.

Lemma div_int : forall i, 0 <= i < 10 ^ 28 ->
  coef (div (of_int i) (mkdec 1000000 0)) * 10 ^ (dexp (div (of_int i) (mkdec 1000000 0)) + 6) = i
  /\ -6 <= dexp (div (of_int i) (mkdec 1000000 0)) <= 0
  /\ 0 <= coef (div (of_int i) (mkdec 1000000 0)) <= i.
Proof.
  intros i Hi.
  destruct (Z.eq_dec i 0) as [->|Nz].
  { replace (div (of_int 0) (mkdec 1000000 0)) with (mkdec 0 0) by (vm_compute; reflexivity).
    cbn [coef dexp]; lia. }
  unfold div, of_int; cbn [coef dexp].
  assert (Sg : ((i <? 0) && (0 <? 1000000) || (0 <? i) && (1000000 <? 0))%bool = false).
  { rewrite (proj2 (Z.ltb_ge i 0)) by lia; rewrite andb_false_r; reflexivity. }
  rewrite Sg, (proj2 (Z.eqb_neq i 0) Nz).
  rewrite (Z.abs_eq i) by lia.
  change (Z.abs 1000000) with 1000000.
  change (ndigits 1000000) with 7.
  unfold prec.
  assert (Nd : 1 <= ndigits i <= 28) by (split; [apply ndigits_ge|apply ndigits_le; lia]).
  set (s := 7 - ndigits i + 28 + 1).
  assert (Hs : 8 <= s <= 35) by (unfold s; lia).
  rewrite (proj2 (Z.leb_le 0 s)) by lia.
  assert (E : i * 10 ^ s = i * 10 ^ (s - 6) * 1000000).
  { change 1000000 with (10 ^ 6); rewrite <- Z.mul_assoc, <- Z.pow_add_r by lia.
    f_equal; f_equal; lia. }
  rewrite E, Z.div_mul, Z.mod_mul by lia.
  change (0 =? 0) with true; cbv iota.
  replace (0 - 0 - (0 - 0 - s)) with s by lia.
  replace (0 - 0 - s) with (- s) by lia.
  replace (0 - 0) with 0 by lia.
  assert (Hq : 0 < i * 10 ^ (s - 6)) by (apply Z.mul_pos_pos; [lia|apply pow10_pos; lia]).
  generalize (strip_zeros_spec (Z.to_nat s) (i * 10 ^ (s - 6)) (- s) 0 Hq).
  destruct (strip_zeros (Z.to_nat s) (i * 10 ^ (s - 6)) (- s) 0) as [q' e'].
  intros (P1 & P2 & P3 & P4 & P5).
  specialize (P4 ltac:(lia)).
  specialize (P5 ltac:(lia) ltac:(rewrite Z2Nat.id by lia; lia)).
  assert (Ee : -6 <= e').
  { destruct (Z_lt_le_dec e' (-6)) as [L|L]; [exfalso|exact L].
    destruct P5 as [P5|P5]; [lia|].
    assert (Sp : 10 ^ (s - 6) = 10 ^ (e' - - s) * 10 ^ (-7 - e') * 10).
    { replace (s - 6) with ((e' - - s) + (-7 - e') + 1) by lia.
      rewrite !Z.pow_add_r, Z.pow_1_r by lia; ring. }
    rewrite Sp in P3.
    assert (Q : q' = i * 10 ^ (-7 - e') * 10).
    { apply (Z.mul_reg_r _ _ (10 ^ (e' - - s))); [generalize (pow10_pos (e' - - s)); lia|].
      rewrite <- P3; ring. }
    apply P5; rewrite Q; apply Z.mod_mul; lia. }
  assert (Iq : i = q' * 10 ^ (e' + 6)).
  { assert (Sp : 10 ^ (e' - - s) = 10 ^ (e' + 6) * 10 ^ (s - 6)) by (rewrite <- Z.pow_add_r by lia; f_equal; lia).
    rewrite Sp in P3.
    apply (Z.mul_reg_r _ _ (10 ^ (s - 6))); [generalize (pow10_pos (s - 6)); lia|].
    rewrite P3; ring. }
  assert (Qi : q' <= i).
  { rewrite Iq; generalize (pow10_pos (e' + 6) ltac:(lia)); nia. }
  rewrite fix_id by (cbn [coef]; lia).
  cbn [coef dexp]; rewrite Z.mul_1_l; repeat split; lia.
Qed.

Lemma mul_rate : forall d r i, coef d * 10 ^ (dexp d + 6) = i -> -6 <= dexp d ->
  0 <= coef d <= i -> 0 <= r -> r * i < 10 ^ 28 ->
  scaled8 (mul d (mkdec r (-2))) = r * i
  /\ -8 <= dexp (mul d (mkdec r (-2))) /\ 0 <= coef (mul d (mkdec r (-2))).
Proof.
  intros d r i Hv He Hc Hr Hb; unfold mul; cbn [coef dexp].
  rewrite fix_id by (cbn [coef]; nia).
  unfold scaled8; cbn [coef dexp].
  replace (dexp d + -2 + 8) with (dexp d + 6) by lia.
  repeat split; [rewrite <- Hv; ring|lia|nia].
Qed.

Lemma rescale_val : forall c d m, m <= d -> -8 <= m ->
  c * 10 ^ (d - m) * 10 ^ (m + 8) = c * 10 ^ (d + 8).
Proof.
  intros c d m H1 H2; rewrite <- Z.mul_assoc, <- Z.pow_add_r by lia; f_equal; f_equal; lia.
Qed.

Lemma scaled8_nonneg : forall d, 0 <= coef d -> -8 <= dexp d -> 0 <= scaled8 d.
Proof. intros d H1 H2; unfold scaled8; generalize (pow10_pos (dexp d + 8) ltac:(lia)); nia. Qed.

Lemma dexp_bound : forall d, 0 < coef d -> -8 <= dexp d -> scaled8 d < 10 ^ 28 ->
  dexp d < 20 /\ coef d < 10 ^ (20 - dexp d).
Proof.
  intros d Hc He Hs; unfold scaled8 in Hs.
  assert (Dx : dexp d < 20).
  { destruct (Z_lt_le_dec (dexp d) 20) as [L|L]; [exact L|exfalso].
    assert (10 ^ 28 <= 10 ^ (dexp d + 8)) by (apply Z.pow_le_mono_r; lia).
    nia. }
  split; [exact Dx|].
  apply (Z.mul_lt_mono_pos_r (10 ^ (dexp d + 8))); [apply pow10_pos; lia|].
  rewrite <- Z.pow_add_r by lia; replace (20 - dexp d + (dexp d + 8)) with 28 by lia; exact Hs.
Qed.

Lemma normalize_spec : forall a b, 0 < coef a -> 0 < coef b -> -8 <= dexp a -> -8 <= dexp b ->
  scaled8 a < 10 ^ 28 -> scaled8 b < 10 ^ 28 ->
  let '(c1, c2, e) := normalize a b in
  e = Z.min (dexp a) (dexp b) /\ c1 = coef a * 10 ^ (dexp a - e) /\ c2 = coef b * 10 ^ (dexp b - e).
Proof.
  intros a b Ha Hb Ea Eb Sa Sb.
  destruct (dexp_bound a Ha Ea Sa) as [Da Ca].
  destruct (dexp_bound b Hb Eb Sb) as [Db Cb].
  assert (La : ndigits (Z.abs (coef a)) <= 20 - dexp a)
    by (rewrite Z.abs_eq by lia; apply ndigits_le; lia).
  assert (Lb : ndigits (Z.abs (coef b)) <= 20 - dexp b)
    by (rewrite Z.abs_eq by lia; apply ndigits_le; lia).
  generalize (ndigits_ge (Z.abs (coef a))) (ndigits_ge (Z.abs (coef b))); intros Ga Gb.
  unfold normalize; destruct (Z.ltb_spec (dexp a) (dexp b)) as [L|L]; cbv iota zeta.
  - rewrite (proj2 (Z.ltb_ge _ _)) by (unfold prec; lia).
    rewrite Z.min_l by lia; rewrite Z.sub_diag, Z.pow_0_r, Z.mul_1_r; auto.
  - rewrite (proj2 (Z.ltb_ge _ _)) by (unfold prec; lia).
    rewrite Z.min_r by lia; rewrite Z.sub_diag, Z.pow_0_r, Z.mul_1_r; auto.
Qed.

Lemma add_exact : forall a b, 0 <= coef a -> 0 <= coef b -> -8 <= dexp a -> -8 <= dexp b ->
  scaled8 a + scaled8 b < 10 ^ 28 ->
  scaled8 (add a b) = scaled8 a + scaled8 b /\ -8 <= dexp (add a b) /\ 0 <= coef (add a b).
Proof.
  intros a b Ha Hb Ea Eb S.
  generalize (scaled8_nonneg a Ha Ea) (scaled8_nonneg b Hb Eb); intros Na Nb.
  unfold add.
  destruct (Z.eqb_spec (coef a) 0) as [A0|A0]; destruct (Z.eqb_spec (coef b) 0) as [B0|B0];
    cbn [andb].
  - rewrite fix_id by (cbn [coef]; lia).
    unfold scaled8; cbn [coef dexp]; rewrite A0, B0; repeat split; lia.
  - destruct (dexp_bound b ltac:(lia) Eb ltac:(lia)) as [Db _].
    unfold prec; rewrite Z.max_l by lia.
    unfold rescale_down.
    assert (V : coef b * 10 ^ (dexp b - Z.min (dexp a) (dexp b)) * 10 ^ (Z.min (dexp a) (dexp b) + 8)
                = scaled8 b) by (apply rescale_val; lia).
    generalize (pow10_pos (dexp b - Z.min (dexp a) (dexp b)) ltac:(lia))
               (pow10_pos (Z.min (dexp a) (dexp b) + 8) ltac:(lia)); intros P1 P2.
    rewrite fix_id by (cbn [coef]; nia).
    unfold scaled8 at 1; cbn [coef dexp]; rewrite V.
    unfold scaled8; rewrite A0; repeat split; nia.
  - destruct (dexp_bound a ltac:(lia) Ea ltac:(lia)) as [Da _].
    unfold prec; rewrite Z.max_l by lia.
    unfold rescale_down.
    assert (V : coef a * 10 ^ (dexp a - Z.min (dexp a) (dexp b)) * 10 ^ (Z.min (dexp a) (dexp b) + 8)
                = scaled8 a) by (apply rescale_val; lia).
    generalize (pow10_pos (dexp a - Z.min (dexp a) (dexp b)) ltac:(lia))
               (pow10_pos (Z.min (dexp a) (dexp b) + 8) ltac:(lia)); intros P1 P2.
    rewrite fix_id by (cbn [coef]; nia).
    unfold scaled8 at 1; cbn [coef dexp]; rewrite V.
    assert (Z0 : scaled8 b = 0) by (unfold scaled8; rewrite B0; ring).
    repeat split; nia.
  - generalize (normalize_spec a b ltac:(lia) ltac:(lia) Ea Eb ltac:(lia) ltac:(lia)).
    destruct (normalize a b) as [[c1 c2] e]; intros (Ee & E1 & E2).
    assert (V1 : c1 * 10 ^ (e + 8) = scaled8 a) by (rewrite E1; apply rescale_val; lia).
    assert (V2 : c2 * 10 ^ (e + 8) = scaled8 b) by (rewrite E2; apply rescale_val; lia).
    generalize (pow10_pos (e + 8) ltac:(lia)) (pow10_pos (dexp a - e) ltac:(lia))
      (pow10_pos (dexp b - e) ltac:(lia)); intros P P1 P2.
    assert (C1 : 0 <= c1) by (rewrite E1; nia).
    assert (C2 : 0 <= c2) by (rewrite E2; nia).
    rewrite fix_id by (cbn [coef]; nia).
    unfold scaled8 at 1; cbn [coef dexp]; repeat split; nia.
Qed.

Lemma rate_cost : forall i r, 0 <= i -> 0 < r -> r * i < 10 ^ 28 ->
  scaled8 (mul (div (of_int i) (mkdec 1000000 0)) (mkdec r (-2))) = r * i
  /\ -8 <= dexp (mul (div (of_int i) (mkdec 1000000 0)) (mkdec r (-2)))
  /\ 0 <= coef (mul (div (of_int i) (mkdec 1000000 0)) (mkdec r (-2))).
Proof.
  intros i r Hi Hr Hb.
  assert (Hi' : i < 10 ^ 28) by nia.
  destruct (div_int i ltac:(lia)) as (V & E & C).
  apply mul_rate with (i := i); try lia; assumption.
Qed.

(** C8 (counterexample): an input of 10^28 + 1 tokens has 29 digits, so
    [Decimal(input_tokens) / Decimal('1000000')] is rounded to 28
    significant digits: the cost added is [3E+22] instead of
    [30000000000000000000000.000003]. *)
Lemma C8_large_input_rounded :
  cost (add_usage init (10 ^ 28 + 1) 0) = mkdec (3 * 10 ^ 27) (-5)
  /\ scaled8 (cost (add_usage init (10 ^ 28 + 1) 0))
     <> scaled8 (cost init) + 300 * (10 ^ 28 + 1) + 1500 * 0.
Proof. split; [vm_compute; reflexivity|vm_compute; discriminate]. Qed.

(** C8 (amended): counted in units of 10^-8 ([scaled8]), [add_usage(i, o)]
    increases the cost by exactly [300 * i + 1500 * o], that is
    [(i / 1,000,000) * 3.00 + (o / 1,000,000) * 15.00], and adds [i] and [o]
    to the token counters, provided the token counts are nonnegative, the
    cost is a nonnegative decimal with at most 8 decimal places, and the new
    total stays below 10^28 units (so that no operation rounds at 28
    significant digits); after [reset()] the cost and both counters are
    zero. *)
Theorem C8_add_usage_exact :
  forall t i o, 0 <= i -> 0 <= o -> 0 <= coef (cost t) -> -8 <= dexp (cost t) ->
  scaled8 (cost t) + 300 * i + 1500 * o < 10 ^ 28 ->
  scaled8 (cost (add_usage t i o)) = scaled8 (cost t) + 300 * i + 1500 * o
  /\ -8 <= dexp (cost (add_usage t i o)) /\ 0 <= coef (cost (add_usage t i o))
  /\ input_tokens (add_usage t i o) = input_tokens t + i
  /\ output_tokens (add_usage t i o) = output_tokens t + o
  /\ scaled8 (cost (reset (add_usage t i o))) = 0
  /\ input_tokens (reset (add_usage t i o)) = 0 /\ output_tokens (reset (add_usage t i o)) = 0.
Proof.
  intros t i o Hi Ho Hc He Hb.
  generalize (scaled8_nonneg (cost t) Hc He); intros Nc.
  destruct (rate_cost i 300 Hi ltac:(lia) ltac:(lia)) as (Vi & Ei & Ci).
  destruct (rate_cost o 1500 Ho ltac:(lia) ltac:(lia)) as (Vo & Eo & Co).
  destruct (add_exact _ _ Ci Co Ei Eo ltac:(lia)) as (V & E & C).
  destruct (add_exact _ _ Hc C He E ltac:(lia)) as (V' & E' & C').
  unfold add_usage; cbn [cost input_tokens output_tokens].
  repeat split; try assumption; try lia; try reflexivity.
Qed.

(** [add_usage(1_000_000, 1_000_000)] from a fresh tracker adds 18.00. *)
Lemma C8_add_usage_exact_witness :
  scaled8 (cost (add_usage init 1000000 1000000)) = 18 * 10 ^ 8
  /\ scaled8 (cost (reset (add_usage init 1000000 1000000))) = 0.
Proof.
  destruct (C8_add_usage_exact init 1000000 1000000 ltac:(lia) ltac:(lia)
              ltac:(cbn; lia) ltac:(cbn; lia) ltac:(vm_compute; reflexivity))
    as (V & _ & _ & _ & _ & R & _).
  split; [rewrite V; vm_compute; reflexivity|exact R].
Defined.

End CostArith.

(* ================================================================== *)
(** * Further properties of the code *)

Section WordsProps.
Import Words.

Lemma skipn_count_while : forall p l,
  skipn (count_while p l) l = [] \/ exists c r, skipn (count_while p l) l = c :: r /\ p c = false.
Proof.
  intros p; induction l as [|c l IH]; [left; reflexivity|]; simpl.
  destruct (p c) eqn:E; [exact IH|right; exists c, l; split; [reflexivity|exact E]].
Qed.

Lemma count_while_le : forall p l, (count_while p l <= length l)%nat.
Proof. intros p; induction l as [|c l IH]; simpl; [lia|destruct (p c); simpl; lia]. Qed.

Lemma split_ws_fuel : forall f g l, (length l <= f)%nat -> (length l <= g)%nat ->
  split_ws f l = split_ws g l.
Proof.
  induction f as [|f IH]; intros g l Hf Hg.
  - destruct l; [|simpl in Hf; lia]. destruct g; reflexivity.
  - destruct g as [|g].
    + destruct l; [reflexivity|simpl in Hg; lia].
    + cbn [split_ws].
      destruct (skipn_count_while isspace l) as [E|(c & r & E & Hc)]; rewrite E; [reflexivity|].
      f_equal. apply IH.
      * assert (L : length (skipn (count_while isspace l) l) <= length l) by
          (rewrite length_skipn; lia).
        rewrite E in L. simpl. rewrite Hc. simpl. rewrite length_skipn. simpl in L. lia.
      * assert (L : length (skipn (count_while isspace l) l) <= length l) by
          (rewrite length_skipn; lia).
        rewrite E in L. simpl. rewrite Hc. simpl. rewrite length_skipn. simpl in L. lia.
Qed.

Lemma split_unfold : forall l, split l =
  match skipn (count_while isspace l) l with
  | [] => []
  | l1 => firstn (count_while (fun c => negb (isspace c)) l1) l1
          :: split (skipn (count_while (fun c => negb (isspace c)) l1) l1)
  end.
Proof.
  intros [|d l]; [reflexivity|]. unfold split at 1; cbn [length split_ws].
  destruct (skipn_count_while isspace (d :: l)) as [E|(c & r & E & Hc)]; rewrite E; [reflexivity|].
  f_equal. unfold split; apply split_ws_fuel; [|lia].
  assert (L : length (skipn (count_while isspace (d :: l)) (d :: l)) <= length (d :: l)) by
    (rewrite length_skipn; lia).
  rewrite E in L. simpl. rewrite Hc. simpl. rewrite length_skipn. simpl in L. lia.
Qed.

Lemma count_while_all_app : forall (p : Z -> bool) a l, (forall x, In x a -> p x = true) ->
  count_while p (a ++ l) = (length a + count_while p l)%nat.
Proof.
  intros p; induction a as [|c a IH]; intros l H; [reflexivity|]; simpl.
  rewrite (H c (or_introl eq_refl)), IH; [reflexivity|]. intros x Hx; apply H; right; exact Hx.
Qed.

Lemma split_space_app : forall a l, all_space a = true -> split (a ++ l) = split l.
Proof.
  intros a l Ha; rewrite (split_unfold (a ++ l)), (split_unfold l).
  rewrite count_while_all_app by (exact (proj1 (all_space_In a) Ha)).
  rewrite skipn_app, skipn_all2 by lia. simpl.
  replace (length a + count_while isspace l - length a)%nat with (count_while isspace l) by lia.
  reflexivity.
Qed.

Lemma split_all_space : forall l, all_space l = true -> split l = [].
Proof. intros l H; rewrite <- (app_nil_r l), split_space_app by exact H; reflexivity. Qed.

Lemma split_nonspace : forall c l, isspace c = false ->
  split (c :: l) = firstn (count_while (fun d => negb (isspace d)) (c :: l)) (c :: l)
                   :: split (skipn (count_while (fun d => negb (isspace d)) (c :: l)) (c :: l)).
Proof.
  intros c l H; rewrite (split_unfold (c :: l)).
  replace (count_while isspace (c :: l)) with O by (cbn; rewrite H; reflexivity). reflexivity.
Qed.

Lemma split_word : forall u r, u <> [] -> (forall x, In x u -> isspace x = false) ->
  starts_space r -> split (u ++ r) = u :: split r.
Proof.
  intros u r Hu Hx Hr; destruct u as [|c u]; [contradiction|].
  assert (Hn : count_while (fun d => negb (isspace d)) ((c :: u) ++ r) = length (c :: u)).
  { rewrite (count_while_all_app _ (c :: u) r) by (intros x H; rewrite (Hx x H); reflexivity).
    destruct r as [|d r]; [simpl; lia|]. simpl; rewrite (Hr d r eq_refl); simpl; lia. }
  change ((c :: u) ++ r) with (c :: u ++ r) in Hn |- *.
  rewrite (split_nonspace c (u ++ r) (Hx c (or_introl eq_refl))), Hn.
  change (c :: u ++ r) with ((c :: u) ++ r).
  rewrite firstn_app, firstn_all, Nat.sub_diag, firstn_O, app_nil_r.
  rewrite skipn_app, skipn_all, Nat.sub_diag; reflexivity.
Qed.

Lemma word_split : forall l, all_space l = true \/
  exists w u r, l = w ++ u ++ r /\ all_space w = true /\ u <> [] /\
    (forall x, In x u -> isspace x = false) /\ starts_space r.
Proof.
  intros l; destruct (space_split l) as [H|(w & c & r0 & E & Hw & Hc)]; [left; exact H|right].
  exists w, (c :: firstn (count_while (fun d => negb (isspace d)) r0) r0),
    (skipn (count_while (fun d => negb (isspace d)) r0) r0).
  split; [rewrite E; simpl; rewrite firstn_skipn; reflexivity|].
  split; [exact Hw|]. split; [discriminate|]. split.
  - intros x [<-|Hx]; [exact Hc|]. apply count_while_prefix in Hx.
    destruct (isspace x); [discriminate|reflexivity].
  - intros d r' E'. destruct (skipn_count_while (fun d => negb (isspace d)) r0) as [E2|(d' & r2 & E2 & Hd)];
      rewrite E' in E2; [discriminate|]. injection E2 as <- <-.
    destruct (isspace d); [reflexivity|discriminate].
Qed.

Lemma ws_normalize_word : forall u w r, u <> [] -> (forall x, In x u -> isspace x = false) ->
  ws_normalize (w ++ u ++ r) = ws_normalize w ++ u ++ ws_normalize r.
Proof.
  induction u as [|c u IH]; intros w r Hu Hx; [contradiction|].
  change ((c :: u) ++ r) with (c :: u ++ r).
  rewrite (ws_normalize_split w c (u ++ r) (Hx c (or_introl eq_refl))).
  destruct u as [|d u]; [reflexivity|].
  assert (IH' := IH [] r ltac:(discriminate) (fun x H => Hx x (or_intror H))).
  rewrite app_nil_l in IH'; change (ws_normalize []) with (@nil Z) in IH'; rewrite app_nil_l in IH'.
  rewrite IH'; reflexivity.
Qed.

Lemma sub_newlines_nil : forall l k, sub_newlines_aux k l = [] -> l = [] /\ collapse k = O.
Proof.
  induction l as [|c l IH]; intros k H; simpl in H.
  - split; [reflexivity|]. destruct (collapse k); [reflexivity|discriminate].
  - destruct (Z.eqb c 10).
    + destruct (IH _ H) as [_ C]. unfold collapse in C. destruct (3 <=? S k)%nat; discriminate.
    + destruct (repeat 10%Z (collapse k)); discriminate.
Qed.

Lemma sub_blank_nil : forall l run, sub_blank_lines_aux run l = [] -> l = [] /\ run = [].
Proof.
  induction l as [|c l IH]; intros run H; simpl in H.
  - split; [reflexivity|]. unfold flush_run in H.
    destruct (2 <=? count_nl run)%nat; [|exact H].
    destruct (firstn _ run); discriminate.
  - destruct (isspace c).
    + destruct (IH _ H) as [_ E]. destruct run; discriminate.
    + destruct (flush_run run); discriminate.
Qed.

Lemma ws_normalize_nil_inv : forall l, ws_normalize l = [] -> l = [].
Proof.
  intros l H; unfold ws_normalize, sub_spaces, sub_blank_lines, sub_newlines in H.
  destruct (sub_blank_lines_aux [] (sub_newlines_aux 0 l)) as [|c r] eqn:E.
  - apply sub_blank_nil in E; destruct E as [E _]. apply sub_newlines_nil in E; apply E.
  - simpl in H; destruct (is_sp_tab c); discriminate.
Qed.

Lemma starts_space_all : forall l, all_space l = true -> starts_space l.
Proof. intros l H c r E; subst; exact (proj1 (all_space_In _) H c (or_introl eq_refl)). Qed.

Lemma starts_space_ws_normalize : forall r, starts_space r -> starts_space (ws_normalize r).
Proof.
  intros r Hr; destruct (space_split r) as [H|(w & c & r2 & E & Hw & Hc)].
  - apply starts_space_all, ws_normalize_all_space; exact H.
  - subst r. destruct w as [|d w].
    + rewrite (Hr c r2 eq_refl) in Hc; discriminate.
    + rewrite ws_normalize_split by exact Hc.
      destruct (ws_normalize (d :: w)) as [|e v] eqn:E.
      * apply ws_normalize_nil_inv in E; discriminate.
      * intros c' r' E'; injection E' as <- _.
        apply (proj1 (all_space_In _) (ws_normalize_all_space _ Hw)); rewrite E; left; reflexivity.
Qed.

Lemma split_ws_normalize : forall l, split (ws_normalize l) = split l.
Proof.
  intros l; remember (length l) as n eqn:En; revert l En.
  induction n as [n IH] using (well_founded_induction lt_wf); intros l En.
  destruct (word_split l) as [H|(w & u & r & E & Hw & Hu & Hx & Hr)].
  - rewrite !split_all_space; [reflexivity|exact H|apply ws_normalize_all_space; exact H].
  - subst l. rewrite ws_normalize_word by assumption.
    rewrite (split_space_app (ws_normalize w)) by (apply ws_normalize_all_space; exact Hw).
    rewrite (split_space_app w) by exact Hw.
    rewrite !split_word by (assumption || (apply starts_space_ws_normalize; assumption)).
    f_equal. apply (IH (length r)); [|reflexivity].
    rewrite En, !length_app. destruct u; [contradiction|simpl; lia].
Qed.

Lemma split_app_space : forall l b, all_space b = true -> split (l ++ b) = split l.
Proof.
  intros l b Hb; remember (length l) as n eqn:En; revert l En.
  induction n as [n IH] using (well_founded_induction lt_wf); intros l En.
  destruct (word_split l) as [H|(w & u & r & E & Hw & Hu & Hx & Hr)].
  - rewrite !split_all_space; [reflexivity|exact H|].
    unfold all_space; rewrite forallb_app; unfold all_space in H, Hb; rewrite H, Hb; reflexivity.
  - subst l. rewrite <- !app_assoc, !(split_space_app w) by exact Hw.
    rewrite (split_word u (r ++ b)), (split_word u r); try assumption.
    + f_equal. apply (IH (length r)); [|reflexivity].
      rewrite En, !length_app. destruct u; [contradiction|simpl; lia].
    + destruct r as [|d r]; [apply starts_space_all; exact Hb|].
      intros c r' E; injection E as <- _; exact (Hr d r eq_refl).
Qed.

Lemma split_strip : forall l, split (strip l) = split l.
Proof.
  intros l; destruct (strip_split l) as [H|[(a & c & b & E & Ha & Hb & Hc)|(a & c & m & d & b & E & Ha & Hb & Hc & Hd)]].
  - rewrite strip_all_space, (split_all_space l) by exact H; reflexivity.
  - subst l; rewrite strip_one by assumption.
    rewrite split_space_app by exact Ha.
    change (c :: b) with ([c] ++ b); rewrite split_app_space by exact Hb; reflexivity.
  - subst l; rewrite strip_two by assumption.
    rewrite split_space_app by exact Ha.
    replace (c :: m ++ d :: b) with ((c :: m ++ [d]) ++ b) by (simpl; rewrite <- app_assoc; reflexivity).
    rewrite split_app_space by exact Hb; reflexivity.
Qed.

(** X1: when the input is not JSON and contains no [[], no [Source:
    http(s)://...] match and no [H2:], [calculate_word_count] is the number
    of whitespace-separated words of the input itself: the cleaning changes
    no word. *)
Lemma calculate_word_count_raw_text : forall x m p,
  json_loads x = inr (JSONDecodeError m p) -> ~ In 91%Z x ->
  (forall k, match_source (skipn k x) = None) ->
  (forall k, is_prefix (s2l "H2:") (skipn k x) = false) ->
  calculate_word_count x = inl (length (split x)).
Proof.
  intros x m p Hj Hb Hs Hh; unfold calculate_word_count, clean_content; rewrite Hj.
  unfold clean_text. rewrite (sub_image_id _ x Hb), (sub_source_id _ x Hs), (sub_h2_id _ x Hh).
  fold (ws_normalize x).
  rewrite sub_brackets_id.
  - rewrite split_strip, split_ws_normalize; reflexivity.
  - intros H; destruct (ws_normalize_In _ _ H) as [E|[E|E]]; [discriminate|discriminate|exact (Hb E)].
Qed.

Lemma calculate_word_count_raw_text_witness :
  calculate_word_count (txt "one  two~~~~three	four ") = inl 4%nat.
Proof.
  apply (calculate_word_count_raw_text (txt "one  two~~~~three	four ") "Expecting value" 0).
  - vm_compute; reflexivity.
  - apply not_In_of_existsb; vm_compute; reflexivity.
  - intros k.
    generalize (all_suffixes_spec (fun s => match match_source s with None => true | Some _ => false end)
      (txt "one  two~~~~three	four ") ltac:(vm_compute; reflexivity) k).
    cbv beta; destruct (match_source _); [discriminate|reflexivity].
  - intros k.
    generalize (all_suffixes_spec (fun s => negb (is_prefix (s2l "H2:") s))
      (txt "one  two~~~~three	four ") ltac:(vm_compute; reflexivity) k).
    cbv beta; destruct (is_prefix _ _); [discriminate|reflexivity].
Defined.

(** X2: when the input parses as JSON, [calculate_word_count] raises
    [AttributeError] if the value is not an object, and returns 0 if it is
    an object without a [content] key. *)
Lemma calculate_word_count_json : forall x v,
  json_loads x = inl v ->
  ((forall d, v <> JObj d) -> calculate_word_count x = inr AttributeError)
  /\ (forall d, v = JObj d -> dict_get d (s2l "content") = None -> calculate_word_count x = inl O).
Proof.
  intros x v Hj; unfold calculate_word_count, clean_content; rewrite Hj; split.
  - intros Hv; destruct v; try reflexivity. exfalso; exact (Hv members eq_refl).
  - intros d -> Hd; rewrite Hd; reflexivity.
Qed.

Lemma calculate_word_count_json_witness :
  json_loads (s2l "2024") = inl (JNum false (s2l "2024"))
  /\ calculate_word_count (s2l "2024") = inr AttributeError.
Proof.
  assert (H : json_loads (s2l "2024") = inl (JNum false (s2l "2024"))) by (vm_compute; reflexivity).
  split; [exact H|].
  apply (proj1 (calculate_word_count_json (s2l "2024") _ H)); intros d; discriminate.
Defined.

End WordsProps.

Section DatesProps.
Import Dates.

Section DateProps.

Variable decimal : Z -> option Z.
Hypothesis dec_digit : forall c, (48 <= c <= 57)%Z -> decimal c = Some (c - 48)%Z.
Hypothesis dec_ascii : forall c, (0 <= c < 48 \/ 57 < c < 128)%Z -> decimal c = None.

Local Open Scope Z_scope.

Lemma div10_facts : forall y, 0 <= y <= 9999 ->
  y = 10 * (y / 10) + y mod 10 /\ y / 10 = 10 * (y / 10 / 10) + (y / 10) mod 10 /\
  y / 10 / 10 = 10 * (y / 10 / 10 / 10) + (y / 10 / 10) mod 10 /\
  0 <= y mod 10 < 10 /\ 0 <= (y / 10) mod 10 < 10 /\ 0 <= (y / 10 / 10) mod 10 < 10 /\
  0 <= y / 10 / 10 / 10 <= 9.
Proof.
  intros y Hy.
  pose proof (Z.div_mod y 10 ltac:(lia)) as E1.
  pose proof (Z.div_mod (y / 10) 10 ltac:(lia)) as E2.
  pose proof (Z.div_mod (y / 10 / 10) 10 ltac:(lia)) as E3.
  pose proof (Z.mod_pos_bound y 10 ltac:(lia)).
  pose proof (Z.mod_pos_bound (y / 10) 10 ltac:(lia)).
  pose proof (Z.mod_pos_bound (y / 10 / 10) 10 ltac:(lia)).
  repeat split; lia.
Qed.

Lemma match_Y_pad4 : forall y r, 0 <= y <= 9999 -> match_Y decimal (pad4 y ++ r) = Some (y, r).
Proof.
  intros y r Hy; destruct (div10_facts y Hy) as (E1 & E2 & E3 & B1 & B2 & B3 & B4).
  unfold pad4; cbn [app match_Y].
  rewrite !dec_digit by lia.
  f_equal; f_equal; lia.
Qed.


Lemma m_alts_pad2 : forall m r (g : Z * str -> option (Z * Z * Z * str)),
  1 <= m <= 12 ->
  (forall v r', match r' with h :: _ => h =? 45 | [] => false end = false -> g (v, r') = None) ->
  first_some g (m_alts (pad2 m ++ 45 :: r)) = g (m, 45 :: r).
Proof.
  intros m r g Hm Hg.
  assert (m = 1 \/ m = 2 \/ m = 3 \/ m = 4 \/ m = 5 \/ m = 6 \/ m = 7 \/ m = 8 \/ m = 9
          \/ m = 10 \/ m = 11 \/ m = 12) as C by lia.
  repeat destruct C as [->|C]; try (subst m);
    cbn; destruct (g _) eqn:E; try reflexivity; rewrite ?Hg by reflexivity; reflexivity.
Qed.

Lemma d_alts_pad2 : forall d, 1 <= d <= 31 -> exists rest, d_alts decimal (pad2 d) = (d, []) :: rest.
Proof.
  intros d Hd.
  assert (d = 1 \/ d = 2 \/ d = 3 \/ d = 4 \/ d = 5 \/ d = 6 \/ d = 7 \/ d = 8 \/ d = 9
          \/ d = 10 \/ d = 11 \/ d = 12 \/ d = 13 \/ d = 14 \/ d = 15 \/ d = 16 \/ d = 17
          \/ d = 18 \/ d = 19 \/ d = 20 \/ d = 21 \/ d = 22 \/ d = 23 \/ d = 24 \/ d = 25
          \/ d = 26 \/ d = 27 \/ d = 28 \/ d = 29 \/ d = 30 \/ d = 31) as C by lia.
  repeat destruct C as [->|C]; try (subst d);
    cbn; rewrite ?dec_digit by lia; cbn; eexists; reflexivity.
Qed.

Lemma pad2_digits : forall n, 1 <= n <= 31 ->
  exists a b, pad2 n = [a; b] /\ 48 <= a <= 57 /\ 48 <= b <= 57.
Proof.
  intros n Hn; unfold pad2.
  destruct (n <? 10) eqn:E.
  - apply Z.ltb_lt in E; exists 48, (48 + n); split; [reflexivity|lia].
  - apply Z.ltb_ge in E. cbn [dec_digits].
    replace (n <? 10) with false by (symmetry; apply Z.ltb_ge; lia).
    replace (n / 10 <? 10) with true by (symmetry; apply Z.ltb_lt, Z.div_lt_upper_bound; lia).
    exists (48 + n / 10), (48 + n mod 10); split; [reflexivity|].
    pose proof (Z.mod_pos_bound n 10 ltac:(lia)).
    assert (0 <= n / 10) by (apply Z.div_pos; lia).
    assert (n / 10 < 4) by (apply Z.div_lt_upper_bound; lia). lia.
Qed.

Lemma before_T_id : forall l, (forall x, In x l -> x <> 84) -> before_T l = l.
Proof.
  intros l H; unfold before_T.
  replace (count_while (fun c => negb (c =? 84)) l) with (length l); [apply firstn_all|].
  induction l as [|c l IH]; [reflexivity|]; simpl.
  destruct (Z.eqb_spec c 84) as [E|E]; [exfalso; exact (H c (or_introl eq_refl) E)|].
  simpl; f_equal; apply IH; intros x Hx; apply H; right; exact Hx.
Qed.

Lemma canonical_no_T : forall y m d, 0 <= y <= 9999 -> 1 <= m <= 12 -> 1 <= d <= 31 ->
  forall x, In x (canonical y m d) -> x <> 84.
Proof.
  intros y m d Hy Hm Hd x Hx.
  destruct (div10_facts y Hy) as (E1 & E2 & E3 & B1 & B2 & B3 & B4).
  destruct (pad2_digits m ltac:(lia)) as (a1 & b1 & Pm & Ha1 & Hb1).
  destruct (pad2_digits d ltac:(lia)) as (a2 & b2 & Pd & Ha2 & Hb2).
  unfold canonical, pad4 in Hx; rewrite Pm, Pd in Hx; cbn [app In] in Hx.
  repeat (destruct Hx as [<-|Hx]; [lia|]); destruct Hx.
Qed.

Lemma rx_match_canonical : forall y m d, 0 <= y <= 9999 -> 1 <= m <= 12 -> 1 <= d <= 31 ->
  rx_match decimal (canonical y m d) = Some (y, m, d, []).
Proof.
  intros y m d Hy Hm Hd; unfold rx_match, canonical.
  rewrite match_Y_pad4 by exact Hy. rewrite Z.eqb_refl.
  rewrite m_alts_pad2 by (exact Hm || (intros v [|h r'] E; [reflexivity|]; cbn [snd]; rewrite E; reflexivity)).
  cbn [snd fst]. rewrite Z.eqb_refl.
  destruct (d_alts_pad2 d Hd) as (rest & ->); reflexivity.
Qed.

Lemma parse_date_canonical_valid : forall y m d, 0 <= y <= 9999 -> 1 <= m <= 12 -> 1 <= d <= 31 ->
  parse_date decimal (Some (canonical y m d))
  = if valid_date y m d then fmt_date y m d else s2l "No Date".
Proof.
  intros y m d Hy Hm Hd.
  assert (Hs : strptime_ymd decimal (before_T (canonical y m d))
               = if valid_date y m d then Some (y, m, d) else None).
  { rewrite before_T_id by (apply canonical_no_T; assumption).
    unfold strptime_ymd; rewrite rx_match_canonical by assumption; reflexivity. }
  unfold parse_date; change (canonical y m d) with ((48 + y / 10 / 10 / 10) :: (skipn 1 (canonical y m d))).
  change ((48 + y / 10 / 10 / 10) :: skipn 1 (canonical y m d)) with (canonical y m d).
  rewrite Hs; destruct (valid_date y m d); reflexivity.
Qed.

(** X3: a date written [YYYY-MM-DD] (year 0 to 9999, month 1 to 12, day 1
    to 31) is read back by [parse_date] as itself reformatted when the
    date exists, and as [No Date] otherwise. *)
Lemma parse_date_canonical : forall y m d, 0 <= y <= 9999 -> 1 <= m <= 12 -> 1 <= d <= 31 ->
  parse_date decimal (Some (canonical y m d))
  = if valid_date y m d then fmt_date y m d else s2l "No Date".
Proof. exact parse_date_canonical_valid. Qed.







End DateProps.

(** X5: [parse_date] ignores everything from the first [T] on: the date
    followed by [T] and any time reads as the date alone. *)
Lemma parse_date_time_ignored : forall decimal s t, ~ In 84%Z s ->
  parse_date decimal (Some (s ++ 84%Z :: t)) = parse_date decimal (Some s).
Proof.
  intros decimal s t H.
  assert (E : before_T (s ++ 84%Z :: t) = before_T s).
  { assert (Hs : forall x, In x s -> negb (x =? 84)%Z = true)
      by (intros x Hx; destruct (Z.eqb_spec x 84); [subst; contradiction|reflexivity]).
    rewrite (before_T_id s) by (intros x Hx E; subst; contradiction).
    unfold before_T; rewrite (count_while_app _ s 84%Z t Hs eq_refl).
    rewrite firstn_app, firstn_all, Nat.sub_diag, firstn_O, app_nil_r; reflexivity. }
  destruct s as [|c r].
  - unfold parse_date; simpl; reflexivity.
  - unfold parse_date; change ((c :: r) ++ 84%Z :: t) with (c :: (r ++ 84%Z :: t)).
    change (c :: r ++ 84%Z :: t) with ((c :: r) ++ 84%Z :: t); rewrite E; reflexivity.
Qed.

Ltac ascii_decimal_facts D A :=
  assert (D : forall c, (48 <= c <= 57)%Z -> ascii_decimal c = Some (c - 48)%Z)
    by (intros c Hc; unfold ascii_decimal;
        replace ((48 <=? c) && (c <=? 57))%Z with true; [reflexivity|];
        symmetry; apply andb_true_iff; split; apply Z.leb_le; lia);
  assert (A : forall c, (0 <= c < 48 \/ 57 < c < 128)%Z -> ascii_decimal c = None)
    by (intros c Hc; unfold ascii_decimal;
        replace ((48 <=? c) && (c <=? 57))%Z with false; [reflexivity|];
        symmetry; apply andb_false_iff; destruct Hc as [Hc|Hc]; [left|right]; apply Z.leb_gt; lia).

Lemma parse_date_canonical_witness :
  parse_date ascii_decimal (Some (canonical 2024 2 29)) = s2l "2024-02-29"
  /\ parse_date ascii_decimal (Some (canonical 2023 2 29)) = s2l "No Date".
Proof.
  ascii_decimal_facts D A; split.
  - rewrite (parse_date_canonical ascii_decimal D 2024 2 29) by lia; reflexivity.
  - rewrite (parse_date_canonical ascii_decimal D 2023 2 29) by lia; reflexivity.
Defined.


Lemma parse_date_time_ignored_witness :
  ~ In 84%Z (s2l "2024-03-05")
  /\ parse_date ascii_decimal (Some (s2l "2024-03-05" ++ 84%Z :: s2l "10:00:00"))
     = parse_date ascii_decimal (Some (s2l "2024-03-05")).
Proof.
  assert (H : ~ In 84%Z (s2l "2024-03-05")) by (simpl; lia).
  split; [exact H|exact (parse_date_time_ignored ascii_decimal _ _ H)].
Defined.

End DatesProps.

Section SeoProps.
Import UseCase Seo.

Lemma strip_pad : forall a u b, all_space a = true -> all_space b = true ->
  strip (a ++ u ++ b) = strip u.
Proof.
  intros a u b Ha Hb.
  assert (Happ : forall x y, all_space (x ++ y) = all_space x && all_space y)
    by (intros; unfold all_space; apply forallb_app).
  destruct (strip_split u) as [Hu|[(a' & c & b' & -> & Ha' & Hb' & Hc)
                                  |(a' & c & m & d & b' & -> & Ha' & Hb' & Hc & Hd)]].
  - rewrite (strip_all_space u Hu); apply strip_all_space; rewrite !Happ, Ha, Hu, Hb; reflexivity.
  - rewrite (strip_one a' c b') by assumption.
    replace (a ++ (a' ++ c :: b') ++ b) with ((a ++ a') ++ c :: (b' ++ b))
      by (rewrite <- !app_assoc; reflexivity).
    apply strip_one; [rewrite Happ, Ha, Ha'|rewrite Happ, Hb', Hb|]; auto.
  - rewrite (strip_two a' c m d b') by assumption.
    replace (a ++ (a' ++ c :: m ++ d :: b') ++ b) with ((a ++ a') ++ c :: m ++ d :: (b' ++ b))
      by (rewrite <- !app_assoc; cbn [app]; rewrite <- !app_assoc; reflexivity).
    apply strip_two; [rewrite Happ, Ha, Ha'|rewrite Happ, Hb', Hb| |]; auto.
Qed.

(** X6: [get_use_case] strips the URL before the lookup, so surrounding
    whitespace does not change the result. *)
Lemma get_use_case_pad : forall preSorted a u b, all_space a = true -> all_space b = true ->
  get_use_case preSorted (a ++ u ++ b) = get_use_case preSorted u.
Proof. intros; unfold get_use_case; rewrite strip_pad by assumption; reflexivity. Qed.

(** X7: on the dictionary built by [get_seo_analysis] of src/scrape_blog.py,
    [format_seo_data] succeeds, and its [h3_count] is always 0: the scraper
    stores the H3 count under [headings], while [format_seo_data] reads a
    top-level [h3_count] key. *)
Lemma format_seo_data_scraped : forall basic_info target_keyword meta h1 h2 h3,
  format_seo_data basic_info (get_seo_analysis meta h1 h2 h3) target_keyword
  = inl [(s2l "current_target_keyword", target_keyword);
         (s2l "meta_description_present", JBool (match meta with Some _ => true | None => false end));
         (s2l "h1_present", JBool (Nat.ltb 0 h1));
         (s2l "h2_count", py_int h2);
         (s2l "h3_count", py_int 0)].
Proof. intros; destruct meta; reflexivity. Qed.

(** X8: the only exception [format_seo_data] raises is [AttributeError], and
    it raises it exactly when the SEO analysis is not a dict, or its
    [meta_description] or [headings] entry is present but not a dict. *)
Lemma format_seo_data_errors : forall basic_info seo_analysis target_keyword,
  (forall e, format_seo_data basic_info seo_analysis target_keyword = inr e -> e = AttributeError)
  /\ (format_seo_data basic_info seo_analysis target_keyword = inr AttributeError <->
      is_dict seo_analysis = false
      \/ exists d v, seo_analysis = JObj d
           /\ (dict_get d (s2l "meta_description") = Some v \/ dict_get d (s2l "headings") = Some v)
           /\ is_dict v = false).
Proof.
  intros b s t.
  destruct s as [| | | | | |d];
    try (split; [intros e H; injection H; auto|split; [intros _; left; reflexivity|reflexivity]]).
  unfold format_seo_data; cbn [py_get bind].
  destruct (dict_get d (s2l "meta_description")) as [md|] eqn:Emd;
  [destruct md as [| | | | | |mdd]|];
  cbn [py_get bind];
  try (split; [intros e H; injection H; auto|split; [intros _; right; exists d; eexists; split; [reflexivity|split; [left; exact Emd|reflexivity]]|reflexivity]]);
  (destruct (dict_get d (s2l "headings")) as [hd|] eqn:Ehd;
   [destruct hd as [| | | | | |hdd]|];
   cbn [py_get bind];
   try (split; [intros e H; injection H; auto|split; [intros _; right; exists d; eexists; split; [reflexivity|split; [right; exact Ehd|reflexivity]]|reflexivity]]));
  (split; [intros e H; discriminate H|split; [intros H; discriminate H|]]);
  (intros [H|(d' & v & E & [H1|H1] & H2)]; [discriminate H|injection E as <-..]);
  first [rewrite Emd in H1 | rewrite Ehd in H1]; try discriminate H1;
  injection H1 as <-; discriminate H2.
Qed.

Lemma get_use_case_pad_witness :
  all_space [32%Z; 9%Z] = true /\ all_space [10%Z] = true
  /\ get_use_case [(s2l "https://example.com/post", JStr (s2l "onboarding"))]
       ([32%Z; 9%Z] ++ s2l "https://example.com/post" ++ [10%Z])
     = Some (JStr (s2l "onboarding")).
Proof.
  assert (Ha : all_space [32%Z; 9%Z] = true) by reflexivity.
  assert (Hb : all_space [10%Z] = true) by reflexivity.
  split; [exact Ha|split; [exact Hb|]].
  rewrite (get_use_case_pad _ _ _ _ Ha Hb); reflexivity.
Defined.

End SeoProps.

Section DeprApiProps.
Import Dec ApiCall DeprApi.

Lemma depr_loop_first : forall is_alnum svc max_retries n retries t,
  (retries + n = S max_retries)%nat ->
  depr_loop is_alnum n svc max_retries retries t =
  match first_success is_alnum svc retries n with
  | Some (v, i, o) => (Some v, add_usage t i o)
  | None => (None, t)
  end.
Proof.
  intros is_alnum svc mx n; induction n as [|n IH]; intros retries t Hn; [reflexivity|].
  cbn [depr_loop first_success].
  replace (retries <=? mx)%nat with true by (symmetry; apply Nat.leb_le; lia).
  unfold attempt_success.
  destruct (count_tokens_result (svc retries)) as [i|e];
  [destruct (create_result (svc retries)) as [r|e]|]; cbv zeta;
  [destruct (json_loads (fix_json_quotes is_alnum (response_text_of is_alnum (resp_text r))))
     as [v|[m p| | | | | ]];
   [reflexivity
   |destruct (json_loads (manual_escape (response_text_of is_alnum (resp_text r)))) as [v|e2];
      [reflexivity|]
   | | | | | ]| |].
  all: destruct (mx <? S retries)%nat eqn:L;
       [apply Nat.ltb_lt in L; assert (n = O) by lia; subst n; cbn [first_success];
        try (replace (mx <? S (S retries))%nat with true by (symmetry; apply Nat.ltb_lt; lia));
        reflexivity
       |apply Nat.ltb_ge in L; apply IH; lia].
Qed.

(** X9: the deprecated [make_api_call] returns the parsed reply of the first
    of its [max_retries + 1] attempts that succeeds, and adds that attempt's
    token usage (and only that one) to the cost tracker; when no attempt
    succeeds it returns [None] and leaves the tracker unchanged. *)
Lemma make_api_call_first_success : forall is_alnum svc max_retries t,
  make_api_call is_alnum svc max_retries t =
  match first_success is_alnum svc 0 (S max_retries) with
  | Some (v, i, o) => (Some v, add_usage t i o)
  | None => (None, t)
  end.
Proof. intros; unfold make_api_call; apply depr_loop_first; lia. Qed.

Lemma firstn_len_app : forall (p q : list Z), firstn (length p) (p ++ q) = p.
Proof. induction p as [|c p IH]; intros q; [reflexivity|simpl; rewrite IH; reflexivity]. Qed.

Lemma skipn_len_app : forall (p q : list Z) n, skipn (length p + n) (p ++ q) = skipn n q.
Proof. induction p as [|c p IH]; intros q n; [reflexivity|simpl; apply IH]. Qed.

Lemma replace_aux_self : forall f old l, old <> [] -> replace_aux f old old l = l.
Proof.
  intros f old; induction f as [|f IH]; intros l Hold; [reflexivity|].
  destruct l as [|c r]; [reflexivity|]; cbn [replace_aux].
  destruct (is_prefix old (c :: r)) eqn:P.
  - rewrite IH by exact Hold.
    clear IH; revert P; generalize (c :: r); clear c r.
    induction old as [|a old IHo]; intros l P; [contradiction|].
    destruct l as [|d l]; [discriminate|]; cbn [is_prefix] in P.
    apply andb_true_iff in P; destruct P as [E P]; apply Z.eqb_eq in E; subst d.
    destruct old as [|a' old'].
    + reflexivity.
    + cbn [length skipn app]; f_equal; apply (IHo ltac:(discriminate) l P).
  - f_equal; apply IH; exact Hold.
Qed.

Lemma escape_quotes_filter : forall v, filter not_bs (escape_quotes v) = filter not_bs v.
Proof.
  induction v as [|c v IH]; [reflexivity|].
  unfold escape_quotes in *; cbn [flat_map]; rewrite filter_app, IH.
  destruct (Z.eqb_spec c 34); [subst; reflexivity|cbn [filter app]; destruct (not_bs c); reflexivity].
Qed.

Lemma find_close_some : forall r k, find_close r = Some k ->
  exists r1 r2, r = r1 ++ 34%Z :: r2 /\ length r1 = k.
Proof.
  induction r as [|c r IH]; intros k H; [discriminate|]; cbn [find_close] in H.
  destruct (c =? 10)%Z; [discriminate|].
  assert (Hrec : option_map S (find_close r) = Some k ->
                 exists r1 r2, c :: r = r1 ++ 34%Z :: r2 /\ length r1 = k).
  { intros Hm; destruct (find_close r) as [k'|] eqn:F; [|discriminate].
    injection Hm as <-; destruct (IH k' eq_refl) as (r1 & r2 & -> & <-).
    exists (c :: r1), r2; split; reflexivity. }
  destruct r as [|d r']; [apply Hrec; exact H|].
  destruct ((d =? 34)%Z && lookahead r') eqn:Q; [|apply Hrec; exact H].
  apply andb_true_iff in Q; destruct Q as [Q _]; apply Z.eqb_eq in Q; subst d.
  injection H as <-; exists [c], r'; split; reflexivity.
Qed.

Lemma sub_values_filter : forall is_alnum f l,
  filter not_bs (sub_values is_alnum f l) = filter not_bs l.
Proof.
  intros is_alnum f; induction f as [|f IH]; intros l; [reflexivity|].
  destruct l as [|c r]; [reflexivity|]; cbn [sub_values].
  destruct (match_at is_alnum (c :: r)) as [[g1 k]|] eqn:M.
  - unfold match_at in M.
    destruct (match_key is_alnum (c :: r)) as [g1'|]; [|discriminate].
    destruct (skipn g1' (c :: r)) as [|q rest] eqn:S1; [discriminate|].
    destruct (Z.eqb_spec q 34) as [->|Hq]; [|discriminate].
    destruct (find_close rest) as [k'|] eqn:F; [|discriminate].
      injection M as <- <-.
      destruct (find_close_some rest k' F) as (r1 & r2 & -> & <-).
      assert (El : c :: r = firstn g1' (c :: r) ++ 34%Z :: r1 ++ 34%Z :: r2)
        by (rewrite <- S1; symmetry; apply firstn_skipn).
      assert (Hp : length (firstn g1' (c :: r)) = g1').
      { apply firstn_length_le. destruct (Nat.le_gt_cases g1' (length (c :: r))) as [L|L]; [exact L|].
        rewrite skipn_all2 in S1 by lia; discriminate. }
      set (p := firstn g1' (c :: r)) in *.
      rewrite !El, <- Hp.
      replace (S (length p)) with (length p + 1)%nat by lia.
      rewrite skipn_len_app; cbn [skipn].
      rewrite firstn_len_app.
      replace (length p + 1 + length r1 + 1)%nat with (length p + S (length r1 + 1))%nat by lia.
      rewrite skipn_len_app; cbn [skipn].
      rewrite (skipn_len_app r1 (34%Z :: r2) 1); cbn [skipn].
      rewrite !filter_app; cbn [filter app]; rewrite escape_quotes_filter, IH.
      rewrite !filter_app; cbn [filter]; reflexivity.
  - cbn [filter]; rewrite IH; reflexivity.
Qed.

(** X10: [fix_json_quotes] only inserts or removes backslashes: with the
    backslashes filtered out, its output equals its input. *)
Lemma fix_json_quotes_backslashes : forall is_alnum s,
  filter not_bs (fix_json_quotes is_alnum s) = filter not_bs s.
Proof.
  intros is_alnum s; unfold fix_json_quotes, py_replace.
  rewrite !replace_aux_self by discriminate.
  apply sub_values_filter.
Qed.

Lemma fence_nl : forall a x, is_prefix fence a = false -> is_prefix fence (a ++ 10%Z :: x) = false.
Proof.
  intros a x H.
  destruct a as [|a1 [|a2 [|a3 a]]]; try reflexivity; cbn [is_prefix fence app] in *;
    repeat rewrite andb_true_r in *; try exact H;
    destruct (96 =? a1)%Z; try reflexivity; destruct (96 =? a2)%Z; reflexivity.
Qed.

Lemma sub_fences_skip : forall is_alnum l m f,
  (forall k, (k < length l)%nat -> is_prefix fence (skipn k (l ++ m)) = false) ->
  (length l <= f)%nat ->
  sub_fences is_alnum f (l ++ m) = l ++ sub_fences is_alnum (f - length l) m.
Proof.
  intros is_alnum; induction l as [|c l IH]; intros m f H Hf.
  - rewrite Nat.sub_0_r; reflexivity.
  - destruct f as [|f]; [cbn in Hf; lia|].
    cbn [app sub_fences].
    assert (P := H O ltac:(cbn; lia)); cbn [skipn app] in P; unfold fence in P; rewrite P.
    f_equal; cbn [length]; rewrite Nat.sub_succ.
    apply IH; [|cbn in Hf; lia].
    intros k Hk; apply (H (S k)); cbn; lia.
Qed.

Lemma sub_fences_open : forall is_alnum f w rest,
  is_alnum 10%Z = false -> forallb (is_w is_alnum) w = true ->
  sub_fences is_alnum (S f) (fence ++ w ++ 10%Z :: rest) = sub_fences is_alnum f rest.
Proof.
  intros is_alnum f w rest Hnl Hw.
  change (fence ++ w ++ 10%Z :: rest) with (96%Z :: (96%Z :: 96%Z :: w ++ 10%Z :: rest)).
  cbn [sub_fences].
  change (is_prefix [96; 96; 96]%Z (96%Z :: 96%Z :: 96%Z :: w ++ 10%Z :: rest)) with true.
  cbv zeta.
  change (skipn 3 (96%Z :: 96%Z :: 96%Z :: w ++ 10%Z :: rest)) with (w ++ 10%Z :: rest).
  assert (Hw' : forall x, In x w -> is_w is_alnum x = true) by (apply forallb_forall; exact Hw).
  rewrite (count_while_app _ w 10%Z rest Hw') by (unfold is_w; rewrite Hnl; reflexivity).
  rewrite <- (Nat.add_0_r (length w)), skipn_len_app; reflexivity.
Qed.

Lemma sub_fences_close : forall is_alnum f, sub_fences is_alnum (S f) fence = [].
Proof. intros is_alnum [|f]; reflexivity. Qed.

(** X11: a reply wrapped in a Markdown code fence with a language tag, whose
    body contains no fence, is reduced to its stripped body before parsing.
    *)
Lemma response_text_of_fenced : forall is_alnum w body,
  is_alnum 10%Z = false ->
  forallb (is_w is_alnum) w = true ->
  (forall k, is_prefix fence (skipn k body) = false) ->
  response_text_of is_alnum (fence ++ w ++ 10%Z :: body ++ 10%Z :: fence) = strip body.
Proof.
  intros is_alnum w body Hnl Hw Hb.
  set (text := fence ++ w ++ 10%Z :: body ++ 10%Z :: fence).
  assert (Ht : strip text = text).
  { assert (E : text = [] ++ 96%Z :: (96%Z :: 96%Z :: w ++ 10%Z :: body ++ [10; 96; 96]%Z) ++ [96%Z])
      by (unfold text, fence; cbn [app]; repeat (rewrite <- app_assoc || rewrite <- app_comm_cons); reflexivity).
    rewrite E at 1; rewrite strip_two by reflexivity.
    rewrite E; reflexivity. }
  unfold response_text_of; rewrite Ht.
  replace (is_prefix [96; 96; 96]%Z text) with true by reflexivity.
  assert (Hl : length text = S (length w + length body + 7)).
  { unfold text, fence; rewrite !length_app; cbn [length]; rewrite ?length_app; cbn [length]; lia. }
  rewrite Hl; unfold text; rewrite sub_fences_open by assumption.
  replace (body ++ 10%Z :: fence) with ((body ++ [10%Z]) ++ fence) by (rewrite <- app_assoc; reflexivity).
  rewrite sub_fences_skip.
  - rewrite length_app; cbn [length].
    replace (length w + length body + 7 - (length body + 1))%nat
      with (S (length w + 5)) by lia.
    rewrite sub_fences_close, app_nil_r.
    exact (strip_pad [] body [10%Z] eq_refl eq_refl).
  - intros k Hk; rewrite <- app_assoc; cbn [app fence].
    rewrite length_app in Hk; cbn [length] in Hk.
    destruct (Nat.lt_ge_cases k (length body)) as [L|L].
    + rewrite skipn_app; replace (k - length body)%nat with O by lia; cbn [skipn].
      apply fence_nl; apply Hb.
    + replace k with (length body + 0)%nat by lia; rewrite skipn_len_app; reflexivity.
  - rewrite length_app; cbn [length]; lia.
Qed.

Lemma response_text_of_fenced_witness :
  response_text_of ascii_isalnum (fence ++ s2l "json" ++ 10%Z :: txt "{`a`: 1}" ++ 10%Z :: fence)
  = txt "{`a`: 1}".
Proof.
  rewrite (response_text_of_fenced ascii_isalnum (s2l "json") (txt "{`a`: 1}")).
  - vm_compute; reflexivity.
  - reflexivity.
  - vm_compute; reflexivity.
  - intros k.
    generalize (all_suffixes_spec (fun s => negb (is_prefix fence s)) (txt "{`a`: 1}")
      ltac:(vm_compute; reflexivity) k).
    cbv beta; destruct (is_prefix _ _); [discriminate|reflexivity].
Defined.

End DeprApiProps.

Section ArticleAnalysisProps.
Import ArticleAnalysis.

Lemma str_eqb_iff : forall a b, str_eqb a b = true <-> a = b.
Proof.
  intros a b; unfold str_eqb; destruct (list_eq_dec Z.eq_dec a b); split; congruence.
Qed.

Lemma dict_get_set_same : forall d k v, dict_get (dict_set d k v) k = Some v.
Proof.
  induction d as [|[k' v'] d IH]; intros k v; cbn [dict_set dict_get].
  - replace (str_eqb k k) with true by (symmetry; apply str_eqb_iff; reflexivity); reflexivity.
  - destruct (str_eqb k k') eqn:E; cbn [dict_get]; rewrite ?E; [reflexivity|apply IH].
Qed.

Lemma dict_get_set_other : forall d k v k', str_eqb k' k = false ->
  dict_get (dict_set d k v) k' = dict_get d k'.
Proof.
  induction d as [|[k1 v1] d IH]; intros k v k' H; cbn [dict_set dict_get].
  - rewrite H; reflexivity.
  - destruct (str_eqb k k1) eqn:E; cbn [dict_get].
    + apply str_eqb_iff in E; subst k1; rewrite H; reflexivity.
    + destruct (str_eqb k' k1); [reflexivity|apply IH; exact H].
Qed.

Section ArticleProps.
Variables (preSorted use_cases : list (str * json)) (categories : list str)
  (py_str : json -> str) (exc_str : exc -> str) (timestamp : str) (reply : str -> str + exc).

Lemma analyze_use_case_reply : forall t, str_eqb (s2l t) (s2l "categorize") = false ->
  (forall raw, reply (s2l t) = inl raw ->
     analyze categories py_str exc_str reply t
     = {| Analyzer.success := true; Analyzer.result := Some (strip raw); Analyzer.error := None |})
  /\ (forall e, reply (s2l t) = inr e ->
     Analyzer.success (analyze categories py_str exc_str reply t) = false).
Proof.
  intros t Ht; split; intros x Hx; unfold analyze, Analyzer.analyze_content; rewrite Hx;
    [rewrite Ht|]; reflexivity.
Qed.

(** X12: when the reply to the use-case analysis is not JSON text,
    [analyze_article] raises instead of returning a result: [analyze_content]
    checks the JSON only for [categorize] and reports success, and the
    [json.loads] of the result in [analyze_article] raises. *)
Lemma analyze_article_prose_use_case : forall article raw,
  reply (s2l "use_case") = inl raw ->
  (forall v, json_loads (strip raw) <> inl v) ->
  exists e, analyze_article preSorted use_cases categories py_str exc_str timestamp reply article = inr e.
Proof.
  intros article raw Hr Hj; unfold analyze_article.
  destruct (header preSorted timestamp article) as [aa|e]; [cbn [ebind]|eexists; reflexivity].
  destruct (category_stage categories py_str exc_str reply aa) as [aa'|e]; [cbn [ebind]|eexists; reflexivity].
  unfold use_case_stage.
  rewrite (proj1 (analyze_use_case_reply "use_case" ltac:(reflexivity)) raw Hr); cbn [Analyzer.success Analyzer.result].
  unfold loads; destruct (json_loads (strip raw)) as [v|e]; [exfalso; exact (Hj v eq_refl)|].
  eexists; reflexivity.
Qed.

Ltac get_status :=
  unfold set; repeat (rewrite dict_get_set_other by reflexivity); rewrite ?dict_get_set_same.

(** X13: whenever [analyze_article] returns, its [analysis_status] is
    [success] if the use-case analysis got a reply and [failed] if that call
    failed. *)
Lemma analyze_article_status : forall article d,
  analyze_article preSorted use_cases categories py_str exc_str timestamp reply article = inl d ->
  (dict_get d (s2l "analysis_status") = Some (JStr (s2l "success"))
   /\ exists raw, reply (s2l "use_case") = inl raw)
  \/ (dict_get d (s2l "analysis_status") = Some (JStr (s2l "failed"))
   /\ exists e, reply (s2l "use_case") = inr e).
Proof.
  intros article d H; unfold analyze_article in H.
  destruct (header preSorted timestamp article) as [aa|e]; [cbn [ebind] in H|discriminate].
  destruct (category_stage categories py_str exc_str reply aa) as [aa1|e]; [cbn [ebind] in H|discriminate].
  destruct (use_case_stage use_cases categories py_str exc_str reply aa1) as [aa2|e] eqn:U;
    [cbn [ebind] in H|discriminate].
  assert (T : forall aa3, type_2_stage categories py_str exc_str reply aa2 = inl aa3 ->
            dict_get aa3 (s2l "analysis_status") = dict_get aa2 (s2l "analysis_status")).
  { intros aa3 H3; unfold type_2_stage in H3.
    destruct (Analyzer.success _).
    - destruct (loads _) as [u|]; [cbn [ebind] in H3|discriminate].
      destruct (py_index u _) as [x|]; [cbn [ebind] in H3|discriminate].
      destruct (py_index u _) as [y|]; [cbn [ebind] in H3|discriminate].
      injection H3 as <-; get_status; reflexivity.
    - injection H3 as <-; get_status; reflexivity. }
  destruct (type_2_stage categories py_str exc_str reply aa2) as [aa3|e] eqn:T2;
    [cbn [ebind] in H|discriminate].
  assert (M : dict_get d (s2l "analysis_status") = dict_get aa3 (s2l "analysis_status")).
  { unfold multi_stage in H.
    destruct (Analyzer.success _).
    - destruct (loads _) as [u|]; [cbn [ebind] in H|discriminate].
      destruct (py_index u _) as [x|]; [cbn [ebind] in H|discriminate].
      destruct (py_index u _) as [y|]; [cbn [ebind] in H|discriminate].
      injection H as <-; get_status; reflexivity.
    - injection H as <-; get_status; reflexivity. }
  rewrite M, (T aa3 eq_refl).
  unfold use_case_stage in U.
  destruct (reply (s2l "use_case")) as [raw|e] eqn:R.
  - left; split; [|exists raw; reflexivity].
    rewrite (proj1 (analyze_use_case_reply "use_case" ltac:(reflexivity)) raw R) in U;
      cbn [Analyzer.success Analyzer.result] in U.
    destruct (loads _) as [u|]; [cbn [ebind] in U|discriminate].
    destruct (py_index u (s2l "use case")) as [uc|]; [cbn [ebind] in U|discriminate].
    destruct (py_index u (s2l "reasoning")) as [r|]; [cbn [ebind] in U|discriminate].
    destruct (py_index u (s2l "next best use case")) as [alt|]; [cbn [ebind] in U|discriminate].
    destruct (lookup use_cases uc) as [[info|]|]; cbn [ebind] in U; [|injection U as <-; get_status; reflexivity|discriminate].
    destruct (get info _ _) as [g|]; [cbn [ebind] in U|discriminate].
    destruct (get info _ _) as [p|]; [cbn [ebind] in U|discriminate].
    injection U as <-; get_status; reflexivity.
  - right; split; [|exists e; reflexivity].
    rewrite (proj2 (analyze_use_case_reply "use_case" ltac:(reflexivity)) e R) in U.
    injection U as <-; get_status; reflexivity.
Qed.

End ArticleProps.

Lemma analyze_article_prose_use_case_witness :
  exists e, analyze_article [] [] [] (fun _ => []) (fun _ => []) [] prose_reply sample_article = inr e.
Proof.
  apply (analyze_article_prose_use_case [] [] [] (fun _ => []) (fun _ => []) [] prose_reply
           sample_article (s2l "Sure! Here is the analysis.")).
  - reflexivity.
  - intros v; vm_compute; intros H; discriminate H.
Defined.

Lemma analyze_article_status_witness :
  exists d, analyze_article [] [] [] (fun _ => []) (fun _ => []) [] api_down sample_article = inl d
  /\ ((dict_get d (s2l "analysis_status") = Some (JStr (s2l "success"))
       /\ exists raw, api_down (s2l "use_case") = inl raw)
      \/ (dict_get d (s2l "analysis_status") = Some (JStr (s2l "failed"))
       /\ exists e, api_down (s2l "use_case") = inr e)).
Proof.
  destruct (analyze_article [] [] [] (fun _ => []) (fun _ => []) [] api_down sample_article)
    as [d|e] eqn:H.
  - exists d; split; [reflexivity|].
    exact (analyze_article_status [] [] [] (fun _ => []) (fun _ => []) [] api_down sample_article d H).
  - vm_compute in H; discriminate H.
Defined.

End ArticleAnalysisProps.

Section MoreProps.
Import Url.

(** X14: [generate_unique_id] gives the same id for a URL whether it starts
    with [http://] or [https://]. *)
Lemma generate_unique_id_http_https : forall str_lower is_alnum nfkc bni r,
  generate_unique_id str_lower is_alnum nfkc bni (s2l "http://" ++ r)
  = generate_unique_id str_lower is_alnum nfkc bni (s2l "https://" ++ r).
Proof.
  intros sl ia nf bni r. unfold generate_unique_id, urlparse, urlsplit.
  change (lstrip_c0 (s2l "http://" ++ r)) with (s2l "http://" ++ r).
  change (lstrip_c0 (s2l "https://" ++ r)) with (s2l "https://" ++ r).
  rewrite !filter_app.
  set (r' := filter _ r).
  change (filter _ (s2l "http://")) with (s2l "http://").
  change (filter _ (s2l "https://")) with (s2l "https://").
  replace (split_scheme (s2l "http://" ++ r')) with (s2l "http", s2l "//" ++ r') by reflexivity.
  replace (split_scheme (s2l "https://" ++ r')) with (s2l "https", s2l "//" ++ r') by reflexivity.
  cbv beta iota.
  destruct (split_netloc bni (s2l "//" ++ r')) as [[netloc url3]|e]; [|reflexivity].
  destruct (split_query_fragment url3) as [[url5 query] fragment].
  destruct (checknetloc_fails nf netloc); [reflexivity|].
  replace (existsb (str_eqb (s2l "http")) uses_params) with true by reflexivity.
  replace (existsb (str_eqb (s2l "https")) uses_params) with true by reflexivity.
  cbn [andb]; destruct (mem 59 url5); [destruct (splitparams url5)|]; reflexivity.
Qed.

Lemma NoDup_snoc : forall (s : str) seen, NoDup seen -> existsb (str_eqb s) seen = false ->
  NoDup (seen ++ [s]).
Proof.
  intros s seen H E; induction H as [|x l Hx H IH]; [constructor; [intros []|constructor]|].
  cbn [existsb] in E; apply orb_false_iff in E; destruct E as [E1 E2].
  cbn [app]; constructor; [|exact (IH E2)].
  intros Hi; apply in_app_or in Hi; destruct Hi as [Hi|[Hi|[]]]; [exact (Hx Hi)|].
  subst x; rewrite (proj2 (str_eqb_iff s s) eq_refl) in E1; discriminate.
Qed.

Lemma attribute_make_nodup : forall sents m seen, NoDup seen -> NoDup (attribute_make sents m seen).
Proof.
  induction sents as [|[[s a] b] r IH]; intros m seen H; [exact H|]; cbn [attribute_make].
  destruct ((a <=? m) && (m <? b)); [|apply IH; exact H].
  destruct (existsb (str_eqb s) seen) eqn:E; [exact H|apply NoDup_snoc; assumption].
Qed.

Lemma attribute_modular_nodup : forall sents m seen, NoDup seen -> NoDup (attribute_modular sents m seen).
Proof.
  induction sents as [|[[s a] b] r IH]; intros m seen H; [exact H|]; cbn [attribute_modular].
  destruct ((a <=? m) && (m <? b) && negb (existsb (str_eqb s) seen)) eqn:C; [|apply IH; exact H].
  apply andb_true_iff in C; destruct C as [_ C]; apply negb_true_iff in C.
  apply NoDup_snoc; assumption.
Qed.

Lemma fold_attribute_nodup : forall (attribute : list (str * nat * nat) -> nat -> list str -> list str) sents,
  (forall m seen, NoDup seen -> NoDup (attribute sents m seen)) ->
  forall (kept : list (nat * str)) acc, NoDup acc ->
  NoDup (fold_left (fun acc '(p, _) => attribute sents p acc) kept acc).
Proof.
  intros attribute sents Ha; induction kept as [|[p w] kept IH]; intros acc H; [exact H|].
  cbn [fold_left]; apply IH; apply Ha; exact H.
Qed.

(** X15: the [sentences_with_pronouns] list of [count_personal_pronouns]
    (both versions) has no duplicates. *)
Lemma sentences_with_pronouns_nodup : forall is_alnum text,
  NoDup (sentences_with_pronouns (MakeAnalysis.count_personal_pronouns is_alnum text))
  /\ NoDup (sentences_with_pronouns (ArticleProcessor.count_personal_pronouns is_alnum text)).
Proof.
  intros is_alnum text; split; cbn [MakeAnalysis.count_personal_pronouns
    ArticleProcessor.count_personal_pronouns count_personal_pronouns_with sentences_with_pronouns];
  apply fold_attribute_nodup; try constructor;
  intros; [apply attribute_make_nodup|apply attribute_modular_nodup]; assumption.
Qed.

Lemma try_alternatives_some : forall is_alnum alts text p n, try_alternatives is_alnum alts text p = Some n ->
  exists a, In a alts /\ n = length a /\ ci_prefix a (skipn p text) = true.
Proof.
  intros is_alnum; induction alts as [|a r IH]; intros text p n H; [discriminate|]; cbn [try_alternatives] in H.
  destruct (ci_prefix a (skipn p text) && at_boundary is_alnum text (p + length a)) eqn:C.
  - injection H as <-; apply andb_true_iff in C; exists a; split; [left; reflexivity|split; [reflexivity|apply C]].
  - destruct (IH text p n H) as (a' & Hi & Hn & Hc); exists a'; split; [right; exact Hi|split; assumption].
Qed.

Lemma ci_prefix_firstn : forall a l, ci_prefix a l = true ->
  ci_prefix a (firstn (length a) l) = true /\ length (firstn (length a) l) = length a.
Proof.
  induction a as [|x a IH]; intros l H; [split; reflexivity|].
  destruct l as [|c l]; [discriminate|]; cbn [ci_prefix] in H; apply andb_true_iff in H.
  destruct H as [H1 H2]; destruct (IH l H2) as [I1 I2].
  cbn [length firstn ci_prefix]; rewrite H1, I1, I2; split; reflexivity.
Qed.

Lemma finditer_pronouns_words : forall is_alnum f text p q w,
  In (q, w) (finditer_pronouns is_alnum f text p) ->
  exists a, In a pronoun_alternatives /\ length w = length a /\ ci_prefix a w = true.
Proof.
  intros is_alnum f text; induction f as [|f IH]; intros p q w H; [destruct H|].
  cbn [finditer_pronouns] in H.
  destruct (p <=? length text); [|destruct H].
  destruct (match_pronoun_at is_alnum text p) as [len|] eqn:M; [|exact (IH _ _ _ H)].
  destruct H as [E|H]; [|exact (IH _ _ _ H)].
  injection E as <- <-.
  unfold match_pronoun_at in M; destruct (at_boundary is_alnum text p); [|discriminate].
  destruct (try_alternatives_some _ _ _ _ _ M) as (a & Hi & -> & Hc).
  exists a; split; [exact Hi|].
  unfold slice; replace (p + length a - p) with (length a) by lia.
  destruct (ci_prefix_firstn a _ Hc) as [C L]; split; assumption.
Qed.

(** X16: every entry of [found_pronouns] of [count_personal_pronouns] (both
    versions) is one of [I], [me], [my], [mine], [myself] up to case. *)
Lemma found_pronouns_words : forall is_alnum text,
  Forall is_pronoun_form (found_pronouns (MakeAnalysis.count_personal_pronouns is_alnum text))
  /\ Forall is_pronoun_form (found_pronouns (ArticleProcessor.count_personal_pronouns is_alnum text)).
Proof.
  intros is_alnum text.
  assert (G : forall attr pairs, Forall is_pronoun_form
            (found_pronouns (count_personal_pronouns_with is_alnum attr pairs text))).
  { intros attr pairs; apply Forall_forall; intros w Hw; cbn [count_personal_pronouns_with found_pronouns] in Hw.
    apply in_map_iff in Hw; destruct Hw as ([q w'] & Ew & Hq); cbn [snd] in Ew; subst w'.
    apply filter_In in Hq; destruct Hq as [Hq _].
    exact (finditer_pronouns_words _ _ _ _ _ _ Hq). }
  split; apply G.
Qed.

End MoreProps.
